(** * thumbnail-buddy: similarity index and generation orchestrator

    A shallow embedding of [thumbnail_finder.py] (class [ThumbnailFinder])
    and [image_generator.py] (class [ImageGenerator]), and of the two
    functions of [web_app.py] that open a finder and serve a generation
    request, with the properties of the components stated and proved over
    the embedding.

    Conventions.
    - A Python [str] is a [string] holding its UTF-8 bytes: an ASCII
      character is one [ascii], any other character is two to four of
      them.  [strip] and slices count characters, not bytes; [lower]
      changes the ASCII letters only.
    - A Python exception is a value of [exc]: its class and its message.
    - Everything the program obtains from outside (the file system, the
      embedding model, HTTP endpoints, SDK clients) is a field of an
      explicit environment; [print] calls are not modelled. *)

From Stdlib Require Import String Ascii List Bool Arith ZArith QArith Lia.
From Stdlib Require Import Sorting.Sorted Sorting.Permutation.
From Stdlib Require OrderedTypeEx.
Import ListNotations.

Local Open Scope list_scope.
Local Open Scope string_scope.

(** ** Python basics shared by both components *)

Module Py.

(** Exception classes the two files raise or catch.  [RequestException]
    stands for [requests.exceptions.RequestException] and its subclasses
    other than [Timeout], which is kept apart because [generate_gemini]
    catches it by name. *)
Inductive exc_class :=
| Exception_
| ValueError
| RuntimeError
| IndexError
| KeyError
| TypeError
| AttributeError
| ImportError
| OSError
| RequestException
| Timeout.

Record exc := mkExc { exc_cls : exc_class; exc_msg : string }.

Inductive res (A : Type) :=
| Ok (a : A)
| Raise (e : exc).
Arguments Ok {A} a.
Arguments Raise {A} e.

(** [isinstance(e, requests.exceptions.RequestException)] *)
Definition is_request_exception (e : exc) : bool :=
  match exc_cls e with
  | RequestException | Timeout => true
  | _ => false
  end.

(** [isinstance(e, requests.exceptions.Timeout)] *)
Definition is_timeout (e : exc) : bool :=
  match exc_cls e with
  | Timeout => true
  | _ => false
  end.

Definition is_import_error (e : exc) : bool :=
  match exc_cls e with
  | ImportError => true
  | _ => false
  end.

(** [str.lower] on the ASCII letters; every other byte is kept. *)
Definition lower_ascii (c : ascii) : ascii :=
  let n := nat_of_ascii c in
  if (65 <=? n)%nat && (n <=? 90)%nat then ascii_of_nat (n + 32) else c.

Fixpoint lower (s : string) : string :=
  match s with
  | EmptyString => EmptyString
  | String c s' => String (lower_ascii c) (lower s')
  end.

(** Python's whitespace test on the ASCII range, as [str.strip] uses it:
    space, tab, newline, vertical tab, form feed, carriage return and the
    four separators 28 to 31. *)
Definition is_space (c : ascii) : bool :=
  let n := nat_of_ascii c in
  (n =? 32)%nat || ((9 <=? n)%nat && (n <=? 13)%nat)
  || ((28 <=? n)%nat && (n <=? 31)%nat).

(** The whitespace characters beyond ASCII, by their UTF-8 bytes: U+0085
    and U+00A0 on two bytes; U+1680, U+2000 to U+200A, U+2028, U+2029,
    U+202F, U+205F and U+3000 on three. *)
Definition is_space2 (c1 c2 : ascii) : bool :=
  (nat_of_ascii c1 =? 194)%nat
  && ((nat_of_ascii c2 =? 133)%nat || (nat_of_ascii c2 =? 160)%nat).

Definition is_space3 (c1 c2 c3 : ascii) : bool :=
  let n1 := nat_of_ascii c1 in
  let n2 := nat_of_ascii c2 in
  let n3 := nat_of_ascii c3 in
  ((n1 =? 225) && (n2 =? 154) && (n3 =? 128))%nat
  || ((n1 =? 226) && (n2 =? 128)
      && (((128 <=? n3) && (n3 <=? 138)) || (n3 =? 168) || (n3 =? 169)
          || (n3 =? 175)))%nat
  || ((n1 =? 226) && (n2 =? 129) && (n3 =? 159))%nat
  || ((n1 =? 227) && (n2 =? 128) && (n3 =? 128))%nat.

(** [len(s.strip()) == 0]: the string has only whitespace. *)
Fixpoint all_space (s : string) : bool :=
  match s with
  | EmptyString => true
  | String c1 s1 =>
      if is_space c1 then all_space s1
      else
        match s1 with
        | EmptyString => false
        | String c2 s2 =>
            if is_space2 c1 c2 then all_space s2
            else
              match s2 with
              | EmptyString => false
              | String c3 s3 =>
                  if is_space3 c1 c2 c3 then all_space s3 else false
              end
        end
  end.

(** A byte 10xxxxxx goes on with the character begun before it. *)
Definition is_continuation (c : ascii) : bool :=
  let n := nat_of_ascii c in
  (128 <=? n)%nat && (n <? 192)%nat.

(** [s[:n]]: the first [n] characters of [s]. *)
Fixpoint take (n : nat) (s : string) : string :=
  match s with
  | EmptyString => EmptyString
  | String c s' =>
      if is_continuation c then String c (take n s')
      else
        match n with
        | O => EmptyString
        | S n' => String c (take n' s')
        end
  end.

(** [needle in haystack] for two strings. *)
Fixpoint contains (needle haystack : string) : bool :=
  if prefix needle haystack then true
  else match haystack with
       | EmptyString => false
       | String _ h' => contains needle h'
       end.

End Py.
Export Py.

(** ** [thumbnail_finder.py] *)

Module Finder.

(** *** Paths ([pathlib.Path]) *)

(** A path is the list of its components. *)
Definition path := list string.

Definition parent (p : path) : path := removelast p.
Definition name (p : path) : string := last p "".

(** [str(p)]: the components joined with the separator. *)
Fixpoint str_path (p : path) : string :=
  match p with
  | [] => "."
  | [c] => c
  | c :: rest => c ++ "/" ++ str_path rest
  end.

Definition path_eqb (p q : path) : bool :=
  if list_eq_dec string_dec p q then true else false.

(** [s.rfind('.')]: position of the last dot, scanning with the current
    position [i] and the best position found so far. *)
Fixpoint rfind_dot (s : string) (i : nat) (found : option nat) : option nat :=
  match s with
  | EmptyString => found
  | String c s' =>
      rfind_dot s' (S i) (if Ascii.eqb c "."%char then Some i else found)
  end.

(** [PurePath.suffix]: [name[i:]] when the last dot is at [0 < i < len - 1],
    the empty string otherwise. *)
Definition suffix (p : path) : string :=
  let n := name p in
  match rfind_dot n 0 None with
  | Some i =>
      if (0 <? i)%nat && (i <? String.length n - 1)%nat
      then substring i (String.length n - i) n
      else ""
  | None => ""
  end.

Definition image_extensions : list string := [".jpg"; ".jpeg"; ".png"; ".webp"].

Definition is_image_suffix (s : string) : bool :=
  existsb (String.eqb (lower s)) image_extensions.

(** *** The index *)

(** Cosine scores and embedding coordinates are rationals: the floating
    point numbers of the program, without rounding. *)
Definition embedding := list Q.

(** One element of [index_data["thumbnails"]]. *)
Record thumbnail := mkThumb {
  t_path : string;
  t_filename : string;
  t_category : option string
}.

(** [index_data].  The key ["categories"] is absent from the dictionary
    [_load_or_create_index] creates, hence the option. *)
Record index := mkIndex {
  thumbnails : list thumbnail;
  embeddings : list embedding;
  categories : option (list string)
}.

(** Values stored in a result dictionary. *)
Inductive pyval :=
| VNone
| VStr (s : string)
| VFloat (q : Q)
| VInt (z : Z).

(** A Python [dict] with string keys, in insertion order. *)
Definition dict := list (string * pyval).

Fixpoint dict_get (d : dict) (k : string) : option pyval :=
  match d with
  | [] => None
  | (k', v) :: d' => if String.eqb k k' then Some v else dict_get d' k
  end.

Definition dict_keys (d : dict) : list string := map fst d.

(** The instance: [self.thumbnails_dir], [self.index_file] and
    [self.index_data]. *)
Record finder := mkFinder {
  thumbnails_dir : path;
  index_file : string;
  index_data : index
}.

(** The JSON files on disk, by file name: [None] when the file does not
    exist.  [json.dump] followed by [json.load] is the identity on an
    [index]. *)
Definition disk := string -> option index.

Definition disk_write (d : disk) (file : string) (ix : index) : disk :=
  fun f => if String.eqb f file then Some ix else d f.

Definition default_index_file : string := "thumbnail_index.json".

(** [_load_or_create_index] *)
Definition _load_or_create_index (d : disk) (file : string) : index :=
  match d file with
  | Some ix => ix
  | None => mkIndex [] [] None
  end.

(** [__init__] *)
Definition init (d : disk) (dir : path) (file : string) : finder :=
  mkFinder dir file (_load_or_create_index d file).

(** [sorted(list(categories))]: the distinct names in increasing order. *)
Fixpoint insert_sorted (s : string) (l : list string) : list string :=
  match l with
  | [] => [s]
  | x :: l' =>
      match String.compare s x with
      | Lt => s :: x :: l'
      | Eq => x :: l'
      | Gt => x :: insert_sorted s l'
      end
  end.

Definition sorted_set (l : list string) : list string :=
  fold_right insert_sorted [] l.

Section WithEnvironment.

(** The directory tree: what [thumbnails_dir.rglob('*')] yields, and
    [path.is_file()]. *)
Variable rglob : path -> list path.
Variable is_file : path -> bool.

(** [Image.open(p).convert('RGB')] followed by [self.model.encode(img)]:
    [None] when either raises. *)
Variable encode_image : path -> option embedding.
(** [self.model.encode(query)] *)
Variable encode_text : string -> embedding.
(** [util.cos_sim] of the query against one stored embedding. *)
Variable cos_sim : embedding -> embedding -> Q.

(** The first loop of [index_thumbnails]. *)
Definition image_files (dir : path) : list path :=
  filter (fun p => is_file p && is_image_suffix (suffix p)) (rglob dir).

(** Category of one file: the parent directory's name, unless the parent
    is [thumbnails_dir] itself. *)
Definition category_of (dir img_path : path) : option string :=
  if path_eqb (parent img_path) dir then None
  else Some (name (parent img_path)).

(** The second loop of [index_thumbnails], over the files still to do.
    The accumulators are [thumbnails], [embeddings] and [categories] (in
    order of first insertion); a file whose loading or embedding raises
    leaves them as they are. *)
Fixpoint index_loop (dir : path) (files : list path)
    (thumbs : list thumbnail) (embs : list embedding) (cats : list string)
    : list thumbnail * list embedding * list string :=
  match files with
  | [] => (thumbs, embs, cats)
  | img_path :: rest =>
      match encode_image img_path with
      | Some e =>
          let category := category_of dir img_path in
          let cats' := match category with
                       | Some c => (cats ++ [c])%list
                       | None => cats
                       end in
          index_loop dir rest
            (thumbs ++ [mkThumb (str_path img_path) (name img_path) category])%list
            (embs ++ [e])%list cats'
      | None => index_loop dir rest thumbs embs cats
      end
  end.

(** [index_thumbnails]: the new instance and the new disk. *)
Definition index_thumbnails (f : finder) (d : disk) : finder * disk :=
  let files := image_files (thumbnails_dir f) in
  match files with
  | [] => (f, d)
  | _ :: _ =>
      let '(thumbs, embs, cats) := index_loop (thumbnails_dir f) files [] [] [] in
      let ix := mkIndex thumbs embs (Some (sorted_set cats)) in
      (mkFinder (thumbnails_dir f) (index_file f) ix,
       disk_write d (index_file f) ix)
  end.

(** The query string of [find_similar]. *)
Definition search_query (topic : string) (pov : option string) : string :=
  let query := "YouTube thumbnail about " ++ topic in
  match pov with
  | Some p => if String.eqb p "" then query
              else query ++ " from " ++ p ++ " perspective"
  | None => query
  end.

(** [torch.topk(similarities, k)]: the [k] largest scores with their
    positions, largest first.  Among equal scores the earlier position
    comes first; torch leaves that order open. *)
Fixpoint insert_desc (x : nat * Q) (l : list (nat * Q)) : list (nat * Q) :=
  match l with
  | [] => [x]
  | y :: l' =>
      if Qle_bool (snd y) (snd x) then x :: y :: l'
      else y :: insert_desc x l'
  end.

Definition sort_desc (l : list (nat * Q)) : list (nat * Q) :=
  fold_right insert_desc [] l.

Definition enumerate (l : list Q) : list (nat * Q) :=
  combine (seq 0 (length l)) l.

Definition topk (similarities : list Q) (k : Z) : res (list (nat * Q)) :=
  if (k <? 0)%Z || (Z.of_nat (length similarities) <? k)%Z
  then Raise (mkExc RuntimeError "selected index k out of range")
  else Ok (firstn (Z.to_nat k) (sort_desc (enumerate similarities))).

(** The result loop of [find_similar]: [results] is the list built so
    far, [len(results) + 1] the next rank. *)
Fixpoint collect (thumbs : list thumbnail) (top : list (nat * Q))
    (results : list dict) : res (list dict) :=
  match top with
  | [] => Ok results
  | (idx, score) :: rest =>
      match nth_error thumbs idx with
      | Some thumbnail =>
          collect thumbs rest
            (results ++
             [[("path", VStr (t_path thumbnail));
               ("filename", VStr (t_filename thumbnail));
               ("similarity_score", VFloat score);
               ("rank", VInt (Z.of_nat (length results) + 1))]])%list
      | None => Raise (mkExc IndexError "list index out of range")
      end
  end.

(** [find_similar].  The stored embeddings are taken to be vectors of the
    model's dimension, so that [torch.tensor] and [util.cos_sim] accept
    them. *)
Definition find_similar (f : finder) (topic : string) (pov : option string)
    (top_k : Z) : res (list dict) :=
  match thumbnails (index_data f) with
  | [] => Raise (mkExc ValueError
                   "No thumbnails indexed. Run index_thumbnails() first.")
  | _ :: _ =>
      let query := search_query topic pov in
      let query_embedding := encode_text query in
      let similarities := map (cos_sim query_embedding)
                              (embeddings (index_data f)) in
      match topk similarities (Z.min top_k (Z.of_nat (length similarities))) with
      | Ok top_results => collect (thumbnails (index_data f)) top_results []
      | Raise e => Raise e
      end
  end.

(** [get_thumbnail_count] *)
Definition get_thumbnail_count (f : finder) : nat :=
  length (thumbnails (index_data f)).

(** [get_categories] *)
Definition get_categories (f : finder) : list string :=
  match categories (index_data f) with
  | Some cs => cs
  | None => []
  end.

End WithEnvironment.

(** [get_thumbnails_by_category]: the uncategorized thumbnails for [None],
    those of the category otherwise, in index order. *)
Definition get_thumbnails_by_category (f : finder) (category : option string)
    : list thumbnail :=
  match category with
  | None =>
      filter (fun t => match t_category t with
                       | None => true
                       | Some _ => false
                       end)
             (thumbnails (index_data f))
  | Some c =>
      filter (fun t => match t_category t with
                       | Some c' => String.eqb c' c
                       | None => false
                       end)
             (thumbnails (index_data f))
  end.

End Finder.

(** ** [image_generator.py] *)

Module Generator.

(** *** JSON values and the Python operations the file applies to them *)

(** What [response.json()] returns and what goes out as [json=payload]. *)
#[warnings="-register-all"]
Inductive json :=
| JNull
| JBool (b : bool)
| JNum (q : Q)
| JStr (s : string)
| JArr (items : list json)
| JObj (fields : list (string * json)).

Definition type_name (v : json) : string :=
  match v with
  | JNull => "NoneType"
  | JBool _ => "bool"
  | JNum _ => "float"
  | JStr _ => "str"
  | JArr _ => "list"
  | JObj _ => "dict"
  end.

Fixpoint lookup (fields : list (string * json)) (k : string) : option json :=
  match fields with
  | [] => None
  | (k', v) :: rest => if String.eqb k k' then Some v else lookup rest k
  end.

Definition is_str (k : string) (v : json) : bool :=
  match v with
  | JStr s => String.eqb s k
  | _ => false
  end.

(** [bool(v)] *)
Definition py_truthy (v : json) : bool :=
  match v with
  | JNull => false
  | JBool b => b
  | JNum q => negb (Qeq_bool q 0)
  | JStr s => negb (String.eqb s "")
  | JArr l => match l with [] => false | _ => true end
  | JObj f => match f with [] => false | _ => true end
  end.

(** [k in v] for a string literal [k]. *)
Definition py_in (k : string) (v : json) : res bool :=
  match v with
  | JObj f => Ok (match lookup f k with Some _ => true | None => false end)
  | JArr l => Ok (existsb (is_str k) l)
  | JStr s => Ok (contains k s)
  | _ => Raise (mkExc TypeError
                  ("argument of type '" ++ type_name v ++ "' is not iterable"))
  end.

(** [v[k]] for a string literal [k]. *)
Definition py_item (v : json) (k : string) : res json :=
  match v with
  | JObj f => match lookup f k with
              | Some x => Ok x
              | None => Raise (mkExc KeyError ("'" ++ k ++ "'"))
              end
  | JArr _ => Raise (mkExc TypeError
                       "list indices must be integers or slices, not str")
  | JStr _ => Raise (mkExc TypeError "string indices must be integers, not 'str'")
  | _ => Raise (mkExc TypeError
                  ("'" ++ type_name v ++ "' object is not subscriptable"))
  end.

(** [v[0]] *)
Definition py_first (v : json) : res json :=
  match v with
  | JArr (x :: _) => Ok x
  | JArr [] => Raise (mkExc IndexError "list index out of range")
  | JStr (String c _) => Ok (JStr (String c EmptyString))
  | JStr EmptyString => Raise (mkExc IndexError "string index out of range")
  | JObj _ => Raise (mkExc KeyError "0")
  | _ => Raise (mkExc TypeError
                  ("'" ++ type_name v ++ "' object is not subscriptable"))
  end.

(** [len(v)] *)
Definition py_len (v : json) : res nat :=
  match v with
  | JArr l => Ok (List.length l)
  | JStr s => Ok (String.length s)
  | JObj f => Ok (List.length f)
  | _ => Raise (mkExc TypeError
                  ("object of type '" ++ type_name v ++ "' has no len()"))
  end.

(** [v.get(k, default)] *)
Definition py_get (v : json) (k : string) (default : json) : res json :=
  match v with
  | JObj f => Ok (match lookup f k with Some x => x | None => default end)
  | _ => Raise (mkExc AttributeError
                  ("'" ++ type_name v ++ "' object has no attribute 'get'"))
  end.

(** [v.keys()], evaluated inside two diagnostic prints of [generate_gemini]. *)
Definition py_keys (v : json) : res (list string) :=
  match v with
  | JObj f => Ok (map fst f)
  | _ => Raise (mkExc AttributeError
                  ("'" ++ type_name v ++ "' object has no attribute 'keys'"))
  end.

(** [v.lower()] *)
Definition py_lower (v : json) : res string :=
  match v with
  | JStr s => Ok (lower s)
  | _ => Raise (mkExc AttributeError
                  ("'" ++ type_name v ++ "' object has no attribute 'lower'"))
  end.

Fixpoint chars (s : string) : list json :=
  match s with
  | EmptyString => []
  | String c s' => JStr (String c EmptyString) :: chars s'
  end.

(** The elements [for part in v] runs over. *)
Definition py_iter (v : json) : res (list json) :=
  match v with
  | JArr l => Ok l
  | JStr s => Ok (chars s)
  | JObj f => Ok (map (fun kv => JStr (fst kv)) f)
  | _ => Raise (mkExc TypeError
                  ("'" ++ type_name v ++ "' object is not iterable"))
  end.

Definition is_list (v : json) : bool :=
  match v with JArr _ => true | _ => false end.

(** *** The reference-image argument *)

(** [reference_image_path] is annotated [str] but checked at run time: the
    value may be [None], a string, or any other object, of which only the
    truth value matters. *)
Inductive pyref :=
| RNone
| RStr (s : string)
| ROther (truth : bool).

(** [bool(reference_image_path)] *)
Definition ref_truthy (r : pyref) : bool :=
  match r with
  | RNone => false
  | RStr s => negb (String.eqb s "")
  | ROther b => b
  end.

(** [reference_image_path and isinstance(reference_image_path, str) and
    len(reference_image_path.strip()) > 0], the test [generate_gemini]
    repeats at each candidate. *)
Definition ref_usable (r : pyref) : option string :=
  match r with
  | RStr s => if negb (String.eqb s "") && negb (all_space s) then Some s else None
  | _ => None
  end.

(** *** The environment *)

(** The reply of [requests.get] and [requests.post]. *)
Record http_response := mkHttp {
  status_code : Z;
  text : string;
  content : string;
  (** [response.json()] *)
  json_body : res json;
  (** the message of the [HTTPError] that [raise_for_status] builds *)
  http_error : string
}.

(** [response.raise_for_status()] *)
Definition raise_for_status (r : http_response) : res unit :=
  if (400 <=? status_code r)%Z && (status_code r <? 600)%Z
  then Raise (mkExc RequestException (http_error r))
  else Ok tt.

(** What [model.generate_content] returns, as far as the file reads it:
    [response.image] (the bytes [save] writes), and for each element of
    [response.parts] the bytes of [inline_data.data] when [inline_data] is
    present and true. *)
Record sdk_response := mkSdk {
  image : option string;
  parts : list (option string)
}.

(** The argument of [model.generate_content]: the prompt alone, or the edit
    prompt with the opened reference image. *)
Inductive sdk_content :=
| SdkText (prompt : string)
| SdkEdit (edit_prompt : string) (ref_image : string).

(** The calls that leave the process, in the order they are made.  Reading
    the reference image and testing for its existence are local and leave
    no event. *)
Inductive event :=
| EvSdk (model : string) (c : sdk_content)
| EvPost (url : string) (payload : json)
| EvGet (url : string)
| EvChat (model : string) (instruction : string) (image_url : string)
| EvImages (model : string) (prompt : string)
| EvFal (application : string) (arguments : json)
| EvSleep (seconds : Z)
| EvWrite (path : string) (data : string).

Definition trace := list event.

(** The outside world.  A network reply may depend on the call and on the
    number of events that came before it. *)
Record env := mkEnv {
  (** [os.path.exists] *)
  path_exists : string -> bool;
  (** [open(p, 'rb').read()] *)
  read_file : string -> res string;
  (** [PILImage.open] *)
  pil_open : string -> res unit;
  (** [open(p, 'wb')] and [write], and [response.image.save] *)
  write_file : string -> string -> res unit;
  b64encode : string -> string;
  b64decode : string -> res string;
  (** [repr] of a JSON value *)
  repr : json -> string;
  generate_content : nat -> string -> sdk_content -> res sdk_response;
  requests_post : nat -> string -> json -> res http_response;
  requests_get : nat -> string -> res http_response;
  (** [client.chat.completions.create(...).choices[0].message.content] *)
  chat_completions : nat -> string -> string -> string -> res (option string);
  (** [client.images.generate(...).data[0].url] *)
  images_generate : nat -> string -> string -> res (option string);
  (** [import fal_client] *)
  import_fal : res unit;
  (** [fal_client.subscribe] *)
  fal_subscribe : nat -> string -> json -> res json
}.

(** [str(v)] inside an f-string. *)
Definition py_str (w : env) (v : json) : string :=
  match v with
  | JStr s => s
  | _ => repr w v
  end.

Definition opt_str (o : option string) : string :=
  match o with
  | Some s => s
  | None => "None"
  end.

(** *** Computations: a trace of events and a result or an exception *)

Definition M (A : Type) : Type := trace -> res A * trace.

Definition ret {A} (a : A) : M A := fun t => (Ok a, t).

Definition raise {A} (e : exc) : M A := fun t => (Raise e, t).

Definition bind {A B} (m : M A) (k : A -> M B) : M B :=
  fun t => match m t with
           | (Ok a, t') => k a t'
           | (Raise e, t') => (Raise e, t')
           end.

Definition lift {A} (r : res A) : M A := fun t => (r, t).

(** [try: m  except C as e: h e], where [catches] is membership in [C]. *)
Definition try_except {A} (m : M A) (catches : exc -> bool) (h : exc -> M A) : M A :=
  fun t => match m t with
           | (Ok a, t') => (Ok a, t')
           | (Raise e, t') => if catches e then h e t' else (Raise e, t')
           end.

(** [except Exception] *)
Definition any_exception (e : exc) : bool := true.

(** An outside call: the event is recorded, the reply comes from the
    environment. *)
Definition emit {A} (ev : event) (reply : nat -> res A) : M A :=
  fun t => (reply (List.length t), (t ++ [ev])%list).

Declare Scope py_scope.
Delimit Scope py_scope with py.
Notation "x <- m ;; k" := (bind m (fun x => k))
  (at level 61, m at next level, right associativity) : py_scope.
Notation "m ;;; k" := (bind m (fun _ => k))
  (at level 61, right associativity) : py_scope.
Notation "x <~ r ;; k" := (match r with Ok x => k | Raise e => Raise e end)
  (at level 61, r at next level, right associativity) : py_scope.
Local Open Scope py_scope.

(** [Exception(msg)] *)
Definition Exception (msg : string) : exc := mkExc Exception_ msg.

Definition nl : string := String (ascii_of_nat 10) EmptyString.


(** The outcome of one pass through a loop body that may leave the function:
    [Return] is a [return] statement, [Continue] goes on with the next
    candidate and carries the loop's [last_error]. *)
Inductive step (A : Type) :=
| Return (a : A)
| Continue (last_error : option string).
Arguments Return {A} a.
Arguments Continue {A} last_error.

Section WithEnv.

Variable w : env.
(** [self.api_key] *)
Variable api_key : string.

(** The block headed [# CRITICAL: Validate reference_image_path], which opens
    each of the five [generate_*] methods with the same text. *)
Definition validate_reference (r : pyref) : pyref :=
  if ref_truthy r then
    match r with
    | RStr s => if all_space s then RNone
                else if negb (path_exists w s) then RNone
                else r
    | _ => RNone
    end
  else r.

(** [with open(path, "wb") as f: f.write(data)] *)
Definition save (path data : string) : M unit :=
  emit (EvWrite path data) (fun _ => write_file w path data).

Definition post (url : string) (payload : json) : M http_response :=
  emit (EvPost url payload) (fun n => requests_post w n url payload).

Definition get (url : string) : M http_response :=
  emit (EvGet url) (fun n => requests_get w n url).

Definition sleep (seconds : Z) : M unit :=
  emit (EvSleep seconds) (fun _ => Ok tt).

(** [open(reference_image_path, 'rb').read()] *)
Definition open_rb (r : pyref) : res string :=
  match r with
  | RStr p => read_file w p
  | _ => Raise (mkExc TypeError "expected str, bytes or os.PathLike object")
  end.

(** [base64.b64decode(v)] *)
Definition py_b64decode (v : json) : res string :=
  match v with
  | JStr s => b64decode w s
  | _ => Raise (mkExc TypeError
                  ("argument should be a bytes-like object or ASCII string, not '"
                   ++ type_name v ++ "'"))
  end.

(** *** [generate_gemini] *)

Definition gemini_enhanced_prompt (prompt : string) : string :=
  "Create a professional YouTube thumbnail (16:9 aspect ratio): " ++ prompt ++ nl
  ++ nl
  ++ "Style requirements:" ++ nl
  ++ "- High quality, professional design" ++ nl
  ++ "- Eye-catching and engaging" ++ nl
  ++ "- Clear, bold visual elements" ++ nl
  ++ "- Suitable for YouTube platform" ++ nl
  ++ "- 16:9 landscape format" ++ nl
  ++ "- Modern and polished aesthetic" ++ nl
  ++ nl
  ++ "Avoid: podcast microphones, headphones, podcast studio setup".

Definition edit_prompt (enhanced_prompt : string) : string :=
  "Edit this image to: " ++ enhanced_prompt.

Definition models_to_try : list string :=
  ["gemini-2.5-flash-image";
   "gemini-2.5-flash-image-preview";
   "gemini-2.0-flash-preview-image-generation"].

Definition sdk_call (model_name : string) (c : sdk_content) : M sdk_response :=
  emit (EvSdk model_name c) (fun n => generate_content w n model_name c).

(** The [generate_content] call of one SDK candidate. *)
Definition sdk_request (model_name enhanced_prompt : string) (ref : pyref)
    : M sdk_response :=
  match ref_usable ref with
  | Some p =>
      if negb (path_exists w p)
      then sdk_call model_name (SdkText enhanced_prompt)
      else try_except
             (lift (pil_open w p) ;;;
              sdk_call model_name (SdkEdit (edit_prompt enhanced_prompt) p))
             any_exception
             (fun _ => sdk_call model_name (SdkText enhanced_prompt))
  | None => sdk_call model_name (SdkText enhanced_prompt)
  end.

(** The first part that has [inline_data]. *)
Fixpoint first_inline (ps : list (option string)) : option string :=
  match ps with
  | [] => None
  | Some data :: _ => Some data
  | None :: rest => first_inline rest
  end.

(** The [try] body of one SDK candidate: [Some output_path] when it returns,
    [None] when it reaches [continue]. *)
Definition sdk_attempt (model_name enhanced_prompt output_path : string)
    (ref : pyref) : M (option string) :=
  response <- sdk_request model_name enhanced_prompt ref ;;
  match image response with
  | Some img => save output_path img ;;; ret (Some output_path)
  | None =>
      match first_inline (parts response) with
      | Some img_data => save output_path img_data ;;; ret (Some output_path)
      | None => ret None
      end
  end.

(** [for model_name in models_to_try]: an exception of a candidate is caught
    and the next one is tried. *)
Fixpoint sdk_loop (models : list string) (enhanced_prompt output_path : string)
    (ref : pyref) : M (option string) :=
  match models with
  | [] => ret None
  | model_name :: rest =>
      r <- try_except (sdk_attempt model_name enhanced_prompt output_path ref)
             any_exception (fun _ => ret None) ;;
      match r with
      | Some p => ret (Some p)
      | None => sdk_loop rest enhanced_prompt output_path ref
      end
  end.

(** [endpoints_to_try]: the ["name"] and the ["model"] of each. *)
Definition endpoints_to_try : list (string * string) :=
  [("Gemini 2.5 Flash Image", "gemini-2.5-flash-image");
   ("Gemini 2.5 Flash Image Preview", "gemini-2.5-flash-image-preview");
   ("Gemini 2.0 Flash Image Generation", "gemini-2.0-flash-preview-image-generation");
   ("Gemini Exp 1206", "gemini-exp-1206")].

Definition rest_url (model : string) : string :=
  "https://generativelanguage.googleapis.com/v1beta/models/" ++ model
  ++ ":generateContent?key=" ++ api_key.

(** [content_parts] of one REST candidate. *)
Definition content_parts (enhanced_prompt : string) (ref : pyref) : list json :=
  let text_only := [JObj [("text", JStr enhanced_prompt)]] in
  match ref_usable ref with
  | Some p =>
      if path_exists w p then
        match read_file w p with
        | Ok bytes =>
            [JObj [("inline_data",
                    JObj [("mime_type", JStr "image/jpeg");
                          ("data", JStr (b64encode w bytes))])];
             JObj [("text", JStr (edit_prompt enhanced_prompt))]]
        | Raise _ => text_only
        end
      else text_only
  | None => text_only
  end.

Definition rest_payload (enhanced_prompt : string) (ref : pyref) : json :=
  JObj [("contents", JArr [JObj [("parts", JArr (content_parts enhanced_prompt ref))]])].

(** [for part in parts: if "inline_data" in part: ...; break] *)
Fixpoint find_inline_data (ps : list json) : res (option json) :=
  match ps with
  | [] => Ok None
  | part :: rest =>
      b <~ py_in "inline_data" part ;;
      if b then
        d <~ py_item part "inline_data" ;;
        x <~ py_item d "data" ;;
        Ok (Some x)
      else find_inline_data rest
  end.

(** [len(result["candidates"]) > 0], after ["candidates" in result]. *)
Definition has_candidates (result : json) : res bool :=
  b <~ py_in "candidates" result ;;
  if b then
    cs <~ py_item result "candidates" ;;
    n <~ py_len cs ;;
    Ok (0 <? n)%nat
  else Ok false.

(** [image_data] as the REST branch extracts it; [None] when it stays at its
    initial value. *)
Definition gemini_image_data (result : json) : res (option json) :=
  b <~ has_candidates result ;;
  if b then
    cs <~ py_item result "candidates" ;;
    candidate <~ py_first cs ;;
    b1 <~ py_in "content" candidate ;;
    if b1 then
      c <~ py_item candidate "content" ;;
      b2 <~ py_in "parts" c ;;
      if b2 then
        ps <~ py_item c "parts" ;;
        l <~ py_iter ps ;;
        find_inline_data l
      else Ok None
    else Ok None
  else Ok None.

(** The two diagnostic prints of the branch without image data evaluate
    [result.keys()] and [result['candidates'][0].keys()]. *)
Definition print_response_keys (result : json) : res unit :=
  _k <~ py_keys result ;;
  b <~ has_candidates result ;;
  if b then
    cs <~ py_item result "candidates" ;;
    candidate <~ py_first cs ;;
    _k' <~ py_keys candidate ;;
    Ok tt
  else Ok tt.

Definition invalid_key_message : string :=
  "❌ GOOGLE_API_KEY is invalid. Please check your API key in .env file".

(** The [try] body of one REST candidate. *)
Definition rest_attempt (endpoint : string * string)
    (enhanced_prompt output_path : string) (ref : pyref) : M (step string) :=
  let '(ep_name, ep_model) := endpoint in
  response <- post (rest_url ep_model) (rest_payload enhanced_prompt ref) ;;
  if (status_code response =? 200)%Z then
    result <- lift (json_body response) ;;
    image_data <- lift (gemini_image_data result) ;;
    match image_data with
    | Some d =>
        if py_truthy d then
          try_except
            (img_bytes <- lift (py_b64decode d) ;;
             save output_path img_bytes ;;;
             ret (Return output_path))
            any_exception
            (fun decode_error =>
               ret (Continue (Some ("Failed to decode image: " ++ exc_msg decode_error))))
        else
          lift (print_response_keys result) ;;;
          ret (Continue (Some "No image data in response"))
    | None =>
        lift (print_response_keys result) ;;;
        ret (Continue (Some "No image data in response"))
    end
  else if (status_code response =? 404)%Z then
    ret (Continue (Some (ep_name ++ " not available")))
  else if (status_code response =? 403)%Z then
    let error_text := text response in
    if contains "API key not valid" error_text then
      raise (Exception invalid_key_message)
    else if contains "Imagen" error_text
            || contains "image generation" (lower error_text) then
      ret (Continue (Some "Imagen API not enabled"))
    else raise (Exception ("Permission denied: " ++ error_text))
  else
    let error_text := text response in
    ret (Continue (Some (ep_name ++ " failed: " ++ take 100 error_text))).

(** [for endpoint_config in endpoints_to_try], with its two [except]
    clauses. *)
Fixpoint rest_loop (endpoints : list (string * string))
    (enhanced_prompt output_path : string) (ref : pyref)
    (last_error : option string) : M (step string) :=
  match endpoints with
  | [] => ret (Continue last_error)
  | endpoint :: rest =>
      r <- try_except
             (try_except
                (rest_attempt endpoint enhanced_prompt output_path ref)
                is_timeout
                (fun _ => ret (Continue (Some (fst endpoint ++ " timed out")))))
             any_exception
             (fun e => ret (Continue (Some (exc_msg e)))) ;;
      match r with
      | Return p => ret (Return p)
      | Continue last_error' =>
          rest_loop rest enhanced_prompt output_path ref last_error'
      end
  end.

Definition gemini_failure (last_error : option string) : exc :=
  Exception ("Gemini image generation failed with all models. Last error: "
             ++ opt_str last_error
             ++ ". Try DALL-E 3 or check your API key permissions.").

(** One pass over the candidates of [generate_gemini]: the SDK models, then
    the REST endpoints.  [Continue] carries [last_error] when all of them
    failed. *)
Definition gemini_candidates (enhanced_prompt output_path : string) (ref : pyref)
    : M (step string) :=
  r <- sdk_loop models_to_try enhanced_prompt output_path ref ;;
  match r with
  | Some p => ret (Return p)
  | None => rest_loop endpoints_to_try enhanced_prompt output_path ref None
  end.

(** The body of [generate_gemini]; [self_call] is the method itself, called
    again when every candidate failed and a reference was in use. *)
Definition generate_gemini_body
    (self_call : string -> string -> pyref -> M string)
    (prompt output_path : string) (reference_image_path : pyref) : M string :=
  let ref := validate_reference reference_image_path in
  let enhanced_prompt := gemini_enhanced_prompt prompt in
  r <- gemini_candidates enhanced_prompt output_path ref ;;
  match r with
  | Return p => ret p
  | Continue last_error =>
      if ref_truthy ref
      then self_call enhanced_prompt output_path RNone
      else raise (gemini_failure last_error)
  end.

(** [generate_gemini], with the depth of the recursion as fuel; at depth zero
    the interpreter's [RecursionError]. *)
Fixpoint generate_gemini_fuel (fuel : nat) (prompt output_path : string)
    (reference_image_path : pyref) : M string :=
  match fuel with
  | O => raise (mkExc RuntimeError "maximum recursion depth exceeded")
  | S fuel' =>
      generate_gemini_body (generate_gemini_fuel fuel')
        prompt output_path reference_image_path
  end.

(** Two levels are all the method can use: the inner call has no reference
    (see [generate_gemini_fuel_enough]). *)
Definition generate_gemini : string -> string -> pyref -> M string :=
  generate_gemini_fuel 2.

(** *** [generate_freepik] and its helpers *)

(** [a.get(k1) or a.get(k2)] *)
Definition get_or (v : json) (k1 k2 : string) : res json :=
  x <~ py_get v k1 JNull ;;
  if py_truthy x then Ok x else py_get v k2 JNull.

(** [k1 in v or k2 in v] *)
Definition in_or (k1 k2 : string) (v : json) : res bool :=
  b <~ py_in k1 v ;;
  if b then Ok true else py_in k2 v.

(** [requests.get(url)], [raise_for_status()] and the write of
    [img_response.content] to [output_path].  A [url] that is not a string
    is handed to the environment by its text, and the environment answers
    for it as for any other address. *)
Definition download (url : json) (output_path : string) : M string :=
  img_response <- get (py_str w url) ;;
  lift (raise_for_status img_response) ;;;
  save output_path (content img_response) ;;;
  ret output_path.

(** The write of [base64.b64decode(v)] to [output_path]. *)
Definition decode_to (v : json) (output_path : string) : M string :=
  img_data <- lift (py_b64decode v) ;;
  save output_path img_data ;;;
  ret output_path.

Definition max_attempts : nat := 60.

(** The [try] body of one polling attempt of [_poll_freepik_job], up to and
    including its [time.sleep(2)]: [Some output_path] when the method
    returns. *)
Definition poll_job_attempt (status_url output_path : string) : M (option string) :=
  response <- get status_url ;;
  lift (raise_for_status response) ;;;
  result <- lift (json_body response) ;;
  status_v <- lift (py_get result "status" (JStr "")) ;;
  status <- lift (py_lower status_v) ;;
  if String.eqb status "completed" || String.eqb status "success" then
    has_data <- lift (py_in "data" result) ;;
    data <- lift (if has_data then py_item result "data" else Ok JNull) ;;
    if has_data && is_list data then
      image_info <- lift (py_first data) ;;
      has_url <- lift (py_in "url" image_info) ;;
      if has_url then
        u <- lift (py_item image_info "url") ;;
        p <- download u output_path ;;
        ret (Some p)
      else
        has_b64 <- lift (py_in "base64" image_info) ;;
        if has_b64 then
          b <- lift (py_item image_info "base64") ;;
          p <- decode_to b output_path ;;
          ret (Some p)
        else raise (Exception "Image URL not found in completed job")
    else raise (Exception "Image URL not found in completed job")
  else if String.eqb status "failed" || String.eqb status "error" then
    message <- lift (py_get result "message" (JStr "Unknown error")) ;;
    error_msg <- lift (py_get result "error" message) ;;
    raise (Exception ("Generation failed: " ++ py_str w error_msg))
  else
    sleep 2 ;;;
    ret None.

(** [for attempt in range(max_attempts)] of [_poll_freepik_job]: [remaining]
    attempts are left, [attempt] is the loop variable. *)
Fixpoint poll_job_loop (remaining attempt : nat) (status_url output_path : string)
    : M string :=
  match remaining with
  | O => raise (Exception "Generation timed out")
  | S remaining' =>
      r <- try_except
             (poll_job_attempt status_url output_path)
             is_request_exception
             (fun e =>
                if (attempt =? max_attempts - 1)%nat then raise e
                else sleep 2 ;;; ret None) ;;
      match r with
      | Some p => ret p
      | None => poll_job_loop remaining' (S attempt) status_url output_path
      end
  end.

(** [_poll_freepik_job] *)
Definition _poll_freepik_job (job_id : json) (output_path : string) : M string :=
  let status_url := "https://api.freepik.com/v1/ai/text-to-image/" ++ py_str w job_id in
  poll_job_loop max_attempts 0 status_url output_path.

(** [_extract_freepik_image] *)
Definition _extract_freepik_image (result : json) (output_path : string) : M string :=
  d1 <- lift (py_get result "data" JNull) ;;
  image_data <- lift (if py_truthy d1 then Ok d1
                      else d2 <~ py_get result "output" JNull ;;
                           if py_truthy d2 then Ok d2
                           else py_get result "result" JNull) ;;
  image_info <-
    match image_data with
    | JArr (x :: _) => ret x
    | JObj _ => ret image_data
    | _ => raise (Exception ("Unexpected response format: " ++ py_str w result))
    end ;;
  has_url <- lift (py_in "url" image_info) ;;
  if has_url then
    u <- lift (py_item image_info "url") ;;
    download u output_path
  else
    has_b64 <- lift (py_in "base64" image_info) ;;
    if has_b64 then
      b <- lift (py_item image_info "base64") ;;
      decode_to b output_path
    else raise (Exception ("No image URL or base64 found in response: "
                           ++ py_str w image_info)).

(** The [try] body of one polling attempt of [_poll_freepik_task]. *)
Definition poll_task_attempt (status_url output_path : string) : M (option string) :=
  response <- get status_url ;;
  lift (raise_for_status response) ;;;
  result <- lift (json_body response) ;;
  status_v <- lift (py_get result "status" (JStr "")) ;;
  status <- lift (py_lower status_v) ;;
  if String.eqb status "completed" || String.eqb status "success" then
    p <- _extract_freepik_image result output_path ;;
    ret (Some p)
  else if String.eqb status "failed" || String.eqb status "error" then
    message <- lift (py_get result "message" (JStr "Unknown error")) ;;
    error_msg <- lift (py_get result "error" message) ;;
    raise (Exception ("Generation failed: " ++ py_str w error_msg))
  else
    sleep 2 ;;;
    ret None.

Fixpoint poll_task_loop (remaining attempt : nat) (status_url output_path : string)
    : M string :=
  match remaining with
  | O => raise (Exception "Generation timed out")
  | S remaining' =>
      r <- try_except
             (poll_task_attempt status_url output_path)
             is_request_exception
             (fun e =>
                if (attempt =? max_attempts - 1)%nat then raise e
                else sleep 2 ;;; ret None) ;;
      match r with
      | Some p => ret p
      | None => poll_task_loop remaining' (S attempt) status_url output_path
      end
  end.

(** [_poll_freepik_task] *)
Definition _poll_freepik_task (task_id : json) (output_path : string) : M string :=
  let status_url :=
    "https://api.freepik.com/v1/ai/image-style-transfer/" ++ py_str w task_id in
  poll_task_loop max_attempts 0 status_url output_path.

Definition freepik_reference_prompt (prompt : string) : string :=
  "Modify the attached image and create a YouTube thumbnail by making these changes: "
  ++ prompt
  ++ ". Keep the same layout and composition, only change the specified elements. Maintain professional YouTube thumbnail quality at 16:9 aspect ratio.".

(** [endpoints] of [_freepik_with_reference]: the URL and the payload. *)
Definition freepik_reference_endpoints (image_base64 enhanced_prompt : string)
    : list (string * json) :=
  [("https://api.freepik.com/v1/ai/reimagine",
    JObj [("image", JStr image_base64); ("prompt", JStr enhanced_prompt);
          ("num_images", JNum 1)]);
   ("https://api.freepik.com/v1/ai/image-variations",
    JObj [("image", JStr image_base64); ("prompt", JStr enhanced_prompt);
          ("num_variations", JNum 1)])].

(** [for endpoint in endpoints] of [_freepik_with_reference]: a status other
    than 200 and any exception go on to the next endpoint. *)
Fixpoint freepik_reference_loop (endpoints : list (string * json))
    (output_path : string) : M string :=
  match endpoints with
  | [] => raise (Exception
                   "All Freepik reference-based endpoints failed. Using text-to-image instead.")
  | (url, payload) :: rest =>
      r <- try_except
             (response <- post url payload ;;
              if (status_code response =? 200)%Z then
                result <- lift (json_body response) ;;
                p <- _extract_freepik_image result output_path ;;
                ret (Some p)
              else ret None)
             any_exception
             (fun _ => ret None) ;;
      match r with
      | Some p => ret p
      | None => freepik_reference_loop rest output_path
      end
  end.

(** [_freepik_with_reference] *)
Definition _freepik_with_reference (prompt output_path : string)
    (reference_image_path : pyref) : M string :=
  bytes <- lift (open_rb reference_image_path) ;;
  let image_base64 := b64encode w bytes in
  let enhanced_prompt := freepik_reference_prompt prompt in
  freepik_reference_loop
    (freepik_reference_endpoints image_base64 enhanced_prompt) output_path.

(** [_generate_freepik_style_transfer], which no other method calls. *)
Definition _generate_freepik_style_transfer (prompt output_path : string)
    (reference_image_path : pyref) : M string :=
  bytes <- lift (open_rb reference_image_path) ;;
  let image_base64 := b64encode w bytes in
  let modification_prompt :=
    prompt ++ ". Keep similar layout and composition to the reference image." in
  let payload :=
    JObj [("image", JStr image_base64);
          ("prompt", JStr modification_prompt);
          ("negative_prompt",
           JStr "blurry, low quality, distorted, completely different, podcast microphone, headphones");
          ("num_images", JNum 1)] in
  response <- post "https://api.freepik.com/v1/ai/reimagine" payload ;;
  lift (raise_for_status response) ;;;
  result <- lift (json_body response) ;;
  task_id <- lift (get_or result "task_id" "id") ;;
  if py_truthy task_id then _poll_freepik_task task_id output_path
  else
    b <- lift (in_or "data" "output" result) ;;
    if b then _extract_freepik_image result output_path
    else raise (Exception ("No task_id in response: " ++ py_str w result)).

Definition freepik_text_prompt (prompt : string) : string :=
  "Create a professional YouTube thumbnail (16:9 landscape format, 1920x1080): "
  ++ prompt
  ++ ". High quality, eye-catching design. Bold colors, modern aesthetic, engaging visual elements. Professional YouTube thumbnail style.".

Definition freepik_negative_prompt : string :=
  "blurry, low quality, distorted, ugly, bad anatomy, podcast microphone, headphones".

Definition freepik_text_payload (enhanced_prompt : string) : json :=
  JObj [("prompt", JStr enhanced_prompt);
        ("negative_prompt", JStr freepik_negative_prompt);
        ("guidance_scale", JNum (15 # 2));
        ("num_images", JNum 1);
        ("image", JObj [("size", JStr "landscape_16_9")]);
        ("styling", JObj [("style", JStr "photo");
                          ("color", JStr "vibrant");
                          ("lightning", JStr "dramatic")])].

(** The second half of the [try] body of [generate_freepik], from
    [# Try alternative API response format]. *)
Definition freepik_alternative (result : json) (output_path : string) : M string :=
  b <- lift (in_or "id" "job_id" result) ;;
  if b then
    job_id <- lift (get_or result "id" "job_id") ;;
    _poll_freepik_job job_id output_path
  else raise (Exception ("Unexpected API response format: " ++ py_str w result)).

(** The text-to-image half of [generate_freepik]. *)
Definition freepik_text_to_image (prompt output_path : string) : M string :=
  let enhanced_prompt := freepik_text_prompt prompt in
  response <- post "https://api.freepik.com/v1/ai/text-to-image"
                (freepik_text_payload enhanced_prompt) ;;
  lift (raise_for_status response) ;;;
  result <- lift (json_body response) ;;
  has_data <- lift (py_in "data" result) ;;
  if has_data then
    image_data <- lift (py_item result "data") ;;
    match image_data with
    | JArr (image_info :: _) =>
        has_b64 <- lift (py_in "base64" image_info) ;;
        if has_b64 then
          b <- lift (py_item image_info "base64") ;;
          decode_to b output_path
        else
          has_url <- lift (py_in "url" image_info) ;;
          if has_url then
            u <- lift (py_item image_info "url") ;;
            download u output_path
          else freepik_alternative result output_path
    | _ =>
        is_job <- lift (in_or "id" "job_id" image_data) ;;
        if is_job then
          job_id <- lift (get_or image_data "id" "job_id") ;;
          _poll_freepik_job job_id output_path
        else freepik_alternative result output_path
    end
  else freepik_alternative result output_path.

(** [generate_freepik] *)
Definition generate_freepik (prompt output_path : string)
    (reference_image_path : pyref) : M string :=
  let ref := validate_reference reference_image_path in
  if ref_truthy ref then
    try_except
      (_freepik_with_reference prompt output_path ref)
      any_exception
      (fun e => raise (Exception
                         ("Freepik cannot process reference images: " ++ exc_msg e
                          ++ ". Please use DALL-E or Replicate instead.")))
  else freepik_text_to_image prompt output_path.

(** *** [generate_replicate] *)

Definition replicate_prompt (prompt : string) : string :=
  "YouTube thumbnail style, 16:9 landscape format: " ++ prompt
  ++ ". Professional, high quality, eye-catching design. Bold text, vibrant colors, modern aesthetic".

Definition replicate_url : string := "https://api.replicate.com/v1/predictions".

Definition data_url (image_data : string) : string :=
  "data:image/jpeg;base64," ++ image_data.

(** The entries [**({"image": ..., "prompt_strength": ...} if image_input
    else {})]. *)
Definition image_fields (image_input : option string) (strength : Q)
    : list (string * json) :=
  match image_input with
  | Some i => if String.eqb i "" then []
              else [("image", JStr i); ("prompt_strength", JNum strength)]
  | None => []
  end.

(** [models]: the ["version"] and the ["input"] of each. *)
Definition replicate_models (enhanced_prompt : string) (image_input : option string)
    : list (string * json) :=
  [("black-forest-labs/flux-dev",
    JObj ([("prompt", JStr enhanced_prompt);
           ("aspect_ratio", JStr "16:9");
           ("num_outputs", JNum 1);
           ("output_format", JStr "png");
           ("output_quality", JNum 90)]
          ++ image_fields image_input (3 # 4))%list);
   ("stability-ai/sdxl:39ed52f2a78e934b3ba6e2a89f5b1c712de7dfea535525255b1aa35c5565e08b",
    JObj ([("prompt", JStr enhanced_prompt);
           ("width", JNum 1280);
           ("height", JNum 720);
           ("num_outputs", JNum 1);
           ("num_inference_steps", JNum 30);
           ("guidance_scale", JNum (15 # 2));
           ("scheduler", JStr "K_EULER")]
          ++ image_fields image_input (4 # 5))%list)].

(** One pass of the polling loop of [generate_replicate], up to and
    including its [time.sleep(2)]. *)
Definition replicate_poll_attempt (get_url output_path : string) : M (option string) :=
  response <- get get_url ;;
  lift (raise_for_status response) ;;;
  result <- lift (json_body response) ;;
  status <- lift (py_item result "status") ;;
  if is_str "succeeded" status then
    output_data <- lift (py_get result "output" JNull) ;;
    output_url <-
      match output_data with
      | JArr _ => lift (py_first output_data)
      | JStr _ => ret output_data
      | _ => raise (Exception ("Unexpected output format: " ++ py_str w output_data))
      end ;;
    p <- download output_url output_path ;;
    ret (Some p)
  else if is_str "failed" status then
    error_msg <- lift (py_get result "error" (JStr "Unknown error")) ;;
    raise (Exception ("Generation failed: " ++ py_str w error_msg))
  else
    sleep 2 ;;;
    ret None.

(** [for attempt in range(max_attempts)] of [generate_replicate], followed
    by the [raise] after it. *)
Fixpoint replicate_poll_loop (remaining : nat) (get_url output_path : string)
    : M string :=
  match remaining with
  | O => raise (Exception "Generation timed out")
  | S remaining' =>
      r <- replicate_poll_attempt get_url output_path ;;
      match r with
      | Some p => ret p
      | None => replicate_poll_loop remaining' get_url output_path
      end
  end.

(** The [try] body for one model of [generate_replicate]. *)
Definition replicate_attempt (model_config : string * json) (output_path : string)
    : M string :=
  let payload := JObj [("version", JStr (fst model_config));
                       ("input", snd model_config)] in
  response <- post replicate_url payload ;;
  lift (raise_for_status response) ;;;
  result <- lift (json_body response) ;;
  prediction_id <- lift (py_item result "id") ;;
  let get_url := replicate_url ++ "/" ++ py_str w prediction_id in
  replicate_poll_loop max_attempts get_url output_path.

(** [for model_config in models]: the exception of the last model is raised
    again, any earlier one leads to the next model.  [last_error] is what
    [raise last_error] after the loop would raise. *)
Fixpoint replicate_loop (models : list (string * json)) (output_path : string)
    (last_error : exc) : M string :=
  match models with
  | [] => raise last_error
  | model_config :: rest =>
      try_except
        (replicate_attempt model_config output_path)
        any_exception
        (fun e =>
           match rest with
           | [] => raise e
           | _ :: _ => replicate_loop rest output_path e
           end)
  end.

(** [generate_replicate] *)
Definition generate_replicate (prompt output_path : string)
    (reference_image_path : pyref) : M string :=
  let ref := validate_reference reference_image_path in
  let enhanced_prompt := replicate_prompt prompt in
  image_input <-
    (if ref_truthy ref then
       bytes <- lift (open_rb ref) ;;
       ret (Some (data_url (b64encode w bytes)))
     else ret None) ;;
  replicate_loop (replicate_models enhanced_prompt image_input) output_path
    (mkExc TypeError "exceptions must derive from BaseException").

(** *** [generate_dalle] *)

Definition vision_instruction : string :=
  "Analyze this YouTube thumbnail in extreme detail:" ++ nl
  ++ "1. Overall layout and composition (what's on left/right/center/top/bottom)" ++ nl
  ++ "2. All visual elements and their exact positions" ++ nl
  ++ "3. Text content, font styles, and placement" ++ nl
  ++ "4. Color scheme and gradients" ++ nl
  ++ "5. Background elements and style" ++ nl
  ++ "6. Any people, objects, or graphics" ++ nl
  ++ "7. Overall aesthetic and design style" ++ nl
  ++ nl
  ++ "Be extremely specific about spatial positions and visual hierarchy.".

(** The rule of 46 box-drawing characters, in UTF-8. *)
Definition rule : string :=
  "━━━━━━━━━━━━━━━━━━━━━━━━━━━━━━━━━━━━━━━━━━━━━━".

Definition dalle_context_prompt (original_description prompt : string) : string :=
  "Create a YouTube thumbnail (16:9, 1792x1024) by RECREATING this exact layout with modifications:" ++ nl
  ++ nl
  ++ rule ++ nl
  ++ "ORIGINAL DESIGN TO REPLICATE:" ++ nl
  ++ original_description ++ nl
  ++ rule ++ nl
  ++ nl
  ++ "SPECIFIC CHANGES TO MAKE:" ++ nl
  ++ prompt ++ nl
  ++ nl
  ++ rule ++ nl
  ++ "CRITICAL INSTRUCTIONS:" ++ nl
  ++ "- KEEP the exact same layout structure and composition" ++ nl
  ++ "- KEEP the same spatial arrangement (left/right/top/bottom positions)" ++ nl
  ++ "- KEEP the same text placement and font styles" ++ nl
  ++ "- ONLY change the elements specifically mentioned above" ++ nl
  ++ "- Maintain professional YouTube thumbnail quality" ++ nl
  ++ "- DO NOT create a completely new design" ++ nl
  ++ "- RECREATE the original layout with ONLY the specified modifications".

Definition dalle_text_prompt (prompt : string) : string :=
  "YouTube thumbnail style, 16:9 aspect ratio: " ++ prompt
  ++ ". Professional, high quality, eye-catching, modern design".

(** The prompt [generate_dalle] builds, with the vision call when a
    reference is in use. *)
Definition dalle_enhanced_prompt (prompt : string) (ref : pyref) : M string :=
  if ref_truthy ref then
    try_except
      (bytes <- lift (open_rb ref) ;;
       let image_data := b64encode w bytes in
       original_description <-
         emit (EvChat "gpt-4o" vision_instruction (data_url image_data))
              (fun n => chat_completions w n "gpt-4o" vision_instruction
                          (data_url image_data)) ;;
       ret (dalle_context_prompt (opt_str original_description) prompt))
      any_exception
      (fun _ => ret (dalle_text_prompt prompt))
  else ret (dalle_text_prompt prompt).

(** [generate_dalle].  The [openai] and [PIL] packages it imports on entry
    are taken to be installed; a description or an image address the client
    leaves at [None] reads as the text [None]. *)
Definition generate_dalle (prompt output_path : string)
    (reference_image_path : pyref) : M string :=
  let ref := validate_reference reference_image_path in
  enhanced_prompt <- dalle_enhanced_prompt prompt ref ;;
  image_url <-
    emit (EvImages "dall-e-3" (take 4000 enhanced_prompt))
         (fun n => images_generate w n "dall-e-3" (take 4000 enhanced_prompt)) ;;
  download (JStr (opt_str image_url)) output_path.

(** *** [generate_fal] *)

Definition fal_prompt (prompt : string) : string :=
  "YouTube thumbnail style, 16:9 landscape format: " ++ prompt
  ++ ". Professional, high quality, eye-catching design. Bold elements, vibrant colors, modern aesthetic".

Definition fal_application : string := "fal-ai/flux-pro/v1.1-ultra".

Definition fal_arguments (enhanced_prompt : string) (image_url : option string) : json :=
  JObj ([("prompt", JStr enhanced_prompt);
         ("image_size", JStr "landscape_16_9");
         ("num_inference_steps", JNum 40);
         ("guidance_scale", JNum (7 # 2));
         ("num_images", JNum 1);
         ("enable_safety_checker", JBool false);
         ("output_format", JStr "png")]
        ++ match image_url with
           | Some u => [("image_url", JStr u); ("strength", JNum (3 # 4))]
           | None => []
           end)%list.

(** [result and "images" in result and len(result["images"]) > 0] *)
Definition fal_has_images (result : json) : res bool :=
  if py_truthy result then
    b <~ py_in "images" result ;;
    if b then
      imgs <~ py_item result "images" ;;
      n <~ py_len imgs ;;
      Ok (0 <? n)%nat
    else Ok false
  else Ok false.

(** [generate_fal] *)
Definition generate_fal (prompt output_path : string)
    (reference_image_path : pyref) : M string :=
  let ref := validate_reference reference_image_path in
  let enhanced_prompt := fal_prompt prompt in
  try_except
    (lift (import_fal w) ;;;
     image_url <-
       (if ref_truthy ref then
          bytes <- lift (open_rb ref) ;;
          ret (Some (data_url (b64encode w bytes)))
        else ret None) ;;
     let arguments := fal_arguments enhanced_prompt image_url in
     result <- emit (EvFal fal_application arguments)
                    (fun n => fal_subscribe w n fal_application arguments) ;;
     ok <- lift (fal_has_images result) ;;
     if ok then
       imgs <- lift (py_item result "images") ;;
       first <- lift (py_first imgs) ;;
       u <- lift (py_item first "url") ;;
       download u output_path
     else raise (Exception ("Unexpected result format: " ++ py_str w result)))
    is_import_error
    (fun _ => raise (Exception "fal-client not installed. Run: pip install fal-client")).

End WithEnv.

(** *** The instance and [generate] *)

(** [self.service] and [self.api_key] *)
Record generator := mkGenerator {
  service : string;
  api_key : string
}.

Definition key_variable (service : string) : option string :=
  if String.eqb service "freepik" then Some "FREEPIK_API_KEY"
  else if String.eqb service "dalle" then Some "OPENAI_API_KEY"
  else if String.eqb service "gemini" then Some "GOOGLE_API_KEY"
  else if String.eqb service "replicate" then Some "REPLICATE_API_TOKEN"
  else if String.eqb service "fal" then Some "FAL_KEY"
  else None.

(** [__init__], given [os.getenv]. *)
Definition init (getenv : string -> option string) (service_arg : string)
    : res generator :=
  let service := lower service_arg in
  match key_variable service with
  | Some var =>
      match getenv var with
      | Some key =>
          if String.eqb key ""
          then Raise (mkExc ValueError (var ++ " not found in environment"))
          else Ok (mkGenerator service key)
      | None => Raise (mkExc ValueError (var ++ " not found in environment"))
      end
  | None => Raise (mkExc ValueError ("Unsupported service: " ++ service_arg))
  end.

(** [generate] *)
Definition generate (w : env) (self : generator) (prompt output_path : string)
    (reference_image_path : pyref) : M string :=
  if String.eqb (service self) "freepik" then
    generate_freepik w prompt output_path reference_image_path
  else if String.eqb (service self) "dalle" then
    generate_dalle w prompt output_path reference_image_path
  else if String.eqb (service self) "gemini" then
    generate_gemini w (api_key self) prompt output_path reference_image_path
  else if String.eqb (service self) "replicate" then
    generate_replicate w prompt output_path reference_image_path
  else if String.eqb (service self) "fal" then
    generate_fal w prompt output_path reference_image_path
  else raise (mkExc ValueError ("Unsupported service: " ++ service self)).

(** A run from the empty trace. *)
Definition run {A} (m : M A) : res A * trace := m [].

End Generator.

(** ** [web_app.py] *)

Module WebApp.

Import Finder Generator.
Local Open Scope py_scope.

(** *** [init_finder] *)

Section InitFinder.

Variable rglob : path -> list path.
Variable is_file : path -> bool.
Variable encode_image : path -> option embedding.

(** [init_finder]: [g] is the module's global [finder] before the call;
    the result is the finder returned, which is also the global after the
    call, and the disk. *)
Definition init_finder (g : option finder) (d : disk) : finder * disk :=
  match g with
  | None =>
      let finder := Finder.init d ["thumbnails"] default_index_file in
      if (get_thumbnail_count finder =? 0)%nat
      then index_thumbnails rglob is_file encode_image finder d
      else (finder, d)
  | Some finder => (finder, d)
  end.

End InitFinder.

(** *** [generate_thumbnail], the handler of [/api/generate] *)

(** [jsonify(body), status] *)
Record response := mkResponse {
  status : Z;
  body : json
}.

(** [s.replace(' ', '_')] *)
Fixpoint underscores (s : string) : string :=
  match s with
  | EmptyString => EmptyString
  | String c s' =>
      String (if Ascii.eqb c " "%char then "_"%char else c) (underscores s')
  end.

(** The events so far, as a computation reads them. *)
Definition so_far : M trace := fun t => (Ok t, t).

Section GenerateThumbnail.

Variable w : env.
(** [os.getenv] *)
Variable getenv : string -> option string.
(** [Path(p).mkdir(exist_ok=True)] *)
Variable mkdir : string -> res unit.
(** [Path(p).exists()] once the events of the trace have taken place. *)
Variable exists_after : trace -> string -> bool.

(** [ImageGenerator(service=service)], whose first step is
    [service.lower()]. *)
Definition new_generator (service : json) : res generator :=
  match service with
  | JStr s => Generator.init getenv s
  | _ => Raise (mkExc AttributeError
                  ("'" ++ type_name service ++ "' object has no attribute 'lower'"))
  end.

(** [f"generated_{topic.replace(' ', '_').lower()}.png"] *)
Definition output_name (topic : json) : res string :=
  match topic with
  | JStr s => Ok ("generated_" ++ lower (underscores s) ++ ".png")
  | _ => Raise (mkExc AttributeError
                  ("'" ++ type_name topic ++ "' object has no attribute 'replace'"))
  end.

(** The reference the handler passes on: the string of the request when it
    is not empty and names an existing file, no reference otherwise. *)
Definition reference_of (reference_image : json) : pyref :=
  match reference_image with
  | JStr s => if negb (String.eqb s "") && path_exists w s then RStr s else RNone
  | _ => RNone
  end.

Definition prompt_required : response :=
  mkResponse 400 (JObj [("error", JStr "Generation prompt is required")]).

Definition generated (generated_path output_filename : string) : response :=
  mkResponse 200 (JObj [("success", JBool true);
                        ("path", JStr generated_path);
                        ("url", JStr ("/generated/" ++ output_filename))]).

Definition failed (e : exc) : response :=
  mkResponse 500 (JObj [("error", JStr (exc_msg e))]).

(** [generate_thumbnail]; [data] is [request.json].  An exception outside
    the [try] is left to the framework.  The prompt reaches the provider
    templates through f-strings, hence as [str(prompt)].  The test
    [generated_path is None] has no counterpart: [generate] returns a
    string or raises. *)
Definition generate_thumbnail (data : json) : M response :=
  prompt <- lift (py_get data "prompt" (JStr "")) ;;
  service <- lift (py_get data "service" (JStr "dalle")) ;;
  topic <- lift (py_get data "topic" (JStr "thumbnail")) ;;
  reference_image <- lift (py_get data "reference_image" JNull) ;;
  if negb (py_truthy prompt) then ret prompt_required
  else
    try_except
      (lift (mkdir "generated_thumbnails") ;;;
       generator <- lift (new_generator service) ;;
       output_filename <- lift (output_name topic) ;;
       let output_path := "generated_thumbnails/" ++ output_filename in
       generated_path <-
         generate w generator (py_str w prompt) output_path
           (reference_of reference_image) ;;
       if String.eqb generated_path "" then
         raise (Exception ("Invalid path returned from generator: " ++ generated_path))
       else
         now <- so_far ;;
         if negb (exists_after now generated_path) then
           raise (Exception ("File was not created at " ++ generated_path))
         else ret (generated generated_path output_filename))
      any_exception
      (fun e => ret (failed e)).

End GenerateThumbnail.

End WebApp.

(** ** Example environments *)

Module Examples.

Import Finder.

(** The directory of the example scenario: two files in [Tech], one at the
    root, and beside them a directory and two files that are not images. *)
Definition root : path := ["thumbnails"].
Definition a_jpg : path := ["thumbnails"; "Tech"; "a.jpg"].
Definition b_png : path := ["thumbnails"; "Tech"; "b.png"].
Definition c_jpg : path := ["thumbnails"; "c.jpg"].

Definition tree (dir : path) : list path :=
  if path_eqb dir root
  then [["thumbnails"; "Tech"]; a_jpg; b_png; c_jpg;
        ["thumbnails"; "notes.txt"]; ["thumbnails"; ".jpg"]]
  else [].

Definition tree_is_file (p : path) : bool :=
  negb (path_eqb p ["thumbnails"; "Tech"]).

(** A directory without any image file. *)
Definition empty_tree (dir : path) : list path := [["thumbnails"; "notes.txt"]].

(** Unit vectors in the plane as embeddings; their cosine is their dot
    product. *)
Definition unit_image (p : path) : option embedding :=
  if path_eqb p a_jpg then Some [1; 0]
  else if path_eqb p b_png then Some [0; 1]
  else if path_eqb p c_jpg then Some [3 # 5; 4 # 5]
  else None.

Definition unit_text (query : string) : embedding := [1; 0].

Fixpoint dot (u v : embedding) : Q :=
  match u, v with
  | x :: u', y :: v' => x * y + dot u' v'
  | _, _ => 0
  end.

(** An image model on which every file fails. *)
Definition no_image (p : path) : option embedding := None.

Definition no_disk : disk := fun _ => None.

(** The three entries of the example scenario. *)
Definition entry_a : thumbnail := mkThumb "thumbnails/Tech/a.jpg" "a.jpg" (Some "Tech").
Definition entry_b : thumbnail := mkThumb "thumbnails/Tech/b.png" "b.png" (Some "Tech").
Definition entry_c : thumbnail := mkThumb "thumbnails/c.jpg" "c.jpg" None.

(** The instance after [index_thumbnails] on the example directory, with no
    snapshot on disk before. *)
Definition example_finder : finder :=
  fst (index_thumbnails tree tree_is_file unit_image
         (init no_disk root default_index_file) no_disk).

(** A snapshot left by an earlier build: one entry. *)
Definition old_index : index :=
  mkIndex [mkThumb "thumbnails/old.png" "old.png" None] [[1; 0]] (Some []).

Definition old_disk : disk := disk_write no_disk default_index_file old_index.

(** The query string as the specification words it: the template
    "thumbnail about {topic}", then the clause "from {pov} perspective" when
    a point of view is given. *)
Definition spec_query (topic : string) (pov : option string) : string :=
  ("thumbnail about " ++ topic)
  ++ match pov with
     | Some p => "from " ++ p ++ " perspective"
     | None => ""
     end.

(** The value a result would hold under the key ["category"] if it carried
    the category of its entry. *)
Definition category_value (c : option string) : pyval :=
  match c with
  | Some s => VStr s
  | None => VNone
  end.

End Examples.

(** ** Example worlds for [image_generator.py] *)

Module Stubs.

Import Generator.

(** The only file on disk: a reference image that opens and reads. *)
Definition reference : string := "thumbnails/ref.png".

Definition error_500 : http_response :=
  mkHttp 500 "Internal error" ""
    (Raise (mkExc RequestException "Expecting value: line 1 column 1 (char 0)"))
    "500 Server Error: Internal Server Error".

(** A reply with status 200 and the given body. *)
Definition ok_200 (body : json) : http_response :=
  mkHttp 200 "" "PNG" (Ok body) "".

Definition image_url : string := "https://cdn.example/1.png".

(** The local part of a world: one file, base64 left as the identity. *)
Definition local_world
    (generate_content : nat -> string -> sdk_content -> res sdk_response)
    (requests_post : nat -> string -> json -> res http_response)
    (requests_get : nat -> string -> res http_response)
    (chat_completions : nat -> string -> string -> string -> res (option string))
    (images_generate : nat -> string -> string -> res (option string))
    (fal_subscribe : nat -> string -> json -> res json) : env :=
  mkEnv (String.eqb reference)
        (fun p => if String.eqb reference p then Ok "JPEG"
                  else Raise (mkExc OSError "No such file or directory"))
        (fun p => if String.eqb reference p then Ok tt
                  else Raise (mkExc OSError "No such file or directory"))
        (fun _ _ => Ok tt)
        (fun bytes => bytes)
        (fun s => Ok s)
        (fun _ => "{...}")
        generate_content requests_post requests_get
        chat_completions images_generate
        (Ok tt)
        fal_subscribe.

(** A world in which every provider call fails: the SDKs raise, every HTTP
    request is answered with status 500. *)
Definition failing : env :=
  local_world
    (fun _ _ _ => Raise (Exception "503 The model is overloaded"))
    (fun _ _ _ => Ok error_500)
    (fun _ _ => Ok error_500)
    (fun _ _ _ _ => Raise (Exception "Connection error."))
    (fun _ _ _ => Raise (Exception "Connection error."))
    (fun _ _ _ => Raise (Exception "Connection error.")).

(** A world in which every provider answers at once with an image. *)
Definition working : env :=
  local_world
    (fun _ _ _ => Ok (mkSdk (Some "PNG") []))
    (fun _ _ _ => Ok (ok_200 (JObj [("id", JStr "job-1");
                                     ("data", JArr [JObj [("url", JStr image_url)]])])))
    (fun _ _ => Ok (ok_200 (JObj [("status", JStr "succeeded");
                                  ("output", JArr [JStr image_url])])))
    (fun _ _ _ _ => Ok (Some "A presenter on the left, a bold title on the right."))
    (fun _ _ _ => Ok (Some image_url))
    (fun _ _ _ => Ok (JObj [("images", JArr [JObj [("url", JStr image_url)]])])).

(** A world in which a submitted job never leaves the state "processing". *)
Definition pending : env :=
  local_world
    (fun _ _ _ => Raise (Exception "503 The model is overloaded"))
    (fun _ _ _ => Ok (ok_200 (JObj [("id", JStr "job-1")])))
    (fun _ _ => Ok (ok_200 (JObj [("status", JStr "processing")])))
    (fun _ _ _ _ => Raise (Exception "Connection error."))
    (fun _ _ _ => Raise (Exception "Connection error."))
    (fun _ _ _ => Raise (Exception "Connection error.")).

(** A world in which the provider reports every job as failed. *)
Definition rejecting : env :=
  local_world
    (fun _ _ _ => Raise (Exception "503 The model is overloaded"))
    (fun _ _ _ => Ok (ok_200 (JObj [("id", JStr "job-1")])))
    (fun _ _ => Ok (ok_200 (JObj [("status", JStr "failed");
                                  ("error", JStr "NSFW content detected")])))
    (fun _ _ _ _ => Raise (Exception "Connection error."))
    (fun _ _ _ => Raise (Exception "Connection error."))
    (fun _ _ _ => Raise (Exception "Connection error.")).

Definition gemini : generator := mkGenerator "gemini" "KEY".
Definition freepik : generator := mkGenerator "freepik" "KEY".
Definition replicate : generator := mkGenerator "replicate" "KEY".
Definition dalle : generator := mkGenerator "dalle" "KEY".
Definition fal : generator := mkGenerator "fal" "KEY".

End Stubs.

(** ** Notions used to state the properties of [thumbnail_finder.py] *)

Module FinderNotions.

Import Finder.

(** Results as the claims read them. *)
Definition score_field (r : dict) : option pyval := dict_get r "similarity_score".
Definition rank_field (r : dict) : option pyval := dict_get r "rank".

(** [a] is listed before [b] in a descending list. *)
Definition desc (a b : nat * Q) : Prop := snd b <= snd a.

Definition in_cosine_range (q : Q) : Prop := - (1) <= q /\ q <= 1.

Definition empty_index_error : exc :=
  mkExc ValueError "No thumbnails indexed. Run index_thumbnails() first.".

(** Categories of the entries, in index order. *)
Definition entry_categories (ts : list thumbnail) : list string :=
  flat_map (fun t => match t_category t with Some c => [c] | None => [] end) ts.

(** The dictionary [find_similar] appends for the entry [t]. *)
Definition result_of (t : thumbnail) (score : Q) (rank : Z) : dict :=
  [("path", VStr (t_path t));
   ("filename", VStr (t_filename t));
   ("similarity_score", VFloat score);
   ("rank", VInt rank)].

(** The clause [find_similar] appends for the point of view. *)
Definition pov_clause (pov : option string) : string :=
  match pov with
  | Some p => if String.eqb p "" then "" else " from " ++ p ++ " perspective"
  | None => ""
  end.

End FinderNotions.

(** ** Notions used to state the properties of [image_generator.py] *)

Module GeneratorNotions.

Import Generator.

(** [m] only adds events to the trace, and each added event satisfies
    [Q]. *)
Definition emits {A} (Q : event -> Prop) (m : M A) : Prop :=
  forall t, exists added, snd (m t) = (t ++ added)%list /\ Forall Q added.

Definition is_sleep (ev : event) : bool :=
  match ev with
  | EvSleep _ => true
  | _ => false
  end.

Definition not_sleep (ev : event) : Prop := is_sleep ev = false.

(** The events of one polling attempt on [url]: the status request comes
    first; nothing in the attempt is a pause, except that an attempt after
    which the loop goes on ([paused]) ends with a pause of two seconds. *)
Inductive attempt (url : string) : bool -> trace -> Prop :=
| attempt_paused seg :
    Forall not_sleep seg ->
    attempt url true (EvGet url :: seg ++ [EvSleep 2])%list
| attempt_final seg :
    Forall not_sleep seg ->
    attempt url false (EvGet url :: seg).

Definition timed_out : exc := Exception "Generation timed out".

(** [polled url n added r]: the events [added] are those of at most [n]
    polling attempts on [url], each followed by its pause except the one
    that ends the loop with [r]; after [n] paused attempts the loop ends
    with the time-out. *)
Inductive polled (url : string) : nat -> trace -> res string -> Prop :=
| polled_out : polled url 0 [] (Raise timed_out)
| polled_last n seg r :
    attempt url false seg ->
    polled url (S n) seg r
| polled_more n seg rest r :
    attempt url true seg ->
    polled url n rest r ->
    polled url (S n) (seg ++ rest)%list r.

(** The body of the request [generate_replicate] posts for one model. *)
Definition replicate_payload (model_config : string * json) : json :=
  JObj [("version", JStr (fst model_config)); ("input", snd model_config)].

(** [Q] holds of the requests of one pass of [generate_gemini] with the
    augmented prompt [e]. *)
Definition gemini_requests (w : env) (Q : event -> Prop) (e : string)
    (ref : pyref) : Prop :=
  (forall m, Q (EvSdk m (SdkText e))) /\
  (forall m p, Q (EvSdk m (SdkEdit (edit_prompt e) p))) /\
  (forall url, Q (EvPost url (rest_payload w e ref))).

(** [m] adds no event. *)
Definition silent {A} (m : M A) : Prop := forall t, snd (m t) = t.

(** What follows the status request in a polling attempt: the pause alone
    when the attempt ends with [None] (the loop goes on), and no pause at
    all otherwise. *)
Definition tail_like {A} (m : M (option A)) : Prop :=
  forall t, exists seg,
    snd (m t) = (t ++ seg)%list /\
    match fst (m t) with
    | Ok None => seg = [EvSleep 2]
    | _ => Forall not_sleep seg
    end.

(** A polling attempt: the status request, then its tail. *)
Definition attempt_like {A} (url : string) (m : M (option A)) : Prop :=
  forall t, exists seg,
    snd (m t) = (t ++ EvGet url :: seg)%list /\
    match fst (m t) with
    | Ok None => seg = [EvSleep 2]
    | _ => Forall not_sleep seg
    end.

(** The pauses of a trace, in seconds. *)
Definition pauses (t : trace) : list Z :=
  flat_map (fun ev => match ev with EvSleep s => [s] | _ => [] end) t.

(** The status reply of Freepik reports the job as failed, with the error
    text [msg]. *)
Definition freepik_reports_failure (w : env) (reply : res http_response)
    (msg : string) : Prop :=
  exists r f status,
    reply = Ok r /\
    raise_for_status r = Ok tt /\
    json_body r = Ok (JObj f) /\
    lookup f "status" = Some (JStr status) /\
    (lower status = "failed" \/ lower status = "error") /\
    msg = py_str w (match lookup f "error" with
                    | Some e => e
                    | None => match lookup f "message" with
                              | Some m => m
                              | None => JStr "Unknown error"
                              end
                    end).

(** The status reply of Replicate reports the prediction as failed. *)
Definition replicate_reports_failure (w : env) (reply : res http_response)
    (msg : string) : Prop :=
  exists r f,
    reply = Ok r /\
    raise_for_status r = Ok tt /\
    json_body r = Ok (JObj f) /\
    lookup f "status" = Some (JStr "failed") /\
    msg = py_str w (match lookup f "error" with
                    | Some e => e
                    | None => JStr "Unknown error"
                    end).

(** A polling loop that started at trace [t] and ended as [r]: at most 60
    attempts, at most 60 pauses, each of two seconds; after 60 pauses the
    loop has ended with the time-out. *)
Definition bounded_polling (url : string) (t : trace) (r : res string * trace)
    : Prop :=
  exists added,
    snd r = (t ++ added)%list /\
    polled url 60 added (fst r) /\
    (List.length (pauses added) <= 60)%nat /\
    Forall (fun s => s = 2%Z) (pauses added) /\
    (List.length (pauses added) = 60%nat -> fst r = Raise timed_out).

(** The exception raised for a failure the provider reports. *)
Definition reported_failure (msg : string) : exc :=
  Exception ("Generation failed: " ++ msg).

Definition field_str (fields : list (string * json)) (k : string) : list string :=
  match lookup fields k with
  | Some (JStr s) => [s]
  | _ => []
  end.

(** The text of one element of ["parts"] in a Gemini REST payload. *)
Definition part_text (part : json) : list string :=
  match part with
  | JObj f => field_str f "text"
  | _ => []
  end.

Definition content_texts (c : json) : list string :=
  match c with
  | JObj g => match lookup g "parts" with
              | Some (JArr ps) => flat_map part_text ps
              | _ => []
              end
  | _ => []
  end.

(** The prompt texts inside a request body: the key ["prompt"] (Freepik,
    FAL), ["input"]["prompt"] (Replicate) and the text parts of
    ["contents"] (Gemini REST). *)
Definition payload_prompts (payload : json) : list string :=
  match payload with
  | JObj f =>
      (field_str f "prompt"
       ++ match lookup f "input" with
          | Some (JObj g) => field_str g "prompt"
          | _ => []
          end
       ++ match lookup f "contents" with
          | Some (JArr cs) => flat_map content_texts cs
          | _ => []
          end)%list
  | _ => []
  end.

(** The prompt an event sends to an image provider.  The vision call of
    [generate_dalle] goes to the analysis model and carries a fixed
    instruction, it is not counted. *)
Definition prompts_of (ev : event) : list string :=
  match ev with
  | EvSdk _ (SdkText s) => [s]
  | EvSdk _ (SdkEdit s _) => [s]
  | EvPost _ payload => payload_prompts payload
  | EvImages _ s => [s]
  | EvFal _ arguments => payload_prompts arguments
  | _ => []
  end.

Definition sent_prompts (t : trace) : list string := flat_map prompts_of t.

(** The negative prompt of a request body, when it has one. *)
Definition negative_prompts (ev : event) : list string :=
  match ev with
  | EvPost _ (JObj f) => field_str f "negative_prompt"
  | _ => []
  end.

Definition services : list string := ["freepik"; "dalle"; "gemini"; "replicate"; "fal"].

(** The prompt each provider sends for [prompt] when no reference is in
    use. *)
Definition text_only_prompt (service prompt : string) : string :=
  if String.eqb service "freepik" then freepik_text_prompt prompt
  else if String.eqb service "dalle" then take 4000 (dalle_text_prompt prompt)
  else if String.eqb service "gemini" then gemini_enhanced_prompt prompt
  else if String.eqb service "replicate" then replicate_prompt prompt
  else fal_prompt prompt.

(** [s] is [prompt] wrapped in a style template: a text before and a text
    after it that mention the aspect ratio 16:9 and the quality; for Gemini
    the text after it also holds the instruction against podcast equipment.
    DALL-E receives the first 4000 characters. *)
Definition styled (service prompt s : string) : Prop :=
  exists pre post,
    (s = pre ++ prompt ++ post
     \/ (service = "dalle" /\ s = take 4000 (pre ++ prompt ++ post))) /\
    contains "16:9" (pre ++ post) = true /\
    contains "quality" post = true /\
    (service = "gemini" ->
     contains "Avoid: podcast microphones, headphones" post = true).

(** The part of the context template of [generate_dalle] that comes before
    the prompt; it holds the description of the reference image. *)
Definition dalle_context_prefix (original_description : string) : string :=
  "Create a YouTube thumbnail (16:9, 1792x1024) by RECREATING this exact layout with modifications:"
  ++ nl ++ nl ++ rule ++ nl
  ++ "ORIGINAL DESIGN TO REPLICATE:" ++ nl
  ++ original_description ++ nl
  ++ rule ++ nl ++ nl
  ++ "SPECIFIC CHANGES TO MAKE:" ++ nl.

Definition freepik_text_url : string := "https://api.freepik.com/v1/ai/text-to-image".

(** What the style claim asks of one event sent for [service]. *)
Definition styled_event (service prompt : string) (ev : event) : Prop :=
  (forall s, In s (prompts_of ev) -> styled service prompt s) /\
  (service = "freepik" ->
   forall payload, ev = EvPost freepik_text_url payload ->
     exists n, negative_prompts ev = [n]
               /\ contains "podcast microphone, headphones" n = true).

(** The addresses of the HTTP POST requests of a trace, in order. *)
Definition posted_urls (t : trace) : list string :=
  flat_map (fun ev => match ev with EvPost url _ => [url] | _ => [] end) t.

(** [m] adds events, of which [ev] is the first. *)
Definition starts_with {A} (ev : event) (m : M A) : Prop :=
  forall t, exists rest, snd (m t) = (t ++ ev :: rest)%list.

(** The property every event has. *)
Definition any_event (ev : event) : Prop := True.

(** The first request each provider receives when no reference is in
    use. *)
Definition first_request (service prompt : string) : event :=
  if String.eqb service "freepik" then
    EvPost freepik_text_url (freepik_text_payload (freepik_text_prompt prompt))
  else if String.eqb service "dalle" then
    EvImages "dall-e-3" (take 4000 (dalle_text_prompt prompt))
  else if String.eqb service "gemini" then
    EvSdk "gemini-2.5-flash-image" (SdkText (gemini_enhanced_prompt prompt))
  else if String.eqb service "replicate" then
    EvPost replicate_url
      (JObj [("version", JStr "black-forest-labs/flux-dev");
             ("input",
              JObj [("prompt", JStr (replicate_prompt prompt));
                    ("aspect_ratio", JStr "16:9");
                    ("num_outputs", JNum 1);
                    ("output_format", JStr "png");
                    ("output_quality", JNum 90)])])
  else EvFal fal_application (fal_arguments (fal_prompt prompt) None).

Definition unsupported_service (service : string) : exc :=
  mkExc ValueError ("Unsupported service: " ++ service).

(** A reference argument the specification calls invalid: not a non-empty
    string, or a string that names no file. *)
Definition invalid_reference (w : env) (r : pyref) : Prop :=
  forall s, r = RStr s -> s = "" \/ path_exists w s = false.

(** Every call of the Gemini SDK raises. *)
Definition sdk_fails (w : env) : Prop :=
  forall n model c, exists e, generate_content w n model c = Raise e.

(** Every HTTP request raises or is answered with a status other than
    200. *)
Definition post_fails (w : env) : Prop :=
  forall n url payload,
    match requests_post w n url payload with
    | Raise _ => True
    | Ok r => status_code r <> 200%Z
    end.

(** [last_error] as the REST loop of [generate_gemini] sets it for a reply
    that is an exception or has a status other than 200. *)
Definition rest_error (ep_name : string) (reply : res http_response) : string :=
  match reply with
  | Raise e => if is_timeout e then ep_name ++ " timed out" else exc_msg e
  | Ok r =>
      if (status_code r =? 404)%Z then ep_name ++ " not available"
      else if (status_code r =? 403)%Z then
        if contains "API key not valid" (text r) then invalid_key_message
        else if contains "Imagen" (text r)
                || contains "image generation" (lower (text r))
        then "Imagen API not enabled"
        else "Permission denied: " ++ text r
      else ep_name ++ " failed: " ++ take 100 (text r)
  end.

(** [last_error] after the REST loop went over [endpoints] with every
    request failing, the first request being the event number [n]. *)
Fixpoint rest_errors (w : env) (key e : string) (ref : pyref)
    (endpoints : list (string * string)) (n : nat) (last_error : option string)
    : option string :=
  match endpoints with
  | [] => last_error
  | ep :: rest =>
      rest_errors w key e ref rest (S n)
        (Some (rest_error (fst ep)
                 (requests_post w n (rest_url key (snd ep)) (rest_payload w e ref))))
  end.

(** The events of one failed pass over the Gemini candidates with the
    reference [p] in use. *)
Definition chain_with_reference (w : env) (key enhanced_prompt p : string) : trace :=
  (flat_map (fun m => [EvSdk m (SdkEdit (edit_prompt enhanced_prompt) p);
                        EvSdk m (SdkText enhanced_prompt)]) models_to_try
   ++ map (fun ep => EvPost (rest_url key (snd ep))
                            (rest_payload w enhanced_prompt (RStr p)))
          endpoints_to_try)%list.

(** The events of one failed pass over the Gemini candidates without
    reference. *)
Definition chain_text_only (w : env) (key enhanced_prompt : string) : trace :=
  (map (fun m => EvSdk m (SdkText enhanced_prompt)) models_to_try
   ++ map (fun ep => EvPost (rest_url key (snd ep))
                            (rest_payload w enhanced_prompt RNone))
          endpoints_to_try)%list.

End GeneratorNotions.

(** ** Notions for the index as a build leaves it *)

Module IndexNotions.

Import Finder FinderNotions.

(** The entry [index_thumbnails] appends for the file [p]. *)
Definition entry_of (dir p : path) : thumbnail :=
  mkThumb (str_path p) (name p) (category_of dir p).

(** The file opens and the model embeds it. *)
Definition loads (encode_image : path -> option embedding) (p : path) : bool :=
  match encode_image p with
  | Some _ => true
  | None => false
  end.

(** [a] comes before [b] in the order of [sorted]: the order of the code
    points, which is the order of the UTF-8 bytes. *)
Definition before (a b : string) : Prop := String.compare a b = Lt.

Definition uncategorized (t : thumbnail) : bool :=
  match t_category t with
  | None => true
  | Some _ => false
  end.

(** The finder a build leaves. *)
Definition built rglob is_file encode_image (f : finder) (d : disk) : finder :=
  fst (index_thumbnails rglob is_file encode_image f d).

(** The files a build indexes: the image files that load, in scan order. *)
Definition indexed rglob is_file (encode_image : path -> option embedding)
    (dir : path) : list path :=
  filter (loads encode_image) (image_files rglob is_file dir).

(** The index of a build holds one entry and one embedding for each indexed
    file, in scan order, and each indexed file is a regular file of the
    scan whose extension, in lower case, is one of the four. *)
Definition indexes_what_loads rglob is_file encode_image (f : finder) (d : disk)
    : Prop :=
  let ix := index_data (built rglob is_file encode_image f d) in
  let files := indexed rglob is_file encode_image (thumbnails_dir f) in
  thumbnails ix = map (entry_of (thumbnails_dir f)) files /\
  map Some (embeddings ix) = map encode_image files /\
  Forall (fun p => In p (rglob (thumbnails_dir f)) /\ is_file p = true /\
                   In (lower (suffix p)) image_extensions) files.

(** The category list of a finder is in strictly increasing order and
    names exactly the categories its entries carry. *)
Definition categories_listed (f : finder) : Prop :=
  StronglySorted before (get_categories f) /\
  forall c, In c (get_categories f) <->
            exists t, In t (thumbnails (index_data f)) /\ t_category t = Some c.

(** The uncategorized thumbnails and those of the listed categories add up
    to the whole index. *)
Definition categories_partition (f : finder) : Prop :=
  (length (get_thumbnails_by_category f None)
   + list_sum (map (fun c => length (get_thumbnails_by_category f (Some c)))
                   (get_categories f)))%nat
  = get_thumbnail_count f.

(** Running [index_thumbnails] on what a first run left changes nothing. *)
Definition rebuild_changes_nothing rglob is_file encode_image
    (f : finder) (d : disk) : Prop :=
  let r1 := index_thumbnails rglob is_file encode_image f d in
  let r2 := index_thumbnails rglob is_file encode_image (fst r1) (snd r1) in
  fst r2 = fst r1 /\ forall file, snd r2 file = snd r1 file.

(** The answer of [find_similar] is made of entries at pairwise different
    positions [picks] of the index, each with its own path and file name
    and the cosine score of its own embedding, and no entry left out
    scores higher than one that was picked. *)
Definition answers_with_the_best
    (encode_text : string -> embedding) (cos_sim : embedding -> embedding -> Q)
    (f : finder) (topic : string) (pov : option string) (top_k : Z) : Prop :=
  let score := cos_sim (encode_text (search_query topic pov)) in
  exists (picks : list nat) (results : list dict),
    find_similar encode_text cos_sim f topic pov top_k = Ok results /\
    NoDup picks /\
    Forall2 (fun r idx =>
               exists t e,
                 nth_error (thumbnails (index_data f)) idx = Some t /\
                 nth_error (embeddings (index_data f)) idx = Some e /\
                 dict_get r "path" = Some (VStr (t_path t)) /\
                 dict_get r "filename" = Some (VStr (t_filename t)) /\
                 score_field r = Some (VFloat (score e)))
            results picks /\
    (forall j e idx e',
       nth_error (embeddings (index_data f)) j = Some e -> ~ In j picks ->
       In idx picks -> nth_error (embeddings (index_data f)) idx = Some e' ->
       score e <= score e').

End IndexNotions.

(** ** Notions for what a call of [generate] does *)

Module CallNotions.

Import Generator GeneratorNotions.
Local Open Scope py_scope.

(** What a call with the output path [out] may do: any request, a write
    to [out] and to no other file, a pause of two seconds and no other. *)
Definition tidy (out : string) (ev : event) : Prop :=
  match ev with
  | EvWrite p _ => p = out
  | EvSleep s => s = 2%Z
  | _ => True
  end.

(** The events [added] end with a write to [out] that went through. *)
Definition written (w : env) (out : string) (added : trace) : Prop :=
  exists pre data,
    added = (pre ++ [EvWrite out data])%list /\ write_file w out data = Ok tt.

(** [m] keeps to [tidy out], and a result [a] that stands for a path
    ([value a = Some p]) stands for [out], written just before. *)
Definition lands {A} (w : env) (out : string) (value : A -> option string)
    (m : M A) : Prop :=
  forall t, exists added,
    snd (m t) = (t ++ added)%list /\
    Forall (tidy out) added /\
    forall a p, fst (m t) = Ok a -> value a = Some p ->
                p = out /\ written w out added.

(** The path a loop step returns, if it returns one. *)
Definition returned (r : step string) : option string :=
  match r with
  | Return p => Some p
  | Continue _ => None
  end.

(** How many events of [t] the test [sel] picks. *)
Definition count (sel : event -> bool) (t : trace) : nat :=
  length (filter sel t).

(** [m] adds at most [n] events that [sel] picks. *)
Definition at_most {A} (sel : event -> bool) (n : nat) (m : M A) : Prop :=
  forall t, exists added, snd (m t) = (t ++ added)%list /\ (count sel added <= n)%nat.

(** The pauses a provider can make in one call: each polling loop makes at
    most 60; Freepik polls one job, Replicate one prediction for each of
    its two models, the others none. *)
Definition pause_limit (service : string) : nat :=
  if String.eqb service "replicate" then 120
  else if String.eqb service "freepik" then 60
  else 0.

Definition is_sdk (ev : event) : bool :=
  match ev with
  | EvSdk _ _ => true
  | _ => false
  end.

Definition is_post (ev : event) : bool :=
  match ev with
  | EvPost _ _ => true
  | _ => false
  end.

(** SDK calls one candidate model of [generate_gemini] can take: the edit
    call and, when it fails, the text call. *)
Definition sdk_calls (ref : pyref) : nat :=
  match ref_usable ref with
  | Some _ => 2
  | None => 1
  end.

(** The request exception a status request ends in before its reply is
    read: the one [requests.get] raises, or the one [raise_for_status]
    raises for a status from 400 to 599. *)
Definition status_error (reply : res http_response) : option exc :=
  match reply with
  | Raise e => if is_request_exception e then Some e else None
  | Ok r => match raise_for_status r with
            | Raise e => Some e
            | Ok _ => None
            end
  end.

(** Every status request on [url] ends in a request exception. *)
Definition status_unreachable (w : env) (url : string) : Prop :=
  forall n, exists e, status_error (requests_get w n url) = Some e.

(** One status request followed by its pause. *)
Definition paused_request (url : string) : trace := [EvGet url; EvSleep 2].

(** The second half of [generate_dalle]: the image request with the prompt
    cut to 4000 characters, then the download. *)
Definition dalle_request (w : env) (enhanced_prompt output_path : string) : M string :=
  image_url <-
    emit (EvImages "dall-e-3" (take 4000 enhanced_prompt))
         (fun n => images_generate w n "dall-e-3" (take 4000 enhanced_prompt)) ;;
  download w (JStr (opt_str image_url)) output_path.

(** [len(s)]: the bytes that begin a character. *)
Fixpoint char_length (s : string) : nat :=
  match s with
  | EmptyString => 0
  | String c s' => if is_continuation c then char_length s' else S (char_length s')
  end.

(** An image request carries a prompt of at most 4000 characters. *)
Definition prompt_fits (ev : event) : Prop :=
  match ev with
  | EvImages _ prompt => (char_length prompt <= 4000)%nat
  | _ => True
  end.

(** What [generate_freepik] does with a reference: a request to one of the
    two addresses that take an image, never a pause. *)
Definition reference_request (ev : event) : Prop :=
  match ev with
  | EvPost url _ => url = "https://api.freepik.com/v1/ai/reimagine"
                    \/ url = "https://api.freepik.com/v1/ai/image-variations"
  | EvSleep _ => False
  | _ => True
  end.

Definition freepik_reference_failure (msg : string) : exc :=
  Exception ("Freepik cannot process reference images: " ++ msg
             ++ ". Please use DALL-E or Replicate instead.").

Definition missing_key (var : string) : exc :=
  mkExc ValueError (var ++ " not found in environment").

(** The provider a request goes to, by the client used or by the address;
    status requests, downloads, pauses and writes are left open. *)
Definition provider_of (ev : event) : option string :=
  match ev with
  | EvSdk _ _ => Some "gemini"
  | EvPost url _ =>
      if prefix "https://api.freepik.com/" url then Some "freepik"
      else if String.eqb url replicate_url then Some "replicate"
      else if prefix "https://generativelanguage.googleapis.com/" url
           then Some "gemini"
      else Some ""
  | EvChat _ _ _ => Some "dalle"
  | EvImages _ _ => Some "dalle"
  | EvFal _ _ => Some "fal"
  | EvGet _ => None
  | EvSleep _ => None
  | EvWrite _ _ => None
  end.

Definition own_request (service : string) (ev : event) : Prop :=
  match provider_of ev with
  | Some s => s = service
  | None => True
  end.

(** Every prompt text the event carries is [e]. *)
Definition sends_only (e : string) (ev : event) : Prop :=
  forall s, In s (prompts_of ev) -> s = e.

End CallNotions.

(** ** Notions for the handler of [/api/generate] *)

Module WebNotions.

Import Generator GeneratorNotions WebApp.

(** The prompt of a request body, as the handler reads it. *)
Definition prompt_of_request (fields : list (string * json)) : json :=
  match lookup fields "prompt" with
  | Some x => x
  | None => JStr ""
  end.

Definition topic_of_request (fields : list (string * json)) : json :=
  match lookup fields "topic" with
  | Some x => x
  | None => JStr "thumbnail"
  end.

Definition reference_of_request (fields : list (string * json)) : json :=
  match lookup fields "reference_image" with
  | Some x => x
  | None => JNull
  end.

End WebNotions.

(** ** Facts about strings *)

Module StringFacts.

Lemma append_assoc (a b c : string) : (a ++ b) ++ c = a ++ (b ++ c).
Proof.
  induction a as [|x a IH]; simpl; [reflexivity|]. rewrite IH. reflexivity.
Qed.

Lemma append_nil_r (a : string) : a ++ "" = a.
Proof.
  induction a as [|x a IH]; simpl; [reflexivity|]. rewrite IH. reflexivity.
Qed.

(** Slices and [strip] count characters: the box-drawing character takes
    three bytes, the no-break space two. *)
Lemma take_counts_characters : take 2 "a━b" = "a━".
Proof. reflexivity. Qed.

Lemma no_break_space_is_blank :
  all_space (String (ascii_of_nat 194) (String (ascii_of_nat 160) " ")) = true.
Proof. reflexivity. Qed.

Lemma length_append (a b : string) :
  String.length (a ++ b) = (String.length a + String.length b)%nat.
Proof.
  induction a as [|x a IH]; simpl; [reflexivity|]. rewrite IH. reflexivity.
Qed.

Lemma prefix_append (n : string) : forall a b,
  prefix n a = true -> prefix n (a ++ b) = true.
Proof.
  induction n as [|c n IH]; intros a b H;
    [destruct a; [destruct b|]; reflexivity|].
  destruct a as [|d a]; simpl in *; [discriminate|].
  destruct (ascii_dec c d); [apply IH, H|discriminate].
Qed.

Lemma contains_append_l (n a b : string) :
  contains n a = true -> contains n (a ++ b) = true.
Proof.
  induction a as [|c a IH]; intros H.
  - destruct n; [destruct b; reflexivity|discriminate H].
  - cbn [contains append] in *.
    destruct (prefix n (String c a)) eqn:E.
    + pose proof (prefix_append _ _ b E) as E'. cbn [append] in E'.
      rewrite E'. reflexivity.
    + rewrite (IH H). destruct (prefix n (String c (a ++ b))); reflexivity.
Qed.

Lemma contains_append_r (n a b : string) :
  contains n b = true -> contains n (a ++ b) = true.
Proof.
  intros H. induction a as [|c a IH]; [exact H|].
  cbn [contains append]. rewrite IH.
  destruct (prefix n (String c (a ++ b))); reflexivity.
Qed.

End StringFacts.

(** ** Properties of [thumbnail_finder.py] *)

Module FinderFacts.

Import Finder FinderNotions.

Lemma insert_desc_length x l : length (insert_desc x l) = S (length l).
Proof.
  induction l as [|y l IH]; simpl; [reflexivity|].
  destruct (Qle_bool (snd y) (snd x)); simpl; congruence.
Qed.

Lemma sort_desc_length l : length (sort_desc l) = length l.
Proof.
  induction l as [|x l IH]; simpl; [reflexivity|].
  unfold sort_desc in *. rewrite insert_desc_length. congruence.
Qed.

Lemma insert_desc_In x y l : In y (insert_desc x l) <-> y = x \/ In y l.
Proof.
  induction l as [|z l IH]; simpl.
  - intuition.
  - destruct (Qle_bool (snd z) (snd x)); simpl; [intuition|].
    rewrite IH. intuition.
Qed.

Lemma sort_desc_In y l : In y (sort_desc l) <-> In y l.
Proof.
  induction l as [|x l IH]; simpl; [reflexivity|].
  unfold sort_desc in *. rewrite insert_desc_In, IH. intuition.
Qed.

Lemma insert_desc_sorted x l :
  StronglySorted desc l -> StronglySorted desc (insert_desc x l).
Proof.
  induction 1 as [|y l Hs IH Hall]; simpl.
  - constructor; constructor.
  - destruct (Qle_bool (snd y) (snd x)) eqn:E.
    + apply Qle_bool_iff in E.
      constructor; [constructor; assumption|].
      constructor; [exact E|].
      rewrite Forall_forall in *. intros z Hz. unfold desc in *.
      apply Qle_trans with (snd y); auto.
    + constructor; [assumption|].
      rewrite Forall_forall in *. intros z Hz.
      apply insert_desc_In in Hz. destruct Hz as [->|Hz]; [|auto].
      unfold desc. apply Qlt_le_weak, Qnot_le_lt. intro H.
      apply Qle_bool_iff in H. congruence.
Qed.

Lemma sort_desc_sorted l : StronglySorted desc (sort_desc l).
Proof.
  induction l as [|x l IH]; simpl; [constructor|].
  apply insert_desc_sorted, IH.
Qed.

Lemma firstn_In {A} (x : A) n l : In x (firstn n l) -> In x l.
Proof.
  revert n. induction l as [|y l IH]; intros [|n]; simpl; try tauto.
  intros [H|H]; [left; exact H|right; eapply IH; exact H].
Qed.

Lemma firstn_sorted {A} (R : A -> A -> Prop) n l :
  StronglySorted R l -> StronglySorted R (firstn n l).
Proof.
  intros H. revert n. induction H as [|x l Hs IH Hall]; intros [|n]; simpl;
    try constructor.
  - apply IH.
  - rewrite Forall_forall in *. intros y Hy. apply Hall.
    eapply firstn_In; eauto.
Qed.

Lemma combine_seq_In (l : list Q) : forall s i q,
  In (i, q) (combine (seq s (length l)) l) ->
  (s <= i)%nat /\ nth_error l (i - s) = Some q.
Proof.
  induction l as [|x l IH]; simpl; intros s i q H; [contradiction|].
  destruct H as [H|H].
  - inversion H; subst. rewrite Nat.sub_diag. split; [lia|reflexivity].
  - apply IH in H. destruct H as [Hle Hn]. split; [lia|].
    replace (i - s)%nat with (S (i - S s)) by lia. exact Hn.
Qed.

Lemma enumerate_In l i q : In (i, q) (enumerate l) -> nth_error l i = Some q.
Proof.
  intros H. apply combine_seq_In in H. rewrite Nat.sub_0_r in H. apply H.
Qed.

Lemma enumerate_length l : length (enumerate l) = length l.
Proof.
  unfold enumerate. rewrite length_combine, length_seq. apply Nat.min_id.
Qed.

(** The result loop never fails on positions inside the index, and the
    result at position [i] describes the [i]-th selected entry. *)
Lemma collect_ok thumbs : forall top acc,
  (forall idx q, In (idx, q) top -> (idx < length thumbs)%nat) ->
  exists rs,
    collect thumbs top acc = Ok (acc ++ rs)%list /\
    length rs = length top /\
    forall i r, nth_error rs i = Some r ->
      exists idx q t,
        nth_error top i = Some (idx, q) /\
        nth_error thumbs idx = Some t /\
        r = result_of t q (Z.of_nat (length acc + i) + 1).
Proof.
  induction top as [|[idx q] rest IH]; intros acc Hin.
  - exists []. simpl. rewrite app_nil_r. repeat split; auto.
    intros [|i] r H; discriminate.
  - assert (Hidx : (idx < length thumbs)%nat) by (apply (Hin idx q); left; reflexivity).
    destruct (nth_error thumbs idx) as [t|] eqn:Et;
      [|apply nth_error_None in Et; lia].
    destruct (IH (acc ++ [result_of t q (Z.of_nat (length acc) + 1)])%list)
      as (rs & Hc & Hl & Hr).
    { intros i' q' H'. apply (Hin i' q'). right. exact H'. }
    exists (result_of t q (Z.of_nat (length acc) + 1) :: rs).
    simpl. rewrite Et. rewrite <- app_assoc in Hc.
    split; [exact Hc|]. split; [congruence|].
    intros [|i] r H; simpl in H.
    + inversion H; subst. exists idx, q, t. rewrite Nat.add_0_r. auto.
    + destruct (Hr i r H) as (idx' & q' & t' & H1 & H2 & H3).
      exists idx', q', t'. repeat split; auto.
      rewrite H3, length_app. simpl.
      replace (length acc + 1 + i)%nat with (length acc + S i)%nat by lia.
      reflexivity.
Qed.

Lemma insert_desc_perm x l : Permutation (insert_desc x l) (x :: l).
Proof.
  induction l as [|y l IH]; simpl; [reflexivity|].
  destruct (Qle_bool (snd y) (snd x)); [reflexivity|].
  rewrite IH. apply perm_swap.
Qed.

Lemma sort_desc_perm l : Permutation (sort_desc l) l.
Proof.
  induction l as [|x l IH]; simpl; [reflexivity|].
  rewrite insert_desc_perm. apply perm_skip, IH.
Qed.

Lemma combine_seq_fst (l : list Q) : forall s,
  map fst (combine (seq s (length l)) l) = seq s (length l).
Proof.
  induction l as [|x l IH]; intros s; simpl; [reflexivity|].
  rewrite IH. reflexivity.
Qed.

Lemma firstn_NoDup {A} n (l : list A) : NoDup l -> NoDup (firstn n l).
Proof.
  intros H. revert n. induction H as [|x l Hx Hl IH]; intros [|n]; simpl;
    try constructor.
  - intros Hin. apply Hx. eapply firstn_In, Hin.
  - apply IH.
Qed.

(** A position is selected at most once. *)
Lemma sort_desc_positions sims n :
  NoDup (map fst (firstn n (sort_desc (enumerate sims)))).
Proof.
  rewrite <- firstn_map. apply firstn_NoDup.
  apply (Permutation_NoDup (l := map fst (enumerate sims))).
  - apply Permutation_map, Permutation_sym, sort_desc_perm.
  - unfold enumerate. rewrite combine_seq_fst. apply seq_NoDup.
Qed.

(** What [torch.topk] selects comes from the list of similarities. *)
Lemma topk_ok sims k :
  (0 <= k <= Z.of_nat (length sims))%Z ->
  exists top,
    topk sims k = Ok top /\
    length top = Z.to_nat k /\
    StronglySorted desc top /\
    NoDup (map fst top) /\
    forall idx q, In (idx, q) top -> nth_error sims idx = Some q.
Proof.
  intros Hk. unfold topk.
  destruct (k <? 0)%Z eqn:E1; [apply Z.ltb_lt in E1; lia|].
  destruct (Z.of_nat (length sims) <? k)%Z eqn:E2; [apply Z.ltb_lt in E2; lia|].
  simpl. eexists. split; [reflexivity|]. repeat split.
  - rewrite length_firstn, sort_desc_length, enumerate_length. lia.
  - apply firstn_sorted, sort_desc_sorted.
  - apply sort_desc_positions.
  - intros idx q H. apply firstn_In in H.
    apply (proj1 (sort_desc_In _ _)) in H. apply enumerate_In, H.
Qed.

Lemma sorted_scores top :
  StronglySorted desc top -> StronglySorted (fun a b : Q => b <= a) (map snd top).
Proof.
  induction 1 as [|x l Hs IH Hall]; simpl; constructor; [assumption|].
  rewrite Forall_forall in *. intros q Hq.
  apply in_map_iff in Hq. destruct Hq as (y & <- & Hy). apply Hall, Hy.
Qed.

(** Entries and embeddings are appended together. *)
Lemma index_loop_aligned encode_image dir : forall files thumbs embs cats,
  length embs = length thumbs ->
  let '(thumbs', embs', _) := index_loop encode_image dir files thumbs embs cats in
  length embs' = length thumbs'.
Proof.
  induction files as [|p rest IH]; intros thumbs embs cats H; simpl; [exact H|].
  destruct (encode_image p); [|apply IH, H].
  apply IH. rewrite !length_app. simpl. lia.
Qed.

(** Every index that [index_thumbnails] produces has one embedding for each
    entry. *)
Lemma index_thumbnails_aligned rglob is_file encode_image f d :
  length (embeddings (index_data f)) = length (thumbnails (index_data f)) ->
  let f' := fst (index_thumbnails rglob is_file encode_image f d) in
  length (embeddings (index_data f')) = length (thumbnails (index_data f')).
Proof.
  intros H. unfold index_thumbnails.
  destruct (image_files rglob is_file (thumbnails_dir f)) as [|p rest]; [exact H|].
  pose proof (index_loop_aligned encode_image (thumbnails_dir f) (p :: rest)
                [] [] [] eq_refl) as Ha.
  destruct (index_loop encode_image (thumbnails_dir f) (p :: rest) [] [] [])
    as [[thumbs embs] cats].
  simpl. exact Ha.
Qed.

(** The scores of the results are the scores [torch.topk] selected, in the
    same order. *)
Lemma scores_of_results thumbs top (rs : list dict) :
  length rs = length top ->
  (forall i r, nth_error rs i = Some r ->
     exists idx q t rank,
       nth_error top i = Some (idx, q) /\
       nth_error thumbs idx = Some t /\
       r = result_of t q rank) ->
  map score_field rs = map (fun q => Some (VFloat q)) (map snd top).
Proof.
  intros Hl Hr. apply nth_error_ext. intros n.
  rewrite !nth_error_map.
  destruct (nth_error rs n) as [r|] eqn:En.
  - destruct (Hr n r En) as (idx & q & t & rank & Ht & _ & ->).
    rewrite Ht. reflexivity.
  - apply nth_error_None in En.
    assert (Hn : nth_error top n = None) by (apply nth_error_None; lia).
    rewrite Hn. reflexivity.
Qed.

(** The shape of every successful answer of [find_similar]: the selection
    [top] of [torch.topk] over the similarities, and one result for each
    selected position, in order. *)
Lemma find_similar_ok
    (encode_text : string -> embedding) (cos_sim : embedding -> embedding -> Q)
    (f : finder) (topic : string) (pov : option string) (top_k : Z) :
  thumbnails (index_data f) <> [] ->
  length (embeddings (index_data f)) = length (thumbnails (index_data f)) ->
  (1 <= top_k)%Z ->
  exists top results,
    find_similar encode_text cos_sim f topic pov top_k = Ok results /\
    length results = Nat.min (Z.to_nat top_k) (length (thumbnails (index_data f))) /\
    length results = length top /\
    StronglySorted desc top /\
    NoDup (map fst top) /\
    (forall idx q, In (idx, q) top ->
       exists e, nth_error (embeddings (index_data f)) idx = Some e /\
                 q = cos_sim (encode_text (search_query topic pov)) e) /\
    (forall i r, nth_error results i = Some r ->
       exists idx q t,
         nth_error top i = Some (idx, q) /\
         nth_error (thumbnails (index_data f)) idx = Some t /\
         r = result_of t q (Z.of_nat i + 1)).
Proof.
  intros Hne Hal Hk. unfold find_similar.
  destruct (thumbnails (index_data f)) as [|t0 ts] eqn:Eth; [congruence|].
  rewrite <- Eth in *. clear Hne.
  set (sims := map (cos_sim (encode_text (search_query topic pov)))
                   (embeddings (index_data f))).
  assert (Hls : length sims = length (thumbnails (index_data f)))
    by (unfold sims; rewrite length_map; exact Hal).
  destruct (topk_ok sims (Z.min top_k (Z.of_nat (length sims))))
    as (top & Htop & Hlt & Hsorted & Hnd & Hin); [lia|].
  rewrite Htop.
  destruct (collect_ok (thumbnails (index_data f)) top [])
    as (rs & Hc & Hlr & Hr).
  { intros idx q H. apply Hin in H. rewrite <- Hls.
    apply nth_error_Some. congruence. }
  simpl in Hc. exists top, rs.
  split; [exact Hc|]. split; [lia|]. split; [exact Hlr|].
  split; [exact Hsorted|]. split; [exact Hnd|]. split; [|exact Hr].
  intros idx q H. apply Hin in H. unfold sims in H.
  rewrite nth_error_map in H.
  destruct (nth_error (embeddings (index_data f)) idx) as [e|]; [|discriminate].
  exists e. split; [reflexivity|]. simpl in H. congruence.
Qed.



(** [find_similar] refuses an instance without entries, whatever the other
    arguments are. *)
Lemma find_similar_no_entries encode_text cos_sim f topic pov top_k :
  thumbnails (index_data f) = [] ->
  find_similar encode_text cos_sim f topic pov top_k = Raise empty_index_error.
Proof.
  intros H. unfold find_similar. rewrite H. reflexivity.
Qed.

(** When no file can be loaded or embedded the loop adds nothing. *)
Lemma index_loop_all_fail encode_image dir : forall files thumbs embs cats,
  (forall p, In p files -> encode_image p = None) ->
  index_loop encode_image dir files thumbs embs cats = (thumbs, embs, cats).
Proof.
  induction files as [|p rest IH]; intros thumbs embs cats H; simpl; [reflexivity|].
  rewrite (H p) by (left; reflexivity).
  apply IH. intros q Hq. apply H. right. exact Hq.
Qed.

(** C5, counterexample: the directory holds no image file, the instance was
    loaded from an earlier snapshot with one entry; after [index_thumbnails]
    the query does not fail, it answers from the old entry. *)
Lemma stale_index_answers_after_empty_build :
  let f := init Examples.old_disk Examples.root default_index_file in
  let f' := fst (index_thumbnails Examples.empty_tree Examples.tree_is_file
                   Examples.no_image f Examples.old_disk) in
  image_files Examples.empty_tree Examples.tree_is_file (thumbnails_dir f) = [] /\
  find_similar Examples.unit_text Examples.dot f' "AI" None 3 =
    Ok [result_of (mkThumb "thumbnails/old.png" "old.png" None) 1 1] /\
  find_similar Examples.unit_text Examples.dot f' "AI" None 3
    <> Raise empty_index_error.
Proof.
  cbv zeta. split; [reflexivity|]. split; [reflexivity|].
  intros H. vm_compute in H. discriminate H.
Qed.

(** C5, amended: a query on an instance without entries fails with the
    [ValueError] "No thumbnails indexed. Run index_thumbnails() first.";
    and after [index_thumbnails] on a directory none of whose image files
    can be loaded, the query fails in that way provided at least one image
    file was found or the instance had no entries before. *)
Theorem query_on_empty_index
    (rglob : path -> list path) (is_file : path -> bool)
    (encode_image : path -> option embedding)
    (encode_text : string -> embedding) (cos_sim : embedding -> embedding -> Q)
    (f : finder) (d : disk) (topic : string) (pov : option string) (top_k : Z) :
  (thumbnails (index_data f) = [] ->
   find_similar encode_text cos_sim f topic pov top_k = Raise empty_index_error)
  /\
  ((forall p, In p (image_files rglob is_file (thumbnails_dir f)) ->
              encode_image p = None) ->
   image_files rglob is_file (thumbnails_dir f) <> []
   \/ thumbnails (index_data f) = [] ->
   find_similar encode_text cos_sim
     (fst (index_thumbnails rglob is_file encode_image f d)) topic pov top_k
   = Raise empty_index_error).
Proof.
  split; [apply find_similar_no_entries|].
  intros Hfail Hcase. apply find_similar_no_entries.
  unfold index_thumbnails.
  destruct (image_files rglob is_file (thumbnails_dir f)) as [|p rest] eqn:E.
  - destruct Hcase as [Hc|Hc]; [congruence|exact Hc].
  - rewrite (index_loop_all_fail encode_image _ _ [] [] [] Hfail). reflexivity.
Qed.

(** C5 amended, at the example directory with a model that fails on every
    file and an instance loaded from the old snapshot. *)
Lemma query_on_empty_index_example :
  find_similar Examples.unit_text Examples.dot
    (fst (index_thumbnails Examples.tree Examples.tree_is_file Examples.no_image
            (init Examples.old_disk Examples.root default_index_file)
            Examples.old_disk))
    "AI" None 3
  = Raise empty_index_error.
Proof.
  apply (proj2 (query_on_empty_index Examples.tree Examples.tree_is_file
                  Examples.no_image Examples.unit_text Examples.dot
                  (init Examples.old_disk Examples.root default_index_file)
                  Examples.old_disk "AI" None 3)).
  - intros p _. reflexivity.
  - left. discriminate.
Defined.

(** The categories collected by the loop are those of the entries it
    added. *)
Lemma index_loop_categories encode_image dir : forall files thumbs embs cats,
  cats = entry_categories thumbs ->
  let '(thumbs', _, cats') := index_loop encode_image dir files thumbs embs cats in
  cats' = entry_categories thumbs'.
Proof.
  induction files as [|p rest IH]; intros thumbs embs cats H; simpl; [exact H|].
  destruct (encode_image p); [|apply IH, H].
  apply IH. unfold entry_categories in *. rewrite flat_map_app. simpl.
  destruct (category_of dir p); simpl; rewrite ?app_nil_r; congruence.
Qed.

(** C10, counterexample: no snapshot on disk, a directory without image
    files; after [index_thumbnails] there is still no file under the index
    file name, so the index of the instance has not been persisted. *)
Lemma empty_directory_is_not_persisted :
  let f := init Examples.no_disk Examples.root default_index_file in
  let r := index_thumbnails Examples.empty_tree Examples.tree_is_file
             Examples.unit_image f Examples.no_disk in
  snd r default_index_file = None /\
  snd r default_index_file <> Some (index_data (fst r)).
Proof.
  cbv zeta. split; [reflexivity|]. vm_compute. discriminate.
Qed.

(** C10, amended: when the scan finds at least one image file,
    [index_thumbnails] writes the new index (entries, one embedding for
    each, and the sorted list of the distinct categories of the entries) to
    [self.index_file], replacing what was there and leaving other files
    alone; when the scan finds none, neither the instance nor the disk
    changes. *)
Theorem index_thumbnails_persists
    (rglob : path -> list path) (is_file : path -> bool)
    (encode_image : path -> option embedding) (f : finder) (d : disk) :
  let r := index_thumbnails rglob is_file encode_image f d in
  (image_files rglob is_file (thumbnails_dir f) <> [] ->
   snd r (index_file f) = Some (index_data (fst r)) /\
   (forall file, file <> index_file f -> snd r file = d file) /\
   index_file (fst r) = index_file f /\
   length (embeddings (index_data (fst r)))
     = length (thumbnails (index_data (fst r))) /\
   categories (index_data (fst r))
     = Some (sorted_set (entry_categories (thumbnails (index_data (fst r))))))
  /\
  (image_files rglob is_file (thumbnails_dir f) = [] -> r = (f, d)).
Proof.
  cbv zeta. unfold index_thumbnails.
  destruct (image_files rglob is_file (thumbnails_dir f)) as [|p rest] eqn:E.
  - split; [congruence|reflexivity].
  - split; [|discriminate]. intros _.
    pose proof (index_loop_aligned encode_image (thumbnails_dir f) (p :: rest)
                  [] [] [] eq_refl) as Ha.
    pose proof (index_loop_categories encode_image (thumbnails_dir f) (p :: rest)
                  [] [] [] eq_refl) as Hc.
    destruct (index_loop encode_image (thumbnails_dir f) (p :: rest) [] [] [])
      as [[thumbs embs] cats].
    simpl. unfold disk_write. rewrite String.eqb_refl.
    repeat split; auto.
    + intros file Hf. apply String.eqb_neq in Hf. rewrite Hf. reflexivity.
    + congruence.
Qed.

(** C10 amended, at the example directory: the snapshot is written under
    "thumbnail_index.json". *)
Lemma index_thumbnails_persists_example :
  let r := index_thumbnails Examples.tree Examples.tree_is_file Examples.unit_image
             (init Examples.old_disk Examples.root default_index_file)
             Examples.old_disk in
  snd r "thumbnail_index.json" = Some (index_data (fst r)) /\
  (forall file, file <> "thumbnail_index.json" -> snd r file = Examples.old_disk file) /\
  index_file (fst r) = "thumbnail_index.json" /\
  length (embeddings (index_data (fst r)))
    = length (thumbnails (index_data (fst r))) /\
  categories (index_data (fst r))
    = Some (sorted_set (entry_categories (thumbnails (index_data (fst r))))).
Proof.
  apply (proj1 (index_thumbnails_persists Examples.tree Examples.tree_is_file
                  Examples.unit_image
                  (init Examples.old_disk Examples.root default_index_file)
                  Examples.old_disk)).
  discriminate.
Defined.

(** C9, counterexample: for the topic "AI" and no point of view the program
    embeds "YouTube thumbnail about AI", which is not the string the
    specification's template gives. *)
Lemma search_query_differs_from_template :
  search_query "AI" None = "YouTube thumbnail about AI" /\
  Examples.spec_query "AI" None = "thumbnail about AI" /\
  search_query "AI" None <> Examples.spec_query "AI" None.
Proof.
  split; [reflexivity|]. split; [reflexivity|]. discriminate.
Qed.

(** C9, amended: the query string is "YouTube thumbnail about {topic}",
    followed by " from {pov} perspective" when a non-empty point of view is
    given; [find_similar] passes the embedding model that string and
    nothing else, so two models that agree on it give the same answer. *)
Theorem find_similar_query_string
    (encode_text encode_text' : string -> embedding)
    (cos_sim : embedding -> embedding -> Q)
    (f : finder) (topic : string) (pov : option string) (top_k : Z) :
  search_query topic pov = "YouTube thumbnail about " ++ topic ++ pov_clause pov /\
  (encode_text ("YouTube thumbnail about " ++ topic ++ pov_clause pov)
   = encode_text' ("YouTube thumbnail about " ++ topic ++ pov_clause pov) ->
   find_similar encode_text cos_sim f topic pov top_k
   = find_similar encode_text' cos_sim f topic pov top_k).
Proof.
  assert (Hq : search_query topic pov
               = "YouTube thumbnail about " ++ topic ++ pov_clause pov).
  { unfold search_query, pov_clause. destruct pov as [p|].
    - destruct (String.eqb p "").
      + rewrite StringFacts.append_nil_r. reflexivity.
      + apply StringFacts.append_assoc.
    - rewrite StringFacts.append_nil_r. reflexivity. }
  split; [exact Hq|].
  intros He. unfold find_similar. rewrite Hq, He. reflexivity.
Qed.

(** C9 amended, for two models that differ everywhere except on the query
    of the topic "AI" seen from "beginner". *)
Lemma find_similar_query_string_example :
  let other (q : string) : embedding :=
    if String.eqb q "YouTube thumbnail about AI from beginner perspective"
    then [1; 0] else [0; 1] in
  find_similar Examples.unit_text Examples.dot Examples.example_finder
    "AI" (Some "beginner") 2
  = find_similar other Examples.dot Examples.example_finder
      "AI" (Some "beginner") 2.
Proof.
  cbv zeta.
  apply (proj2 (find_similar_query_string Examples.unit_text _ Examples.dot
                  Examples.example_finder "AI" (Some "beginner") 2)).
  reflexivity.
Defined.

(** C6, counterexample: in the example scenario with unit embeddings the
    query with [top_k = 2] returns a.jpg and c.jpg; the result for a.jpg has
    no key ["category"], so it does not carry the category "Tech" of its
    entry. *)
Lemma results_carry_no_category :
  find_similar Examples.unit_text Examples.dot Examples.example_finder "AI" None 2
  = Ok [result_of Examples.entry_a 1 1; result_of Examples.entry_c (15 # 25) 2] /\
  dict_get (result_of Examples.entry_a 1 1) "category" = None /\
  dict_get (result_of Examples.entry_a 1 1) "category"
  <> Some (Examples.category_value (t_category Examples.entry_a)).
Proof.
  split; [reflexivity|]. split; [reflexivity|]. discriminate.
Qed.

(** The directory of the scenario, indexed by an image model that succeeds
    on its three image files. *)
Lemma scenario_index encode_image ea eb ec :
  encode_image Examples.a_jpg = Some ea ->
  encode_image Examples.b_png = Some eb ->
  encode_image Examples.c_jpg = Some ec ->
  index_data (fst (index_thumbnails Examples.tree Examples.tree_is_file encode_image
                     (init Examples.no_disk Examples.root default_index_file)
                     Examples.no_disk))
  = mkIndex [Examples.entry_a; Examples.entry_b; Examples.entry_c]
            [ea; eb; ec] (Some ["Tech"]).
Proof.
  intros Ha Hb Hc. unfold index_thumbnails.
  change (image_files Examples.tree Examples.tree_is_file
            (thumbnails_dir (init Examples.no_disk Examples.root default_index_file)))
    with [Examples.a_jpg; Examples.b_png; Examples.c_jpg].
  cbn [index_loop]. rewrite Ha. cbn [index_loop]. rewrite Hb.
  cbn [index_loop]. rewrite Hc. reflexivity.
Qed.

(** C6, amended: the index built from Tech/a.jpg, Tech/b.png and c.jpg has
    the three entries with categories "Tech", "Tech" and none; a query with
    [top_k = 2] returns exactly two results, for two different entries of
    the index, the first with rank 1 and the second with rank 2 and a score
    no larger than the first.  A result holds the path, the file name, the
    score and the rank of its entry, and no category: the category stays on
    the entry. *)
Theorem scenario_query
    (encode_image : path -> option embedding)
    (encode_text : string -> embedding) (cos_sim : embedding -> embedding -> Q)
    (topic : string) (pov : option string) (ea eb ec : embedding) :
  encode_image Examples.a_jpg = Some ea ->
  encode_image Examples.b_png = Some eb ->
  encode_image Examples.c_jpg = Some ec ->
  let f := fst (index_thumbnails Examples.tree Examples.tree_is_file encode_image
                  (init Examples.no_disk Examples.root default_index_file)
                  Examples.no_disk) in
  thumbnails (index_data f) = [Examples.entry_a; Examples.entry_b; Examples.entry_c] /\
  exists t1 t2 s1 s2,
    find_similar encode_text cos_sim f topic pov 2
    = Ok [result_of t1 s1 1; result_of t2 s2 2] /\
    In t1 (thumbnails (index_data f)) /\
    In t2 (thumbnails (index_data f)) /\
    t1 <> t2 /\
    s2 <= s1 /\
    dict_keys (result_of t1 s1 1) = ["path"; "filename"; "similarity_score"; "rank"] /\
    dict_keys (result_of t2 s2 2) = ["path"; "filename"; "similarity_score"; "rank"].
Proof.
  intros Ha Hb Hc f.
  assert (Hix : index_data f
                = mkIndex [Examples.entry_a; Examples.entry_b; Examples.entry_c]
                          [ea; eb; ec] (Some ["Tech"]))
    by (apply scenario_index; assumption).
  split; [rewrite Hix; reflexivity|].
  destruct (find_similar_ok encode_text cos_sim f topic pov 2)
    as (top & rs & Hq & Hlen & Hlr & Hsorted & Hnd & _ & Hr);
    [rewrite Hix; discriminate | rewrite Hix; reflexivity | lia |].
  rewrite Hix in Hlen, Hr. simpl in Hlen, Hr.
  destruct rs as [|r1 [|r2 [|r3 rs]]]; try discriminate Hlen.
  destruct top as [|p1 [|p2 [|p3 top]]]; try discriminate Hlr.
  destruct (Hr 0%nat r1 eq_refl) as (i1 & q1 & t1 & Hp1 & Ht1 & Hr1).
  destruct (Hr 1%nat r2 eq_refl) as (i2 & q2 & t2 & Hp2 & Ht2 & Hr2).
  simpl in Hp1, Hp2. inversion Hp1; subst p1. inversion Hp2; subst p2.
  exists t1, t2, q1, q2. rewrite Hq, Hix. simpl in Hr1, Hr2. subst r1 r2.
  split; [reflexivity|].
  split; [eapply nth_error_In, Ht1|]. split; [eapply nth_error_In, Ht2|].
  split.
  - intros Heq. subst t2. simpl in Hnd.
    inversion Hnd as [|x l Hx _]; subst. apply Hx. left.
    destruct i1 as [|[|[|i1]]]; destruct i2 as [|[|[|i2]]];
      simpl in Ht1, Ht2; try reflexivity;
      try (destruct i1; discriminate); try (destruct i2; discriminate);
      unfold Examples.entry_a, Examples.entry_b, Examples.entry_c in *;
      congruence.
  - split; [|split; reflexivity].
    inversion Hsorted as [|x l _ Hall]; subst.
    inversion Hall; subst. assumption.
Qed.

(** C6 amended, with the unit embeddings. *)
Lemma scenario_query_example :
  let f := Examples.example_finder in
  thumbnails (index_data f) = [Examples.entry_a; Examples.entry_b; Examples.entry_c] /\
  exists t1 t2 s1 s2,
    find_similar Examples.unit_text Examples.dot f "AI" None 2
    = Ok [result_of t1 s1 1; result_of t2 s2 2] /\
    In t1 (thumbnails (index_data f)) /\
    In t2 (thumbnails (index_data f)) /\
    t1 <> t2 /\
    s2 <= s1 /\
    dict_keys (result_of t1 s1 1) = ["path"; "filename"; "similarity_score"; "rank"] /\
    dict_keys (result_of t2 s2 2) = ["path"; "filename"; "similarity_score"; "rank"].
Proof.
  apply (scenario_query Examples.unit_image Examples.unit_text Examples.dot
           "AI" None [1; 0] [0; 1] [3 # 5; 4 # 5]); reflexivity.
Defined.

End FinderFacts.

(** ** Properties of [image_generator.py] *)

Module GeneratorFacts.

Import Generator GeneratorNotions.
Local Open Scope py_scope.

(** *** Computations only add events *)

Section Emits.

Context {Q : event -> Prop}.

Lemma emits_ret {A} (a : A) : emits Q (ret a).
Proof.
  intros t. exists []. rewrite app_nil_r. split; [reflexivity|constructor].
Qed.

Lemma emits_raise {A} (e : exc) : emits Q (@raise A e).
Proof.
  intros t. exists []. rewrite app_nil_r. split; [reflexivity|constructor].
Qed.

Lemma emits_lift {A} (r : res A) : emits Q (lift r).
Proof.
  intros t. exists []. rewrite app_nil_r. split; [reflexivity|constructor].
Qed.

Lemma emits_emit {A} (ev : event) (reply : nat -> res A) :
  Q ev -> emits Q (emit ev reply).
Proof.
  intros H t. exists [ev]. split; [reflexivity|]. constructor; [exact H|constructor].
Qed.

Lemma emits_bind {A B} (m : M A) (k : A -> M B) :
  emits Q m -> (forall a, emits Q (k a)) -> emits Q (bind m k).
Proof.
  intros Hm Hk t. destruct (Hm t) as (a1 & E1 & F1). unfold bind.
  destruct (m t) as [[a|e] t1]; simpl in E1; subst t1.
  - destruct (Hk a (t ++ a1)%list) as (a2 & E2 & F2).
    exists (a1 ++ a2)%list. rewrite E2, app_assoc.
    split; [reflexivity|]. apply Forall_app. split; assumption.
  - exists a1. split; [reflexivity|assumption].
Qed.

Lemma emits_try {A} (m : M A) (catches : exc -> bool) (h : exc -> M A) :
  emits Q m -> (forall e, emits Q (h e)) -> emits Q (try_except m catches h).
Proof.
  intros Hm Hh t. destruct (Hm t) as (a1 & E1 & F1). unfold try_except.
  destruct (m t) as [[a|e] t1]; simpl in E1; subst t1.
  - exists a1. split; [reflexivity|assumption].
  - destruct (catches e).
    + destruct (Hh e (t ++ a1)%list) as (a2 & E2 & F2).
      exists (a1 ++ a2)%list. rewrite E2, app_assoc.
      split; [reflexivity|]. apply Forall_app. split; assumption.
    + exists a1. split; [reflexivity|assumption].
Qed.

End Emits.

Lemma emits_weaken {A} (Q Q' : event -> Prop) (m : M A) :
  (forall ev, Q ev -> Q' ev) -> emits Q m -> emits Q' m.
Proof.
  intros H Hm t. destruct (Hm t) as (added & E & F).
  exists added. split; [exact E|]. eapply Forall_impl; eauto.
Qed.

Create HintDb emits discriminated.
#[local] Hint Constants Opaque : emits.

(** One step along the syntax of a computation. *)
Ltac emits_step :=
  lazymatch goal with
  | |- emits _ (ret _) => apply emits_ret
  | |- emits _ (raise _) => apply emits_raise
  | |- emits _ (lift _) => apply emits_lift
  | |- emits _ (bind _ _) => apply emits_bind; [|intro]
  | |- emits _ (try_except _ _ _) => apply emits_try; [|intro]
  | |- emits _ (emit _ _) => apply emits_emit
  | |- emits _ (if ?b then _ else _) => destruct b
  | |- emits _ (match ?x with _ => _ end) => destruct x
  | |- emits _ _ => solve [auto with emits]
  end.

Ltac emits_auto := repeat emits_step; auto with emits.

(** The helpers that talk to the network and the disk. *)
Section Plumbing.

Variable w : env.
Variable Q : event -> Prop.
Hypothesis Q_get : forall url, Q (EvGet url).
Hypothesis Q_write : forall path data, Q (EvWrite path data).

Lemma emits_save path data : emits Q (save w path data).
Proof. unfold save. emits_auto. Qed.

Lemma emits_get url : emits Q (get w url).
Proof. unfold get. emits_auto. Qed.

Hint Resolve emits_save emits_get : emits.

Lemma emits_download url output_path : emits Q (download w url output_path).
Proof. unfold download. emits_auto. Qed.

Lemma emits_decode_to v output_path : emits Q (decode_to w v output_path).
Proof. unfold decode_to. emits_auto. Qed.

Hint Resolve emits_download emits_decode_to : emits.

Lemma emits_extract result output_path :
  emits Q (_extract_freepik_image w result output_path).
Proof. unfold _extract_freepik_image. emits_auto. Qed.

End Plumbing.

#[local] Hint Resolve emits_save emits_get emits_download emits_decode_to
  emits_extract : emits.

(** *** Polling *)

Lemma not_sleep_get url : not_sleep (EvGet url).
Proof. reflexivity. Qed.

Lemma not_sleep_write path data : not_sleep (EvWrite path data).
Proof. reflexivity. Qed.

#[local] Hint Resolve not_sleep_get not_sleep_write : emits.

Section Tails.

Variable w : env.

Lemma silent_lift {A} (r : res A) : silent (lift r).
Proof. intros t. reflexivity. Qed.

Lemma silent_ret {A} (a : A) : silent (ret a).
Proof. intros t. reflexivity. Qed.

Lemma silent_raise {A} (e : exc) : silent (@raise A e).
Proof. intros t. reflexivity. Qed.

Lemma tail_raise {A} (e : exc) : tail_like (@raise (option A) e).
Proof.
  intros t. exists []. rewrite app_nil_r. split; [reflexivity|constructor].
Qed.

Lemma tail_silent_bind {A B} (m : M B) (k : B -> M (option A)) :
  silent m -> (forall b, tail_like (k b)) -> tail_like (bind m k).
Proof.
  intros Hm Hk t. unfold bind. specialize (Hm t).
  destruct (m t) as [[b|e] t1]; simpl in Hm; subst t1.
  - apply Hk.
  - exists []. rewrite app_nil_r. split; [reflexivity|constructor].
Qed.

Lemma tail_pause {A} : tail_like (sleep 2 ;;; ret (@None A)).
Proof.
  intros t. exists [EvSleep 2]. split; reflexivity.
Qed.

Lemma tail_some {A} (m : M A) :
  emits not_sleep m -> tail_like (p <- m ;; ret (Some p)).
Proof.
  intros Hm t. destruct (Hm t) as (added & E & F). exists added.
  unfold bind. destruct (m t) as [[a|e] t1]; simpl in *; subst t1;
    split; auto.
Qed.

Lemma attempt_from_tail {A} url (k : http_response -> M (option A)) :
  (forall r, tail_like (k r)) -> attempt_like url (r <- get w url ;; k r).
Proof.
  intros Hk t. unfold bind, get, emit.
  destruct (requests_get w (List.length t) url) as [r|e].
  - destruct (Hk r (t ++ [EvGet url])%list) as (seg & E & F).
    exists seg. rewrite <- app_assoc in E. split; [exact E|exact F].
  - exists []. split; [reflexivity|constructor].
Qed.

End Tails.

(** One step along the syntax of the tail of a polling attempt. *)
Ltac tail_step :=
  lazymatch goal with
  | |- tail_like (raise _) => apply tail_raise
  | |- tail_like (bind (sleep 2) (fun _ => ret None)) => apply tail_pause
  | |- tail_like (bind (lift _) _) =>
      apply tail_silent_bind; [apply silent_lift|intro]
  | |- tail_like (bind _ (fun p => ret (Some p))) =>
      apply tail_some; auto with emits
  | |- tail_like (bind (match ?x with _ => _ end) _) => destruct x
  | |- tail_like (bind (ret _) _) =>
      apply tail_silent_bind; [apply silent_ret|intro]
  | |- tail_like (bind (raise _) _) =>
      apply tail_silent_bind; [apply silent_raise|intro]
  | |- tail_like (if ?b then _ else _) => destruct b
  | |- tail_like (match ?x with _ => _ end) => destruct x
  end.

Section Polling.

Variable w : env.

Lemma poll_job_attempt_like url output_path :
  attempt_like url (poll_job_attempt w url output_path).
Proof.
  unfold poll_job_attempt. apply attempt_from_tail. intro r.
  repeat tail_step.
Qed.

Lemma poll_task_attempt_like url output_path :
  attempt_like url (poll_task_attempt w url output_path).
Proof.
  unfold poll_task_attempt. apply attempt_from_tail. intro r.
  repeat tail_step.
Qed.

Lemma replicate_poll_attempt_like url output_path :
  attempt_like url (replicate_poll_attempt w url output_path).
Proof.
  unfold replicate_poll_attempt. apply attempt_from_tail. intro r.
  repeat tail_step.
Qed.

Lemma app_paused (t : trace) url seg added :
  (((t ++ EvGet url :: seg) ++ [EvSleep 2]) ++ added
   = t ++ (EvGet url :: seg ++ [EvSleep 2]) ++ added)%list.
Proof.
  repeat (rewrite <- app_assoc; simpl). reflexivity.
Qed.

(** One turn of the polling loop of [_poll_freepik_job]. *)
Lemma poll_job_loop_step n a url output_path t :
  poll_job_loop w (S n) a url output_path t =
  match poll_job_attempt w url output_path t with
  | (Ok (Some p), t1) => (Ok p, t1)
  | (Ok None, t1) => poll_job_loop w n (S a) url output_path t1
  | (Raise e, t1) =>
      if is_request_exception e then
        if (a =? max_attempts - 1)%nat then (Raise e, t1)
        else poll_job_loop w n (S a) url output_path (t1 ++ [EvSleep 2])%list
      else (Raise e, t1)
  end.
Proof.
  cbn [poll_job_loop]. unfold bind at 1. unfold try_except.
  destruct (poll_job_attempt w url output_path t) as [[[p|]|e] t1];
    try reflexivity.
  destruct (is_request_exception e); [|reflexivity].
  destruct (a =? max_attempts - 1)%nat; reflexivity.
Qed.

Lemma poll_task_loop_step n a url output_path t :
  poll_task_loop w (S n) a url output_path t =
  match poll_task_attempt w url output_path t with
  | (Ok (Some p), t1) => (Ok p, t1)
  | (Ok None, t1) => poll_task_loop w n (S a) url output_path t1
  | (Raise e, t1) =>
      if is_request_exception e then
        if (a =? max_attempts - 1)%nat then (Raise e, t1)
        else poll_task_loop w n (S a) url output_path (t1 ++ [EvSleep 2])%list
      else (Raise e, t1)
  end.
Proof.
  cbn [poll_task_loop]. unfold bind at 1. unfold try_except.
  destruct (poll_task_attempt w url output_path t) as [[[p|]|e] t1];
    try reflexivity.
  destruct (is_request_exception e); [|reflexivity].
  destruct (a =? max_attempts - 1)%nat; reflexivity.
Qed.

Lemma replicate_poll_loop_step n url output_path t :
  replicate_poll_loop w (S n) url output_path t =
  match replicate_poll_attempt w url output_path t with
  | (Ok (Some p), t1) => (Ok p, t1)
  | (Ok None, t1) => replicate_poll_loop w n url output_path t1
  | (Raise e, t1) => (Raise e, t1)
  end.
Proof.
  cbn [replicate_poll_loop]. unfold bind at 1.
  destruct (replicate_poll_attempt w url output_path t) as [[[p|]|e] t1];
    reflexivity.
Qed.

(** The polling loops make at most [remaining] attempts, pausing two
    seconds after each attempt that does not end the loop. *)
Lemma poll_job_loop_polled url output_path : forall remaining a t,
  exists added,
    snd (poll_job_loop w remaining a url output_path t) = (t ++ added)%list /\
    polled url remaining added
      (fst (poll_job_loop w remaining a url output_path t)).
Proof.
  induction remaining as [|n IH]; intros a t.
  - exists []. rewrite app_nil_r. split; [reflexivity|constructor].
  - rewrite poll_job_loop_step.
    destruct (poll_job_attempt_like url output_path t) as (seg & E & F).
    destruct (poll_job_attempt w url output_path t) as [[[p|]|e] t1];
      simpl in E, F; subst t1.
    + exists (EvGet url :: seg). split; [reflexivity|].
      apply polled_last. constructor. exact F.
    + subst seg.
      destruct (IH (S a) (t ++ [EvGet url; EvSleep 2])%list) as (added & E & P).
      exists ([EvGet url; EvSleep 2] ++ added)%list.
      rewrite app_assoc. split; [exact E|].
      apply polled_more; [|exact P].
      apply (attempt_paused url []). constructor.
    + destruct (is_request_exception e).
      * destruct (a =? max_attempts - 1)%nat.
        -- exists (EvGet url :: seg). split; [reflexivity|].
           apply polled_last. constructor. exact F.
        -- destruct (IH (S a) ((t ++ EvGet url :: seg) ++ [EvSleep 2])%list)
             as (added & E & P).
           exists ((EvGet url :: seg ++ [EvSleep 2]) ++ added)%list.
           rewrite <- app_paused. split; [exact E|].
           apply polled_more; [|exact P]. constructor. exact F.
      * exists (EvGet url :: seg). split; [reflexivity|].
        apply polled_last. constructor. exact F.
Qed.

Lemma poll_task_loop_polled url output_path : forall remaining a t,
  exists added,
    snd (poll_task_loop w remaining a url output_path t) = (t ++ added)%list /\
    polled url remaining added
      (fst (poll_task_loop w remaining a url output_path t)).
Proof.
  induction remaining as [|n IH]; intros a t.
  - exists []. rewrite app_nil_r. split; [reflexivity|constructor].
  - rewrite poll_task_loop_step.
    destruct (poll_task_attempt_like url output_path t) as (seg & E & F).
    destruct (poll_task_attempt w url output_path t) as [[[p|]|e] t1];
      simpl in E, F; subst t1.
    + exists (EvGet url :: seg). split; [reflexivity|].
      apply polled_last. constructor. exact F.
    + subst seg.
      destruct (IH (S a) (t ++ [EvGet url; EvSleep 2])%list) as (added & E & P).
      exists ([EvGet url; EvSleep 2] ++ added)%list.
      rewrite app_assoc. split; [exact E|].
      apply polled_more; [|exact P].
      apply (attempt_paused url []). constructor.
    + destruct (is_request_exception e).
      * destruct (a =? max_attempts - 1)%nat.
        -- exists (EvGet url :: seg). split; [reflexivity|].
           apply polled_last. constructor. exact F.
        -- destruct (IH (S a) ((t ++ EvGet url :: seg) ++ [EvSleep 2])%list)
             as (added & E & P).
           exists ((EvGet url :: seg ++ [EvSleep 2]) ++ added)%list.
           rewrite <- app_paused. split; [exact E|].
           apply polled_more; [|exact P]. constructor. exact F.
      * exists (EvGet url :: seg). split; [reflexivity|].
        apply polled_last. constructor. exact F.
Qed.

Lemma replicate_poll_loop_polled url output_path : forall remaining t,
  exists added,
    snd (replicate_poll_loop w remaining url output_path t) = (t ++ added)%list /\
    polled url remaining added
      (fst (replicate_poll_loop w remaining url output_path t)).
Proof.
  induction remaining as [|n IH]; intros t.
  - exists []. rewrite app_nil_r. split; [reflexivity|constructor].
  - rewrite replicate_poll_loop_step.
    destruct (replicate_poll_attempt_like url output_path t) as (seg & E & F).
    destruct (replicate_poll_attempt w url output_path t) as [[[p|]|e] t1];
      simpl in E, F; subst t1.
    + exists (EvGet url :: seg). split; [reflexivity|].
      apply polled_last. constructor. exact F.
    + subst seg.
      destruct (IH (t ++ [EvGet url; EvSleep 2])%list) as (added & E & P).
      exists ([EvGet url; EvSleep 2] ++ added)%list.
      rewrite app_assoc. split; [exact E|].
      apply polled_more; [|exact P].
      apply (attempt_paused url []). constructor.
    + exists (EvGet url :: seg). split; [reflexivity|].
      apply polled_last. constructor. exact F.
Qed.

Lemma pauses_not_sleep seg : Forall not_sleep seg -> pauses seg = [].
Proof.
  induction 1 as [|ev seg H _ IH]; [reflexivity|].
  unfold pauses in *. simpl. rewrite IH.
  destruct ev; try reflexivity. discriminate H.
Qed.

Lemma pauses_app (a b : trace) :
  pauses (a ++ b)%list = (pauses a ++ pauses b)%list.
Proof. unfold pauses. apply flat_map_app. Qed.

Lemma attempt_pauses url paused seg :
  attempt url paused seg -> pauses seg = if paused then [2%Z] else [].
Proof.
  intros [s H|s H].
  - change (EvGet url :: s ++ [EvSleep 2])%list
      with ([EvGet url] ++ s ++ [EvSleep 2])%list.
    rewrite !pauses_app, (pauses_not_sleep s H). reflexivity.
  - change (EvGet url :: s) with ([EvGet url] ++ s)%list.
    rewrite pauses_app, (pauses_not_sleep s H). reflexivity.
Qed.

(** A polling trace has at most as many pauses as attempts, and every pause
    lasts two seconds. *)
Lemma polled_pauses url n added r :
  polled url n added r ->
  (List.length (pauses added) <= n)%nat /\ Forall (fun s => s = 2%Z) (pauses added).
Proof.
  induction 1 as [|n seg r Ha|n seg rest r Ha _ [IHl IHf]].
  - split; [apply Nat.le_refl|constructor].
  - rewrite (attempt_pauses _ _ _ Ha). split; [apply Nat.le_0_l|constructor].
  - rewrite pauses_app, (attempt_pauses _ _ _ Ha). simpl.
    split; [lia|constructor; [reflexivity|exact IHf]].
Qed.

(** When every attempt allowed has paused, the loop has timed out. *)
Lemma polled_exhausted url n added r :
  polled url n added r ->
  List.length (pauses added) = n -> r = Raise timed_out.
Proof.
  induction 1 as [|n seg r Ha|n seg rest r Ha _ IH]; intros Hn.
  - reflexivity.
  - rewrite (attempt_pauses _ _ _ Ha) in Hn. discriminate Hn.
  - rewrite pauses_app, (attempt_pauses _ _ _ Ha) in Hn. simpl in Hn.
    apply IH. lia.
Qed.

Lemma polled_bounded url t r :
  (exists added, snd r = (t ++ added)%list /\ polled url 60 added (fst r)) ->
  bounded_polling url t r.
Proof.
  intros (added & E & P). exists added.
  destruct (polled_pauses _ _ _ _ P) as [Hl Hf].
  repeat split; auto. apply (polled_exhausted _ _ _ _ P).
Qed.

(** A status reply that reports a failure ends the polling at once. *)
Lemma poll_job_attempt_failure url output_path t msg :
  freepik_reports_failure w (requests_get w (List.length t) url) msg ->
  poll_job_attempt w url output_path t
  = (Raise (reported_failure msg), (t ++ [EvGet url])%list).
Proof.
  intros (r & f & status & Hr & Hs & Hj & Hl & Hst & ->).
  unfold poll_job_attempt, get, emit, bind, lift. rewrite Hr, Hs, Hj.
  cbn [py_get]. rewrite Hl. cbn [py_lower].
  destruct Hst as [-> | ->]; cbn [String.eqb Ascii.eqb Bool.eqb orb];
    destruct (lookup f "message"); destruct (lookup f "error"); reflexivity.
Qed.

Lemma poll_task_attempt_failure url output_path t msg :
  freepik_reports_failure w (requests_get w (List.length t) url) msg ->
  poll_task_attempt w url output_path t
  = (Raise (reported_failure msg), (t ++ [EvGet url])%list).
Proof.
  intros (r & f & status & Hr & Hs & Hj & Hl & Hst & ->).
  unfold poll_task_attempt, get, emit, bind, lift. rewrite Hr, Hs, Hj.
  cbn [py_get]. rewrite Hl. cbn [py_lower].
  destruct Hst as [-> | ->]; cbn [String.eqb Ascii.eqb Bool.eqb orb];
    destruct (lookup f "message"); destruct (lookup f "error"); reflexivity.
Qed.

Lemma replicate_poll_attempt_failure url output_path t msg :
  replicate_reports_failure w (requests_get w (List.length t) url) msg ->
  replicate_poll_attempt w url output_path t
  = (Raise (reported_failure msg), (t ++ [EvGet url])%list).
Proof.
  intros (r & f & Hr & Hs & Hj & Hl & ->).
  unfold replicate_poll_attempt, get, emit, bind, lift. rewrite Hr, Hs, Hj.
  cbn [py_item]. rewrite Hl. cbn [is_str String.eqb Ascii.eqb Bool.eqb py_get].
  destruct (lookup f "error"); reflexivity.
Qed.

End Polling.



(** In the world where the job stays "processing" the loops time out after
    60 status requests and 60 pauses of two seconds. *)
Lemma pending_job_times_out :
  let url := "https://api.freepik.com/v1/ai/text-to-image/job-1" in
  _poll_freepik_job Stubs.pending (JStr "job-1") "out.png" []
  = (Raise timed_out, concat (repeat [EvGet url; EvSleep 2] 60)).
Proof. vm_compute. reflexivity. Qed.

(** *** The reference argument *)

(** After validation an invalid reference is [None], or a false value the
    methods never look into. *)
Lemma validate_invalid w r :
  invalid_reference w r ->
  validate_reference w r = RNone
  \/ validate_reference w r = ROther false
  \/ validate_reference w r = RStr "".
Proof.
  intros H. destruct r as [|s|[|]]; simpl; auto.
  unfold validate_reference. simpl.
  destruct (String.eqb_spec s "") as [->|Hs]; simpl; [auto|].
  destruct (all_space s); [auto|].
  destruct (H s eq_refl) as [->|Hp]; [congruence|].
  rewrite Hp. auto.
Qed.

(** A reference that passes validation is a string that is not blank and
    names a file. *)
Lemma validate_truthy w r :
  ref_truthy (validate_reference w r) = true ->
  exists p, validate_reference w r = RStr p /\ r = RStr p
            /\ all_space p = false /\ path_exists w p = true.
Proof.
  unfold validate_reference.
  destruct r as [|s|[|]]; simpl; try discriminate.
  destruct (String.eqb s "") eqn:E; simpl; [rewrite E; discriminate|].
  destruct (all_space s) eqn:Ea; simpl; [discriminate|].
  destruct (path_exists w s) eqn:Ep; simpl; [|discriminate].
  intros _. exists s. auto.
Qed.

Lemma validate_valid w p :
  all_space p = false -> path_exists w p = true ->
  validate_reference w (RStr p) = RStr p /\ ref_truthy (RStr p) = true
  /\ ref_usable (RStr p) = Some p.
Proof.
  intros Ha Hp. unfold validate_reference, ref_usable, ref_truthy.
  destruct (String.eqb_spec p "") as [->|Hn]; [discriminate Ha|].
  cbn [negb andb]. rewrite Ha, Hp. auto.
Qed.

(** C3: for every provider, prompt and output path, [generate] with a
    reference that is not a non-empty string, or that names no file, is the
    same computation as [generate] without reference: the same calls with
    the same prompts in the same order, and the same result.  In particular
    such a reference causes no error of its own. *)
Theorem invalid_reference_is_no_reference
    (w : env) (self : generator) (prompt output_path : string) (r : pyref)
    (t : trace) :
  invalid_reference w r ->
  generate w self prompt output_path r t
  = generate w self prompt output_path RNone t.
Proof.
  intros H. unfold generate.
  destruct (String.eqb (service self) "freepik").
  { unfold generate_freepik.
    destruct (validate_invalid w r H) as [E|[E|E]]; rewrite E; reflexivity. }
  destruct (String.eqb (service self) "dalle").
  { unfold generate_dalle, dalle_enhanced_prompt.
    destruct (validate_invalid w r H) as [E|[E|E]]; rewrite E; reflexivity. }
  destruct (String.eqb (service self) "gemini").
  { unfold generate_gemini. cbn [generate_gemini_fuel].
    unfold generate_gemini_body at 1 3.
    destruct (validate_invalid w r H) as [E|[E|E]]; rewrite E; reflexivity. }
  destruct (String.eqb (service self) "replicate").
  { unfold generate_replicate.
    destruct (validate_invalid w r H) as [E|[E|E]]; rewrite E; reflexivity. }
  destruct (String.eqb (service self) "fal"); [|reflexivity].
  unfold generate_fal.
  destruct (validate_invalid w r H) as [E|[E|E]]; rewrite E; reflexivity.
Qed.

(** C3 for a path that names no file, with the DALL-E provider. *)
Lemma invalid_reference_is_no_reference_example :
  generate Stubs.working Stubs.dalle "a cat" "out.png" (RStr "missing.png") []
  = generate Stubs.working Stubs.dalle "a cat" "out.png" RNone [].
Proof.
  apply invalid_reference_is_no_reference.
  intros s Hs. inversion Hs. right. reflexivity.
Defined.

(** *** The events of each provider *)

(** For a property [Q] of events that holds of every download, write and
    pause, each method adds only events with [Q] as soon as the requests
    that carry its prompt have [Q]. *)
Section Providers.

Variable w : env.
Variable Q : event -> Prop.
Hypothesis Q_get : forall url, Q (EvGet url).
Hypothesis Q_write : forall path data, Q (EvWrite path data).
Hypothesis Q_sleep : forall seconds, Q (EvSleep seconds).

Lemma emits_sleep seconds : emits Q (sleep seconds).
Proof. unfold sleep. emits_auto. Qed.

Hint Resolve emits_sleep : emits.

Lemma emits_poll_job_loop url output_path : forall remaining a,
  emits Q (poll_job_loop w remaining a url output_path).
Proof.
  induction remaining as [|n IH]; intros a; cbn [poll_job_loop];
    [emits_auto|].
  unfold poll_job_attempt. emits_auto.
Qed.

Lemma emits_poll_task_loop url output_path : forall remaining a,
  emits Q (poll_task_loop w remaining a url output_path).
Proof.
  induction remaining as [|n IH]; intros a; cbn [poll_task_loop];
    [emits_auto|].
  unfold poll_task_attempt. emits_auto.
Qed.

Lemma emits_replicate_poll_loop url output_path : forall remaining,
  emits Q (replicate_poll_loop w remaining url output_path).
Proof.
  induction remaining as [|n IH]; cbn [replicate_poll_loop]; [emits_auto|].
  unfold replicate_poll_attempt. emits_auto.
Qed.

Lemma emits_poll_job job_id output_path :
  emits Q (_poll_freepik_job w job_id output_path).
Proof. unfold _poll_freepik_job. apply emits_poll_job_loop. Qed.

Lemma emits_poll_task task_id output_path :
  emits Q (_poll_freepik_task w task_id output_path).
Proof. unfold _poll_freepik_task. apply emits_poll_task_loop. Qed.

Hint Resolve emits_poll_job emits_poll_task emits_replicate_poll_loop : emits.

Lemma emits_freepik_alternative result output_path :
  emits Q (freepik_alternative w result output_path).
Proof. unfold freepik_alternative. emits_auto. Qed.

Hint Resolve emits_freepik_alternative : emits.

Lemma emits_freepik_text prompt output_path :
  Q (EvPost "https://api.freepik.com/v1/ai/text-to-image"
       (freepik_text_payload (freepik_text_prompt prompt))) ->
  emits Q (freepik_text_to_image w prompt output_path).
Proof. intros H. unfold freepik_text_to_image, post. emits_auto. Qed.

Lemma emits_freepik_reference_loop output_path : forall endpoints,
  Forall (fun ep => Q (EvPost (fst ep) (snd ep))) endpoints ->
  emits Q (freepik_reference_loop w endpoints output_path).
Proof.
  induction endpoints as [|[url payload] rest IH]; intros H;
    cbn [freepik_reference_loop]; [emits_auto|].
  inversion H as [|x l Hx Hl]; subst. simpl in Hx.
  unfold post. emits_auto.
Qed.

Lemma emits_freepik_with_reference prompt output_path ref :
  (forall image,
     Forall (fun ep => Q (EvPost (fst ep) (snd ep)))
       (freepik_reference_endpoints image (freepik_reference_prompt prompt))) ->
  emits Q (_freepik_with_reference w prompt output_path ref).
Proof.
  intros H. unfold _freepik_with_reference. emits_step; [emits_auto|].
  apply emits_freepik_reference_loop, H.
Qed.

Lemma emits_generate_freepik prompt output_path ref :
  Q (EvPost "https://api.freepik.com/v1/ai/text-to-image"
       (freepik_text_payload (freepik_text_prompt prompt))) ->
  (forall image,
     Forall (fun ep => Q (EvPost (fst ep) (snd ep)))
       (freepik_reference_endpoints image (freepik_reference_prompt prompt))) ->
  emits Q (generate_freepik w prompt output_path ref).
Proof.
  intros Ht Hr. unfold generate_freepik.
  destruct (ref_truthy (validate_reference w ref)).
  - apply emits_try; [apply emits_freepik_with_reference, Hr|intro; emits_auto].
  - apply emits_freepik_text, Ht.
Qed.

Lemma emits_replicate_loop output_path : forall models last_error,
  Forall (fun m => Q (EvPost replicate_url (replicate_payload m))) models ->
  emits Q (replicate_loop w models output_path last_error).
Proof.
  induction models as [|m rest IH]; intros last_error H;
    cbn [replicate_loop]; [emits_auto|].
  inversion H as [|x l Hx Hl]; subst. unfold replicate_payload in Hx.
  apply emits_try.
  - unfold replicate_attempt, post. emits_auto.
  - intros e. destruct rest; [emits_auto|]. apply IH, Hl.
Qed.

Lemma emits_generate_replicate prompt output_path ref :
  (forall image_input,
     Forall (fun m => Q (EvPost replicate_url (replicate_payload m)))
       (replicate_models (replicate_prompt prompt) image_input)) ->
  emits Q (generate_replicate w prompt output_path ref).
Proof.
  intros H. unfold generate_replicate. emits_step; [emits_auto|].
  apply emits_replicate_loop, H.
Qed.

Lemma emits_generate_dalle prompt output_path ref :
  (forall model instruction image, Q (EvChat model instruction image)) ->
  Q (EvImages "dall-e-3" (take 4000 (dalle_text_prompt prompt))) ->
  (forall description,
     Q (EvImages "dall-e-3" (take 4000 (dalle_context_prompt description prompt)))) ->
  emits Q (generate_dalle w prompt output_path ref).
Proof.
  intros Hc Ht Hd. unfold generate_dalle.
  assert (Hp : forall t, exists added,
             snd (dalle_enhanced_prompt w prompt (validate_reference w ref) t)
               = (t ++ added)%list /\ Forall Q added /\
             match fst (dalle_enhanced_prompt w prompt (validate_reference w ref) t) with
             | Ok s => s = dalle_text_prompt prompt
                       \/ exists d, s = dalle_context_prompt d prompt
             | Raise _ => False
             end).
  { intros t. unfold dalle_enhanced_prompt.
    destruct (ref_truthy (validate_reference w ref));
      [|exists []; rewrite app_nil_r; simpl; auto].
    unfold try_except, bind, lift, emit, ret.
    destruct (open_rb w (validate_reference w ref)) as [bytes|e];
      [|exists []; rewrite app_nil_r; simpl; auto].
    destruct (chat_completions w (List.length t) "gpt-4o" vision_instruction
                (data_url (b64encode w bytes))) as [d|e]; simpl;
      eexists; (split; [reflexivity|]); split; eauto. }
  intros t. destruct (Hp t) as (a1 & E1 & F1 & S1). unfold bind at 1.
  destruct (dalle_enhanced_prompt w prompt (validate_reference w ref) t)
    as [[s|e] t1]; simpl in E1, S1; [|contradiction]. subst t1.
  assert (Hk : emits Q
            (image_url <- emit (EvImages "dall-e-3" (take 4000 s))
                            (fun n => images_generate w n "dall-e-3" (take 4000 s)) ;;
             download w (JStr (opt_str image_url)) output_path)).
  { destruct S1 as [->|[d ->]];
      (apply emits_bind; [apply emits_emit|intro; auto with emits]);
      [exact Ht|exact (Hd d)]. }
  destruct (Hk (t ++ a1)%list) as (a2 & E2 & F2).
  exists (a1 ++ a2)%list. rewrite E2, app_assoc.
  split; [reflexivity|]. apply Forall_app. auto.
Qed.

Lemma emits_generate_fal prompt output_path ref :
  (forall image_url,
     Q (EvFal fal_application (fal_arguments (fal_prompt prompt) image_url))) ->
  emits Q (generate_fal w prompt output_path ref).
Proof. intros H. unfold generate_fal. emits_auto. Qed.

Variable key : string.

Lemma emits_sdk_attempt m e output_path ref :
  gemini_requests w Q e ref ->
  emits Q (sdk_attempt w m e output_path ref).
Proof.
  intros (Ht & He & _).
  unfold sdk_attempt, sdk_request, sdk_call. emits_auto.
Qed.

Lemma emits_sdk_loop e output_path ref : forall models,
  gemini_requests w Q e ref ->
  emits Q (sdk_loop w models e output_path ref).
Proof.
  intros models H.
  induction models as [|m rest IH]; cbn [sdk_loop]; [emits_auto|].
  apply emits_bind.
  - apply emits_try; [apply emits_sdk_attempt, H|intro; emits_auto].
  - intros [p|]; emits_auto.
Qed.

Lemma emits_rest_loop e output_path ref : forall endpoints last_error,
  gemini_requests w Q e ref ->
  emits Q (rest_loop w key endpoints e output_path ref last_error).
Proof.
  intros endpoints last_error (_ & _ & Hp). revert last_error.
  induction endpoints as [|ep rest IH]; intros last_error;
    cbn [rest_loop]; [emits_auto|].
  unfold rest_attempt, post. emits_auto.
Qed.

Lemma emits_gemini_candidates e output_path ref :
  gemini_requests w Q e ref ->
  emits Q (gemini_candidates w key e output_path ref).
Proof.
  intros H. unfold gemini_candidates.
  apply emits_bind; [apply emits_sdk_loop, H|].
  intros [p|]; [emits_auto|]. apply emits_rest_loop, H.
Qed.

Lemma emits_generate_gemini prompt output_path ref :
  gemini_requests w Q (gemini_enhanced_prompt prompt) (validate_reference w ref) ->
  gemini_requests w Q (gemini_enhanced_prompt (gemini_enhanced_prompt prompt))
    RNone ->
  emits Q (generate_gemini w key prompt output_path ref).
Proof.
  intros H1 H2. unfold generate_gemini. cbn [generate_gemini_fuel].
  unfold generate_gemini_body at 1.
  apply emits_bind; [apply emits_gemini_candidates, H1|].
  intros [p|last]; [emits_auto|].
  destruct (ref_truthy (validate_reference w ref)); [|emits_auto].
  unfold generate_gemini_body.
  apply emits_bind; [apply emits_gemini_candidates, H2|].
  intros [p|last']; emits_auto.
Qed.

End Providers.

(** *** The style templates *)

Ltac styled_closed :=
  split; [vm_compute; reflexivity|];
  split; [vm_compute; reflexivity|];
  intros Hs; first [discriminate Hs | vm_compute; reflexivity].

Lemma styled_gemini prompt :
  styled "gemini" prompt (gemini_enhanced_prompt prompt).
Proof.
  exists "Create a professional YouTube thumbnail (16:9 aspect ratio): ".
  eexists. split; [left; unfold gemini_enhanced_prompt; reflexivity|].
  styled_closed.
Qed.

Lemma styled_gemini_edit prompt :
  styled "gemini" prompt (edit_prompt (gemini_enhanced_prompt prompt)).
Proof.
  exists "Edit this image to: Create a professional YouTube thumbnail (16:9 aspect ratio): ".
  eexists. split; [left; unfold edit_prompt, gemini_enhanced_prompt; reflexivity|].
  styled_closed.
Qed.

(** A styled text stays styled when more text is put around it. *)
Lemma styled_around service prompt s a b :
  styled service prompt s -> service <> "dalle" ->
  (service = "gemini" ->
   contains "Avoid: podcast microphones, headphones" b = true) ->
  contains "quality" b = true ->
  styled service prompt (a ++ s ++ b).
Proof.
  intros (pre & post & [->|[Hd _]] & H16 & Hq & Hg) Hn Hb Hqb; [|contradiction].
  exists (a ++ pre), (post ++ b). split; [|split; [|split]].
  - left. rewrite !StringFacts.append_assoc. reflexivity.
  - rewrite StringFacts.append_assoc.
    apply StringFacts.contains_append_r.
    rewrite <- StringFacts.append_assoc.
    apply StringFacts.contains_append_l, H16.
  - apply StringFacts.contains_append_r, Hqb.
  - intros Hs. apply StringFacts.contains_append_r, Hb, Hs.
Qed.

Lemma styled_gemini_twice prompt :
  styled "gemini" prompt (gemini_enhanced_prompt (gemini_enhanced_prompt prompt)).
Proof.
  unfold gemini_enhanced_prompt at 1.
  apply styled_around; [apply styled_gemini|discriminate| |];
    try intros _; vm_compute; reflexivity.
Qed.

Lemma styled_gemini_twice_edit prompt :
  styled "gemini" prompt
    (edit_prompt (gemini_enhanced_prompt (gemini_enhanced_prompt prompt))).
Proof.
  unfold edit_prompt, gemini_enhanced_prompt at 1.
  rewrite <- StringFacts.append_assoc.
  apply styled_around; [apply styled_gemini|discriminate| |];
    try intros _; vm_compute; reflexivity.
Qed.

Lemma styled_freepik_text prompt :
  styled "freepik" prompt (freepik_text_prompt prompt).
Proof.
  exists "Create a professional YouTube thumbnail (16:9 landscape format, 1920x1080): ".
  eexists. split; [left; unfold freepik_text_prompt; reflexivity|].
  styled_closed.
Qed.

Lemma styled_freepik_reference prompt :
  styled "freepik" prompt (freepik_reference_prompt prompt).
Proof.
  exists "Modify the attached image and create a YouTube thumbnail by making these changes: ".
  eexists. split; [left; unfold freepik_reference_prompt; reflexivity|].
  styled_closed.
Qed.

Lemma styled_replicate prompt :
  styled "replicate" prompt (replicate_prompt prompt).
Proof.
  exists "YouTube thumbnail style, 16:9 landscape format: ".
  eexists. split; [left; unfold replicate_prompt; reflexivity|].
  styled_closed.
Qed.

Lemma styled_fal prompt : styled "fal" prompt (fal_prompt prompt).
Proof.
  exists "YouTube thumbnail style, 16:9 landscape format: ".
  eexists. split; [left; unfold fal_prompt; reflexivity|].
  styled_closed.
Qed.

Lemma styled_dalle_text prompt :
  styled "dalle" prompt (take 4000 (dalle_text_prompt prompt)).
Proof.
  exists "YouTube thumbnail style, 16:9 aspect ratio: ".
  eexists. split; [right; split; [reflexivity|]; unfold dalle_text_prompt; reflexivity|].
  styled_closed.
Qed.

Lemma styled_dalle_context description prompt :
  styled "dalle" prompt (take 4000 (dalle_context_prompt description prompt)).
Proof.
  exists (dalle_context_prefix description). eexists.
  split; [right; split; [reflexivity|];
          unfold dalle_context_prompt, dalle_context_prefix;
          rewrite !StringFacts.append_assoc; reflexivity|].
  split; [|split; [vm_compute; reflexivity|intros Hs; discriminate Hs]].
  unfold dalle_context_prefix. rewrite StringFacts.append_assoc.
  apply StringFacts.contains_append_l. vm_compute. reflexivity.
Qed.

(** The texts in a Gemini REST payload are the augmented prompt or its
    edit form. *)
Lemma rest_payload_prompts w e ref s :
  In s (payload_prompts (rest_payload w e ref)) -> s = e \/ s = edit_prompt e.
Proof.
  unfold rest_payload, content_parts.
  destruct (ref_usable ref) as [p|]; [destruct (path_exists w p);
    [destruct (read_file w p)|]|]; simpl; intuition.
Qed.

Lemma styled_event_get service prompt url :
  styled_event service prompt (EvGet url).
Proof. split; [intros s []|intros _ payload H; discriminate H]. Qed.

Lemma styled_event_write service prompt path data :
  styled_event service prompt (EvWrite path data).
Proof. split; [intros s []|intros _ payload H; discriminate H]. Qed.

Lemma styled_event_sleep service prompt seconds :
  styled_event service prompt (EvSleep seconds).
Proof. split; [intros s []|intros _ payload H; discriminate H]. Qed.

Lemma styled_event_chat service prompt model instruction image :
  styled_event service prompt (EvChat model instruction image).
Proof. split; [intros s []|intros _ payload H; discriminate H]. Qed.

Lemma gemini_requests_styled w prompt e ref :
  styled "gemini" prompt e -> styled "gemini" prompt (edit_prompt e) ->
  gemini_requests w (styled_event "gemini" prompt) e ref.
Proof.
  intros He Hd. repeat split; try (intros Hs; discriminate Hs).
  - intros s [<-|[]]. exact He.
  - intros s [<-|[]]. exact Hd.
  - intros s Hs. apply rest_payload_prompts in Hs.
    destruct Hs as [->| ->]; assumption.
Qed.

(** Every event of a run of [generate] meets the style claim. *)
Lemma generate_styled w self prompt output_path ref :
  emits (styled_event (service self) prompt)
        (generate w self prompt output_path ref).
Proof.
  unfold generate.
  pose proof (styled_event_get (service self) prompt) as Hget.
  pose proof (styled_event_write (service self) prompt) as Hwrite.
  pose proof (styled_event_sleep (service self) prompt) as Hsleep.
  destruct (String.eqb_spec (service self) "freepik") as [E|_].
  { rewrite E in *. apply emits_generate_freepik; auto.
    - split.
      + intros s [<-|[]]. apply styled_freepik_text.
      + intros _ payload _. eexists. split; [reflexivity|].
        vm_compute. reflexivity.
    - intros image. repeat constructor; simpl;
        try (intros s [<-|[]]; apply styled_freepik_reference);
        intros _ payload H; discriminate H. }
  destruct (String.eqb_spec (service self) "dalle") as [E|_].
  { rewrite E in *. apply emits_generate_dalle; auto.
    - apply styled_event_chat.
    - split; [|intros Hs; discriminate Hs].
      intros s [<-|[]]. apply styled_dalle_text.
    - intros d. split; [|intros Hs; discriminate Hs].
      intros s [<-|[]]. apply styled_dalle_context. }
  destruct (String.eqb_spec (service self) "gemini") as [E|_].
  { rewrite E in *. apply emits_generate_gemini; auto;
      apply gemini_requests_styled;
      auto using styled_gemini, styled_gemini_edit, styled_gemini_twice,
        styled_gemini_twice_edit. }
  destruct (String.eqb_spec (service self) "replicate") as [E|_].
  { rewrite E in *. apply emits_generate_replicate; auto.
    intros image_input. repeat constructor;
      try (intros Hs; discriminate Hs);
      intros s [<-|[]]; apply styled_replicate. }
  destruct (String.eqb_spec (service self) "fal") as [E|_]; [|emits_auto].
  rewrite E in *. apply emits_generate_fal; auto.
  intros image_url. split; [|intros Hs; discriminate Hs].
  intros s Hs. assert (s = fal_prompt prompt) as ->
    by (destruct image_url; simpl in Hs; intuition).
  apply styled_fal.
Qed.




(** *** The first request *)

Lemma any_get url : any_event (EvGet url).
Proof. exact I. Qed.

Lemma any_write path data : any_event (EvWrite path data).
Proof. exact I. Qed.

Lemma any_sleep seconds : any_event (EvSleep seconds).
Proof. exact I. Qed.

Lemma any_list {A} (f : A -> event) (l : list A) :
  Forall (fun x => any_event (f x)) l.
Proof. apply Forall_forall. intros x _. exact I. Qed.

Lemma any_gemini_requests w e ref : gemini_requests w any_event e ref.
Proof. repeat split. Qed.

#[local] Hint Resolve any_get any_write any_sleep any_gemini_requests : emits.
#[local] Hint Resolve emits_sdk_attempt emits_sdk_loop emits_rest_loop
  emits_replicate_loop
  emits_freepik_alternative emits_poll_job emits_poll_task
  emits_replicate_poll_loop emits_sleep : emits.
#[local] Hint Extern 1 (any_event _) => exact I : emits.
#[local] Hint Extern 1 (Forall _ _) => apply any_list : emits.

Section Starts.

Variable ev : event.

Lemma starts_emit {A} (reply : nat -> res A) : starts_with ev (emit ev reply).
Proof. intros t. exists []. reflexivity. Qed.

Lemma starts_bind {A B} (m : M A) (k : A -> M B) :
  starts_with ev m -> (forall a, emits any_event (k a)) ->
  starts_with ev (bind m k).
Proof.
  intros Hm Hk t. destruct (Hm t) as (r1 & E1). unfold bind.
  destruct (m t) as [[a|e] t1]; simpl in E1; subst t1; [|exists r1; reflexivity].
  destruct (Hk a (t ++ ev :: r1)%list) as (r2 & E2 & _).
  exists (r1 ++ r2)%list. rewrite E2, <- app_assoc. reflexivity.
Qed.

Lemma starts_try {A} (m : M A) (catches : exc -> bool) (h : exc -> M A) :
  starts_with ev m -> (forall e, emits any_event (h e)) ->
  starts_with ev (try_except m catches h).
Proof.
  intros Hm Hh t. destruct (Hm t) as (r1 & E1). unfold try_except.
  destruct (m t) as [[a|e] t1]; simpl in E1; subst t1; [exists r1; reflexivity|].
  destruct (catches e); [|exists r1; reflexivity].
  destruct (Hh e (t ++ ev :: r1)%list) as (r2 & E2 & _).
  exists (r1 ++ r2)%list. rewrite E2, <- app_assoc. reflexivity.
Qed.

Lemma starts_after {A B} (a : A) (k : A -> M B) :
  starts_with ev (k a) -> starts_with ev (bind (lift (Ok a)) k).
Proof. intros H t. exact (H t). Qed.

End Starts.

(** One step towards the first event of a computation. *)
Ltac starts_step :=
  lazymatch goal with
  | |- starts_with _ (emit _ _) => apply starts_emit
  | |- starts_with _ (bind (lift (Ok _)) _) => apply starts_after
  | |- starts_with _ (bind _ _) => apply starts_bind; [|intro; emits_auto]
  | |- starts_with _ (try_except _ _ _) => apply starts_try; [|intro; emits_auto]
  end.

Section FirstRequest.

Variable w : env.

Lemma gemini_starts key prompt output_path :
  starts_with (first_request "gemini" prompt)
    (generate_gemini w key prompt output_path RNone).
Proof.
  unfold generate_gemini. cbn [generate_gemini_fuel].
  unfold generate_gemini_body at 1.
  change (validate_reference w RNone) with RNone.
  unfold gemini_candidates, models_to_try. cbn [sdk_loop].
  unfold sdk_attempt at 1. unfold sdk_request at 1. cbn [ref_usable].
  unfold sdk_call at 1. cbn [ref_truthy first_request String.eqb Ascii.eqb Bool.eqb].
  repeat starts_step.
Qed.

Lemma freepik_starts prompt output_path :
  starts_with (first_request "freepik" prompt)
    (generate_freepik w prompt output_path RNone).
Proof.
  unfold generate_freepik. change (validate_reference w RNone) with RNone.
  cbn [ref_truthy]. unfold freepik_text_to_image, post.
  repeat starts_step.
Qed.

Lemma replicate_starts prompt output_path :
  starts_with (first_request "replicate" prompt)
    (generate_replicate w prompt output_path RNone).
Proof.
  unfold generate_replicate. change (validate_reference w RNone) with RNone.
  cbn [ref_truthy]. intros t. unfold bind at 1, ret at 1.
  revert t. change (starts_with (first_request "replicate" prompt)
    (replicate_loop w (replicate_models (replicate_prompt prompt) None)
       output_path (mkExc TypeError "exceptions must derive from BaseException"))).
  unfold replicate_models. cbn [replicate_loop]. unfold replicate_attempt, post.
  repeat starts_step.
Qed.

Lemma dalle_starts prompt output_path :
  starts_with (first_request "dalle" prompt)
    (generate_dalle w prompt output_path RNone).
Proof.
  unfold generate_dalle. change (validate_reference w RNone) with RNone.
  unfold dalle_enhanced_prompt. cbn [ref_truthy].
  intros t. unfold bind at 1, ret at 1. revert t.
  change (starts_with (first_request "dalle" prompt)
    (image_url <- emit (EvImages "dall-e-3" (take 4000 (dalle_text_prompt prompt)))
                    (fun n => images_generate w n "dall-e-3"
                                (take 4000 (dalle_text_prompt prompt))) ;;
     download w (JStr (opt_str image_url)) output_path)).
  repeat starts_step.
Qed.

Lemma fal_starts prompt output_path :
  import_fal w = Ok tt ->
  starts_with (first_request "fal" prompt)
    (generate_fal w prompt output_path RNone).
Proof.
  intros H. unfold generate_fal. change (validate_reference w RNone) with RNone.
  cbn [ref_truthy]. rewrite H.
  apply starts_try; [|intro; emits_auto].
  apply starts_after. intros t. unfold bind at 1, ret at 1. revert t.
  change (starts_with (first_request "fal" prompt)
    (result <- emit (EvFal fal_application (fal_arguments (fal_prompt prompt) None))
                 (fun n => fal_subscribe w n fal_application
                             (fal_arguments (fal_prompt prompt) None)) ;;
     ok <- lift (fal_has_images result) ;;
     if ok then
       imgs <- lift (py_item result "images") ;;
       first <- lift (py_first imgs) ;;
       u <- lift (py_item first "url") ;;
       download w u output_path
     else raise (Exception ("Unexpected result format: " ++ py_str w result)))).
  repeat starts_step.
Qed.

End FirstRequest.

(** The first request carries the provider's template around the prompt. *)
Lemma first_request_prompt service prompt :
  prompts_of (first_request service prompt)
  = [text_only_prompt service prompt].
Proof.
  unfold first_request, text_only_prompt.
  repeat (destruct (String.eqb service _); [reflexivity|]). reflexivity.
Qed.

(** C8, counterexample: with the DALL-E provider and the empty prompt,
    [generate] raises nothing; it sends the template around the empty text,
    downloads the image and returns the output path. *)
Lemma empty_prompt_is_sent :
  run (generate Stubs.working Stubs.dalle "" "out.png" RNone)
  = (Ok "out.png",
     [EvImages "dall-e-3"
        "YouTube thumbnail style, 16:9 aspect ratio: . Professional, high quality, eye-catching, modern design";
      EvGet Stubs.image_url;
      EvWrite "out.png" "PNG"]).
Proof. reflexivity. Qed.

(** C8, amended: [generate] does not look at the prompt.  For each of the
    five services, and for every prompt, the empty one included, the first
    thing a call without reference does is to send the provider the
    template around that prompt (for FAL, once its client is imported); the
    only error [generate] raises before any provider call is the
    [ValueError] for a service that is none of the five. *)
Theorem generate_does_not_check_prompt
    (w : env) (self : generator) (prompt output_path : string) :
  (In (service self) services ->
   (service self = "fal" -> import_fal w = Ok tt) ->
   exists first rest,
     snd (run (generate w self prompt output_path RNone)) = first :: rest /\
     prompts_of first = [text_only_prompt (service self) prompt]) /\
  (~ In (service self) services ->
   run (generate w self prompt output_path RNone)
   = (Raise (unsupported_service (service self)), [])).
Proof.
  split.
  - intros Hin Hfal.
    assert (Hs : starts_with (first_request (service self) prompt)
                   (generate w self prompt output_path RNone)).
    { unfold generate. simpl in Hin.
      destruct Hin as [E|[E|[E|[E|[E|[]]]]]]; rewrite <- E in *;
        cbn [String.eqb Ascii.eqb Bool.eqb].
      - apply freepik_starts.
      - apply dalle_starts.
      - apply gemini_starts.
      - apply replicate_starts.
      - apply fal_starts, Hfal. reflexivity. }
    destruct (Hs []) as (rest & E).
    exists (first_request (service self) prompt), rest.
    split; [exact E|apply first_request_prompt].
  - intros Hn. unfold generate, run. simpl in Hn.
    repeat match goal with
           | |- context [String.eqb (service self) ?x] =>
               destruct (String.eqb_spec (service self) x) as [E|_];
               [exfalso; apply Hn; rewrite E; tauto|]
           end.
    reflexivity.
Qed.

(** C8 amended, for the empty prompt and the DALL-E provider. *)
Lemma generate_does_not_check_prompt_example :
  exists first rest,
    snd (run (generate Stubs.working Stubs.dalle "" "out.png" RNone))
    = first :: rest /\
    prompts_of first = [text_only_prompt "dalle" ""].
Proof.
  apply (proj1 (generate_does_not_check_prompt Stubs.working Stubs.dalle
                  "" "out.png")).
  - right. left. reflexivity.
  - intros H. discriminate H.
Defined.

(** *** The retry of [generate_gemini] *)

Section Retry.

Variable w : env.
Variable key : string.

(** No exception leaves the two candidate loops. *)
Lemma sdk_loop_returns e output_path ref : forall models t,
  exists r t', sdk_loop w models e output_path ref t = (Ok r, t').
Proof.
  induction models as [|m rest IH]; intros t; cbn [sdk_loop].
  - eexists _, _. reflexivity.
  - unfold bind at 1. unfold try_except, any_exception.
    destruct (sdk_attempt w m e output_path ref t) as [[[p|]|ex] t1];
      try (eexists _, _; reflexivity); apply IH.
Qed.

Lemma rest_loop_returns e output_path ref : forall endpoints last t,
  exists r t', rest_loop w key endpoints e output_path ref last t = (Ok r, t').
Proof.
  induction endpoints as [|ep rest IH]; intros last t; cbn [rest_loop].
  - eexists _, _. reflexivity.
  - unfold bind at 1. unfold try_except at 1. unfold any_exception.
    destruct (try_except (rest_attempt w key ep e output_path ref) is_timeout
                (fun _ => ret (Continue (Some (fst ep ++ " timed out")))) t)
      as [[[p|last']|ex] t1];
      try (eexists _, _; reflexivity); apply IH.
Qed.

Lemma gemini_candidates_returns e output_path ref t :
  exists r t', gemini_candidates w key e output_path ref t = (Ok r, t').
Proof.
  unfold gemini_candidates, bind.
  destruct (sdk_loop_returns e output_path ref models_to_try t) as (r & t1 & E).
  rewrite E. destruct r as [p|]; [eexists _, _; reflexivity|].
  apply rest_loop_returns.
Qed.

(** The body of [generate_gemini], by the outcome of its pass over the
    candidates. *)
Lemma generate_gemini_body_eq self_call prompt output_path ref t :
  generate_gemini_body w key self_call prompt output_path ref t
  = match gemini_candidates w key (gemini_enhanced_prompt prompt) output_path
            (validate_reference w ref) t with
    | (Ok (Return path), t1) => (Ok path, t1)
    | (Ok (Continue last), t1) =>
        if ref_truthy (validate_reference w ref)
        then self_call (gemini_enhanced_prompt prompt) output_path RNone t1
        else (Raise (gemini_failure last), t1)
    | (Raise e, t1) => (Raise e, t1)
    end.
Proof.
  unfold generate_gemini_body, bind.
  destruct (gemini_candidates w key (gemini_enhanced_prompt prompt) output_path
              (validate_reference w ref) t) as [[[path|last]|e] t1];
    try reflexivity.
  destruct (ref_truthy (validate_reference w ref)); reflexivity.
Qed.

(** When every candidate of the first pass failed and a reference was in
    use, the method runs one more pass without reference and raises if that
    pass fails too. *)
Lemma generate_gemini_retry prompt output_path p t t1 last :
  all_space p = false -> path_exists w p = true ->
  gemini_candidates w key (gemini_enhanced_prompt prompt) output_path (RStr p) t
    = (Ok (Continue last), t1) ->
  generate_gemini w key prompt output_path (RStr p) t
  = match gemini_candidates w key
            (gemini_enhanced_prompt (gemini_enhanced_prompt prompt))
            output_path RNone t1 with
    | (Ok (Return path), t2) => (Ok path, t2)
    | (Ok (Continue last'), t2) => (Raise (gemini_failure last'), t2)
    | (Raise e, t2) => (Raise e, t2)
    end.
Proof.
  intros Ha Hp H. destruct (validate_valid w p Ha Hp) as (Hv & Ht & _).
  unfold generate_gemini. cbn [generate_gemini_fuel].
  rewrite generate_gemini_body_eq, Hv, H, Ht, generate_gemini_body_eq.
  reflexivity.
Qed.

(** The recursion of [generate_gemini] never goes deeper than two calls:
    more fuel changes nothing. *)
Lemma generate_gemini_fuel_enough n prompt output_path ref t :
  generate_gemini_fuel w key (S (S n)) prompt output_path ref t
  = generate_gemini w key prompt output_path ref t.
Proof.
  unfold generate_gemini. cbn [generate_gemini_fuel].
  rewrite !generate_gemini_body_eq.
  destruct (gemini_candidates w key (gemini_enhanced_prompt prompt) output_path
              (validate_reference w ref) t) as [[[path|last]|e] t1];
    reflexivity.
Qed.

Hypothesis sdk_always_fails : sdk_fails w.
Hypothesis post_always_fails : post_fails w.

Lemma sdk_loop_fails_text e output_path : forall models t,
  sdk_loop w models e output_path RNone t
  = (Ok None, (t ++ map (fun m => EvSdk m (SdkText e)) models)%list).
Proof.
  induction models as [|m rest IH]; intros t; cbn [sdk_loop map].
  - rewrite app_nil_r. reflexivity.
  - unfold bind at 1. unfold sdk_attempt, sdk_request, sdk_call.
    cbn [ref_usable]. unfold try_except, any_exception, bind, emit.
    destruct (sdk_always_fails (List.length t) m (SdkText e)) as (ex & ->).
    cbn [ret]. rewrite IH, <- app_assoc. reflexivity.
Qed.

Lemma sdk_loop_fails_reference e output_path p :
  all_space p = false -> path_exists w p = true -> pil_open w p = Ok tt ->
  forall models t,
    sdk_loop w models e output_path (RStr p) t
    = (Ok None,
       (t ++ flat_map (fun m => [EvSdk m (SdkEdit (edit_prompt e) p);
                                 EvSdk m (SdkText e)]) models)%list).
Proof.
  intros Ha Hp Ho. destruct (validate_valid w p Ha Hp) as (_ & _ & Hu).
  induction models as [|m rest IH]; intros t; cbn [sdk_loop flat_map].
  - rewrite app_nil_r. reflexivity.
  - unfold bind at 1. unfold sdk_attempt, sdk_request, sdk_call.
    rewrite Hu, Hp. cbn [negb].
    unfold try_except, any_exception, bind, emit, lift. rewrite Ho.
    destruct (sdk_always_fails (List.length t) m (SdkEdit (edit_prompt e) p))
      as (ex & ->).
    destruct (sdk_always_fails
                (List.length (t ++ [EvSdk m (SdkEdit (edit_prompt e) p)])) m
                (SdkText e)) as (ex' & ->).
    cbn [ret]. rewrite IH, <- !app_assoc. reflexivity.
Qed.

(** One REST candidate whose request fails sets [last_error] and adds the
    request to the trace. *)
Lemma rest_attempt_fails ep e output_path ref t :
  try_except
    (try_except (rest_attempt w key ep e output_path ref) is_timeout
       (fun _ => ret (Continue (Some (fst ep ++ " timed out")))))
    any_exception
    (fun ex => ret (Continue (Some (exc_msg ex)))) t
  = (Ok (Continue (Some (rest_error (fst ep)
                           (requests_post w (List.length t) (rest_url key (snd ep))
                              (rest_payload w e ref))))),
     (t ++ [EvPost (rest_url key (snd ep)) (rest_payload w e ref)])%list).
Proof.
  destruct ep as [ep_name ep_model].
  unfold try_except, rest_attempt, post, bind, emit, any_exception, rest_error.
  cbn [fst snd].
  pose proof (post_always_fails (List.length t) (rest_url key ep_model)
                (rest_payload w e ref)) as Hf.
  destruct (requests_post w (List.length t) (rest_url key ep_model)
              (rest_payload w e ref)) as [r|ex].
  - destruct (Z.eqb_spec (status_code r) 200) as [E|_]; [contradiction|].
    destruct (status_code r =? 404)%Z; [reflexivity|].
    destruct (status_code r =? 403)%Z; [|reflexivity].
    destruct (contains "API key not valid" (text r)); [reflexivity|].
    destruct (contains "Imagen" (text r)
              || contains "image generation" (lower (text r))); reflexivity.
  - destruct (is_timeout ex); reflexivity.
Qed.

Lemma rest_loop_fails e output_path ref : forall endpoints last t,
  rest_loop w key endpoints e output_path ref last t
  = (Ok (Continue (rest_errors w key e ref endpoints (List.length t) last)),
     (t ++ map (fun ep => EvPost (rest_url key (snd ep)) (rest_payload w e ref))
            endpoints)%list).
Proof.
  induction endpoints as [|ep rest IH]; intros last t;
    cbn [rest_loop rest_errors map].
  - rewrite app_nil_r. reflexivity.
  - unfold bind at 1. rewrite rest_attempt_fails, IH.
    rewrite length_app, Nat.add_1_r, <- app_assoc. reflexivity.
Qed.

End Retry.

(** C2, counterexample: with Freepik, a reference that exists and a
    provider that always fails, [generate] tries its two reference endpoints
    once and raises; no text-only request follows. *)
Lemma freepik_does_not_retry_without_reference :
  let r := run (generate Stubs.failing Stubs.freepik "a cat" "out.png"
                  (RStr Stubs.reference)) in
  fst r = Raise (Exception
    "Freepik cannot process reference images: All Freepik reference-based endpoints failed. Using text-to-image instead.. Please use DALL-E or Replicate instead.") /\
  List.length (snd r) = 2%nat /\
  posted_urls (snd r) = ["https://api.freepik.com/v1/ai/reimagine";
                         "https://api.freepik.com/v1/ai/image-variations"] /\
  ~ In freepik_text_url (posted_urls (snd r)).
Proof.
  cbv zeta. split; [reflexivity|]. split; [reflexivity|]. split; [reflexivity|].
  vm_compute. intros [H|[H|[]]]; discriminate H.
Qed.

(** C2, amended: for the Gemini provider and a reference path that is not
    blank and names a file, if every candidate of the chain (three SDK
    models, then four REST endpoints) fails, [generate] runs the chain
    exactly once more, without reference, and that second pass decides the
    outcome; with a provider that always fails the trace is the chain with
    the reference followed by the chain without it, and the call raises the
    exception "Gemini image generation failed with all models" that carries
    the error of the last request. *)
Theorem gemini_retries_once_without_reference
    (w : env) (key prompt output_path p : string) :
  all_space p = false -> path_exists w p = true ->
  exists retry_prompt,
    (forall t t1 last,
       gemini_candidates w key (gemini_enhanced_prompt prompt) output_path
         (RStr p) t = (Ok (Continue last), t1) ->
       exists r t2,
         gemini_candidates w key retry_prompt output_path RNone t1 = (Ok r, t2) /\
         generate w (mkGenerator "gemini" key) prompt output_path (RStr p) t
         = match r with
           | Return path => (Ok path, t2)
           | Continue last' => (Raise (gemini_failure last'), t2)
           end) /\
    (pil_open w p = Ok tt -> sdk_fails w -> post_fails w ->
     run (generate w (mkGenerator "gemini" key) prompt output_path (RStr p))
     = (Raise (gemini_failure
                 (Some (rest_error "Gemini Exp 1206"
                          (requests_post w 16 (rest_url key "gemini-exp-1206")
                             (rest_payload w retry_prompt RNone))))),
        (chain_with_reference w key (gemini_enhanced_prompt prompt) p
         ++ chain_text_only w key retry_prompt)%list)).
Proof.
  intros Ha Hp.
  exists (gemini_enhanced_prompt (gemini_enhanced_prompt prompt)).
  assert (Hretry : forall t t1 last,
    gemini_candidates w key (gemini_enhanced_prompt prompt) output_path
      (RStr p) t = (Ok (Continue last), t1) ->
    exists r t2,
      gemini_candidates w key
        (gemini_enhanced_prompt (gemini_enhanced_prompt prompt))
        output_path RNone t1 = (Ok r, t2) /\
      generate w (mkGenerator "gemini" key) prompt output_path (RStr p) t
      = match r with
        | Return path => (Ok path, t2)
        | Continue last' => (Raise (gemini_failure last'), t2)
        end).
  { intros t t1 last H.
    destruct (gemini_candidates_returns w key
                (gemini_enhanced_prompt (gemini_enhanced_prompt prompt))
                output_path RNone t1) as (r & t2 & E).
    exists r, t2. split; [exact E|].
    change (generate w (mkGenerator "gemini" key) prompt output_path (RStr p) t)
      with (generate_gemini w key prompt output_path (RStr p) t).
    rewrite (generate_gemini_retry w key prompt output_path p t t1 last Ha Hp H), E.
    destruct r; reflexivity. }
  split; [exact Hretry|].
  intros Ho Hsdk Hpost. unfold run.
  assert (H1 : gemini_candidates w key (gemini_enhanced_prompt prompt) output_path
                 (RStr p) []
               = (Ok (Continue (rest_errors w key (gemini_enhanced_prompt prompt)
                                  (RStr p) endpoints_to_try 6 None)),
                  chain_with_reference w key (gemini_enhanced_prompt prompt) p)).
  { unfold gemini_candidates, bind.
    rewrite (sdk_loop_fails_reference w Hsdk _ _ p Ha Hp Ho).
    rewrite (rest_loop_fails w key Hpost). reflexivity. }
  destruct (Hretry _ _ _ H1) as (r & t2 & E & ->).
  unfold gemini_candidates, bind in E.
  rewrite (sdk_loop_fails_text w Hsdk), (rest_loop_fails w key Hpost) in E.
  inversion E; subst r t2. unfold chain_text_only.
  rewrite app_assoc. reflexivity.
Qed.

(** C2 amended, in the world where every provider call fails. *)
Lemma gemini_retries_once_without_reference_example :
  exists retry_prompt,
    run (generate Stubs.failing Stubs.gemini "a cat" "out.png"
           (RStr Stubs.reference))
    = (Raise (gemini_failure (Some "Gemini Exp 1206 failed: Internal error")),
       (chain_with_reference Stubs.failing "KEY" (gemini_enhanced_prompt "a cat")
          Stubs.reference
        ++ chain_text_only Stubs.failing "KEY" retry_prompt)%list).
Proof.
  destruct (gemini_retries_once_without_reference Stubs.failing "KEY" "a cat"
              "out.png" Stubs.reference eq_refl eq_refl) as (retry & _ & H).
  exists retry. apply H.
  - reflexivity.
  - intros n m c. eexists. reflexivity.
  - intros n url payload. simpl. discriminate.
Defined.

End GeneratorFacts.

(** ** Properties of the index as a build leaves it *)

Module IndexFacts.

Import Finder FinderNotions IndexNotions WebApp.

Lemma combine_seq_nth (l : list Q) : forall s i q,
  nth_error l i = Some q -> In ((s + i)%nat, q) (combine (seq s (length l)) l).
Proof.
  induction l as [|x l IH]; intros s i q H; [destruct i; discriminate|].
  destruct i as [|i]; simpl in *.
  - injection H as ->. left. rewrite Nat.add_0_r. reflexivity.
  - right. replace (s + S i)%nat with (S s + i)%nat by lia. apply IH, H.
Qed.

Lemma enumerate_nth l i q : nth_error l i = Some q -> In (i, q) (enumerate l).
Proof. intros H. apply (combine_seq_nth l 0 i q H). Qed.

Lemma sorted_app_dominates (R : nat * Q -> nat * Q -> Prop) (a b : list (nat * Q)) :
  StronglySorted R (a ++ b) -> forall x y, In x a -> In y b -> R x y.
Proof.
  induction a as [|h a IH]; intros S x y Hx Hy; [destruct Hx|].
  simpl in S. inversion S as [|? ? S' F]; subst.
  destruct Hx as [->|Hx].
  - rewrite Forall_forall in F. apply F, in_or_app. right. exact Hy.
  - apply IH; assumption.
Qed.

(** What [torch.topk] leaves out is no better than what it takes. *)
Lemma topk_best sims k top :
  topk sims k = Ok top ->
  forall j q', nth_error sims j = Some q' -> ~ In j (map fst top) ->
  forall idx q, In (idx, q) top -> q' <= q.
Proof.
  unfold topk. destruct (_ || _); [discriminate|]. intros E. injection E as <-.
  intros j q' Hj Hn idx q Hin.
  set (L := sort_desc (enumerate sims)) in *.
  assert (HL : In (j, q') L).
  { apply (proj2 (FinderFacts.sort_desc_In _ _)), enumerate_nth, Hj. }
  rewrite <- (firstn_skipn (Z.to_nat k) L) in HL.
  apply in_app_or in HL. destruct HL as [HL|HL].
  - exfalso. apply Hn. apply (in_map fst) in HL. exact HL.
  - assert (S : StronglySorted desc (firstn (Z.to_nat k) L ++ skipn (Z.to_nat k) L)).
    { rewrite firstn_skipn. apply FinderFacts.sort_desc_sorted. }
    apply (sorted_app_dominates desc _ _ S (idx, q) (j, q') Hin HL).
Qed.

Lemma Forall2_by_position {A B} (R : A -> B -> Prop) : forall (la : list A) (lb : list B),
  length la = length lb ->
  (forall i a b, nth_error la i = Some a -> nth_error lb i = Some b -> R a b) ->
  Forall2 R la lb.
Proof.
  induction la as [|a la IH]; intros [|b lb] Hl H; try discriminate; constructor.
  - apply (H 0%nat); reflexivity.
  - apply IH; [simpl in Hl; lia|]. intros i x y Hx Hy. apply (H (S i)); assumption.
Qed.

(** X1: on a non-empty index with one embedding per entry, [find_similar]
    answers with entries at pairwise different positions of the index, each
    with its own path and file name and with the cosine score of its own
    embedding, and no entry it leaves out scores higher than one it
    returns. *)
Theorem find_similar_returns_the_best
    (encode_text : string -> embedding) (cos_sim : embedding -> embedding -> Q)
    (f : finder) (topic : string) (pov : option string) (top_k : Z) :
  thumbnails (index_data f) <> [] ->
  length (embeddings (index_data f)) = length (thumbnails (index_data f)) ->
  (1 <= top_k)%Z ->
  answers_with_the_best encode_text cos_sim f topic pov top_k.
Proof.
  intros Hne Hlen Hk. unfold answers_with_the_best.
  set (score := cos_sim (encode_text (search_query topic pov))).
  unfold find_similar.
  destruct (thumbnails (index_data f)) as [|t0 ts] eqn:Et; [congruence|].
  rewrite <- Et in *.
  set (sims := map score (embeddings (index_data f))).
  fold score. fold sims.
  assert (Hs : length sims = length (thumbnails (index_data f))).
  { unfold sims. rewrite length_map. exact Hlen. }
  destruct (FinderFacts.topk_ok sims (Z.min top_k (Z.of_nat (length sims))))
    as (top & Etop & Ltop & Stop & Ntop & Itop); [lia|].
  rewrite Etop.
  assert (Hnth : forall idx q, In (idx, q) top ->
            exists e, nth_error (embeddings (index_data f)) idx = Some e /\ q = score e).
  { intros idx q Hin. apply Itop in Hin. unfold sims in Hin.
    rewrite nth_error_map in Hin.
    destruct (nth_error (embeddings (index_data f)) idx) as [e|]; [|discriminate].
    injection Hin as <-. eauto. }
  destruct (FinderFacts.collect_ok (thumbnails (index_data f)) top [])
    as (rs & Ec & Lrs & Hrs).
  { intros idx q Hin. destruct (Hnth idx q Hin) as (e & He & _).
    rewrite <- Hlen. apply nth_error_Some. congruence. }
  exists (map fst top), rs. simpl in Ec. rewrite Ec.
  split; [reflexivity|]. split; [exact Ntop|]. split.
  - apply Forall2_by_position; [rewrite length_map; exact Lrs|].
    intros i r idx Hr Hi.
    destruct (Hrs i r Hr) as (idx' & q & t & Ht & Hth & ->).
    rewrite nth_error_map, Ht in Hi. injection Hi as <-.
    destruct (Hnth idx' q (nth_error_In _ _ Ht)) as (e & He & ->).
    exists t, e. repeat split; assumption || reflexivity.
  - intros j e idx e' Hj Hn Hin He'.
    apply in_map_iff in Hin. destruct Hin as ([idx0 q] & Ei & Hin). simpl in Ei. subst idx0.
    destruct (Hnth idx q Hin) as (e0 & He0 & ->).
    assert (e0 = e') by congruence. subst e0.
    apply (topk_best sims _ top Etop j (score e)) with (idx := idx); [|exact Hn|exact Hin].
    unfold sims. rewrite nth_error_map, Hj. reflexivity.
Qed.


Lemma find_similar_returns_the_best_example :
  answers_with_the_best Examples.unit_text Examples.dot Examples.example_finder
    "AI" None 2.
Proof.
  apply find_similar_returns_the_best; [discriminate|reflexivity|lia].
Defined.

Lemma index_loop_entries encode_image dir : forall files thumbs embs cats,
  let '(thumbs', embs', _) := index_loop encode_image dir files thumbs embs cats in
  thumbs' = (thumbs ++ map (entry_of dir) (filter (loads encode_image) files))%list /\
  map Some embs'
  = (map Some embs ++ map encode_image (filter (loads encode_image) files))%list.
Proof.
  induction files as [|p files IH]; intros thumbs embs cats; simpl.
  - rewrite !app_nil_r. split; reflexivity.
  - assert (L : loads encode_image p
               = match encode_image p with Some _ => true | None => false end)
      by reflexivity.
    rewrite L. clear L. destruct (encode_image p) as [e|] eqn:E.
    + specialize (IH (thumbs ++ [mkThumb (str_path p) (name p) (category_of dir p)])%list
                     (embs ++ [e])%list
                     (match category_of dir p with
                      | Some c => (cats ++ [c])%list
                      | None => cats
                      end)).
      destruct (index_loop encode_image dir files _ _ _) as [[t' e'] c'].
      destruct IH as [-> ->]. simpl. rewrite <- !app_assoc, map_app. simpl.
      rewrite E, <- app_assoc. split; reflexivity.
    + apply IH.
Qed.


Lemma image_suffix_listed s :
  is_image_suffix s = true -> In (lower s) image_extensions.
Proof.
  unfold is_image_suffix. intros H. apply existsb_exists in H.
  destruct H as (e & He & Heq). apply String.eqb_eq in Heq. rewrite Heq. exact He.
Qed.

(** The entries and the embeddings of a build. *)
Lemma built_entries rglob is_file encode_image f d :
  image_files rglob is_file (thumbnails_dir f) <> [] ->
  let ix := index_data (built rglob is_file encode_image f d) in
  let files := indexed rglob is_file encode_image (thumbnails_dir f) in
  thumbnails ix = map (entry_of (thumbnails_dir f)) files /\
  map Some (embeddings ix) = map encode_image files.
Proof.
  intros Hne. unfold built, indexed, index_thumbnails.
  destruct (image_files rglob is_file (thumbnails_dir f)) as [|p rest] eqn:E;
    [congruence|].
  pose proof (index_loop_entries encode_image (thumbnails_dir f) (p :: rest)
                [] [] []) as H.
  destruct (index_loop encode_image (thumbnails_dir f) (p :: rest) [] [] [])
    as [[thumbs embs] cats].
  exact H.
Qed.

(** X2: a build that finds image files indexes exactly those that load, in
    scan order: one entry (path, file name, category) and one embedding for
    each; a file that does not load is skipped and the build goes on. *)
Theorem index_thumbnails_indexes_what_loads
    (rglob : path -> list path) (is_file : path -> bool)
    (encode_image : path -> option embedding) (f : finder) (d : disk) :
  image_files rglob is_file (thumbnails_dir f) <> [] ->
  indexes_what_loads rglob is_file encode_image f d.
Proof.
  intros Hne. unfold indexes_what_loads.
  destruct (built_entries rglob is_file encode_image f d Hne) as [Ht He].
  split; [exact Ht|]. split; [exact He|].
  apply Forall_forall. intros q Hq. unfold indexed in Hq.
  apply filter_In in Hq. destruct Hq as [Hq _].
  unfold image_files in Hq. apply filter_In in Hq.
  destruct Hq as [Hin Hb]. apply andb_true_iff in Hb. destruct Hb as [Hf Hs].
  auto using image_suffix_listed.
Qed.

Lemma index_thumbnails_indexes_what_loads_example :
  indexes_what_loads Examples.tree Examples.tree_is_file Examples.unit_image
    (init Examples.no_disk Examples.root default_index_file) Examples.no_disk.
Proof.
  apply index_thumbnails_indexes_what_loads. discriminate.
Defined.

(** The order of [sorted]. *)
Lemma before_trans a b c : before a b -> before b c -> before a c.
Proof.
  unfold before. intros H1 H2.
  apply OrderedTypeEx.String_as_OT.cmp_lt.
  apply (OrderedTypeEx.String_as_OT.lt_trans a b c);
    apply OrderedTypeEx.String_as_OT.cmp_lt; assumption.
Qed.

Lemma before_irrefl a : ~ before a a.
Proof.
  unfold before. intros H. apply OrderedTypeEx.String_as_OT.cmp_lt in H.
  apply (OrderedTypeEx.String_as_OT.lt_not_eq a a H). reflexivity.
Qed.

Lemma insert_sorted_In s y l : In y (insert_sorted s l) <-> y = s \/ In y l.
Proof.
  induction l as [|x l IH]; simpl; [intuition|].
  destruct (String.compare s x) eqn:C; simpl.
  - apply String.compare_eq_iff in C. subst x. intuition.
  - intuition.
  - rewrite IH. intuition.
Qed.

Lemma sorted_set_In y l : In y (sorted_set l) <-> In y l.
Proof.
  induction l as [|x l IH]; simpl; [reflexivity|].
  unfold sorted_set in *. simpl. rewrite insert_sorted_In, IH. intuition.
Qed.

Lemma insert_sorted_sorted s l :
  StronglySorted before l -> StronglySorted before (insert_sorted s l).
Proof.
  induction 1 as [|x l S IH F]; simpl; [repeat constructor|].
  destruct (String.compare s x) eqn:C.
  - constructor; assumption.
  - constructor; [constructor; assumption|].
    constructor; [exact C|].
    apply Forall_forall. intros y Hy. rewrite Forall_forall in F.
    apply (before_trans s x y C), F, Hy.
  - constructor; [exact IH|].
    apply Forall_forall. intros y Hy. apply insert_sorted_In in Hy.
    destruct Hy as [->|Hy].
    + unfold before. rewrite String.compare_antisym, C. reflexivity.
    + rewrite Forall_forall in F. apply F, Hy.
Qed.

Lemma sorted_set_sorted l : StronglySorted before (sorted_set l).
Proof.
  induction l as [|x l IH]; [constructor|]. apply insert_sorted_sorted, IH.
Qed.

Lemma sorted_NoDup l : StronglySorted before l -> NoDup l.
Proof.
  induction 1 as [|x l S IH F]; constructor; [|exact IH].
  intros Hin. rewrite Forall_forall in F. apply (before_irrefl x), F, Hin.
Qed.

Lemma entry_categories_In c ts :
  In c (entry_categories ts) <-> exists t, In t ts /\ t_category t = Some c.
Proof.
  unfold entry_categories. rewrite in_flat_map. split.
  - intros (t & Ht & Hc). exists t. split; [exact Ht|].
    destruct (t_category t) as [c'|]; [|destruct Hc].
    destruct Hc as [->|[]]. reflexivity.
  - intros (t & Ht & Hc). exists t. split; [exact Ht|]. rewrite Hc. left. reflexivity.
Qed.

(** What a finder lists when its category list is the sorted set of its
    entries' categories, as a build leaves it. *)
Lemma listed_of_sorted_set f :
  categories (index_data f)
  = Some (sorted_set (entry_categories (thumbnails (index_data f)))) ->
  categories_listed f.
Proof.
  intros H. unfold categories_listed, get_categories. rewrite H. split.
  - apply sorted_set_sorted.
  - intros c. rewrite sorted_set_In. apply entry_categories_In.
Qed.

Lemma built_categories rglob is_file encode_image f d :
  image_files rglob is_file (thumbnails_dir f) <> [] ->
  let f' := built rglob is_file encode_image f d in
  categories (index_data f')
  = Some (sorted_set (entry_categories (thumbnails (index_data f')))).
Proof.
  intros Hne. unfold built, index_thumbnails.
  destruct (image_files rglob is_file (thumbnails_dir f)) as [|p rest] eqn:E;
    [congruence|].
  pose proof (FinderFacts.index_loop_categories encode_image (thumbnails_dir f)
                (p :: rest) [] [] [] eq_refl) as Hc.
  destruct (index_loop encode_image (thumbnails_dir f) (p :: rest) [] [] [])
    as [[thumbs embs] cats].
  simpl. congruence.
Qed.

(** X3: after a build that finds image files, [get_categories] is in
    strictly increasing order, hence without repetition, and a name is in it
    exactly when some entry of the index carries it as its category. *)
Theorem get_categories_after_build
    (rglob : path -> list path) (is_file : path -> bool)
    (encode_image : path -> option embedding) (f : finder) (d : disk) :
  image_files rglob is_file (thumbnails_dir f) <> [] ->
  categories_listed (built rglob is_file encode_image f d).
Proof.
  intros Hne. apply listed_of_sorted_set, built_categories, Hne.
Qed.

Lemma get_categories_after_build_example :
  categories_listed
    (built Examples.tree Examples.tree_is_file Examples.unit_image
       (init Examples.no_disk Examples.root default_index_file) Examples.no_disk).
Proof.
  apply get_categories_after_build. discriminate.
Defined.

Lemma list_sum_map_add {A} (g h : A -> nat) l :
  list_sum (map (fun x => (g x + h x)%nat) l)
  = (list_sum (map g l) + list_sum (map h l))%nat.
Proof.
  induction l as [|x l IH]; simpl; [reflexivity|]. rewrite IH. lia.
Qed.

Lemma list_sum_map_zero {A} (g : A -> nat) l :
  (forall x, In x l -> g x = 0%nat) -> list_sum (map g l) = 0%nat.
Proof.
  induction l as [|x l IH]; intros H; simpl; [reflexivity|].
  rewrite (H x (or_introl eq_refl)), IH; [reflexivity|].
  intros y Hy. apply H. right. exact Hy.
Qed.

Lemma list_sum_indicator c l :
  NoDup l -> In c l ->
  list_sum (map (fun c' => if String.eqb c c' then 1 else 0)%nat l) = 1%nat.
Proof.
  induction 1 as [|x l Hx N IH]; intros Hin; [destruct Hin|]. simpl.
  destruct (String.eqb_spec c x) as [->|Hne].
  - rewrite list_sum_map_zero; [reflexivity|].
    intros y Hy. destruct (String.eqb_spec x y) as [->|_]; [contradiction|reflexivity].
  - destruct Hin as [->|Hin]; [congruence|]. rewrite (IH Hin). reflexivity.
Qed.

Lemma partition_by_category (cats : list string) : forall ts : list thumbnail,
  NoDup cats ->
  (forall t c, In t ts -> t_category t = Some c -> In c cats) ->
  (length (filter uncategorized ts)
   + list_sum (map (fun c => length (filter (fun t => match t_category t with
                                                       | Some c' => String.eqb c' c
                                                       | None => false
                                                       end) ts)) cats))%nat
  = length ts.
Proof.
  intros ts N. induction ts as [|t ts IH]; intros H.
  - simpl. rewrite list_sum_map_zero; reflexivity.
  - assert (IH' := IH (fun t' c Ht => H t' c (or_intror Ht))). clear IH.
    rewrite (map_ext
               (fun c => length (filter (fun t0 => match t_category t0 with
                                                   | Some c' => String.eqb c' c
                                                   | None => false
                                                   end) (t :: ts)))
               (fun c => ((match t_category t with
                           | Some c' => if String.eqb c' c then 1 else 0
                           | None => 0
                           end)
                          + length (filter (fun t0 => match t_category t0 with
                                                      | Some c' => String.eqb c' c
                                                      | None => false
                                                      end) ts))%nat)).
    2:{ intros c. simpl. destruct (t_category t) as [c'|]; [|reflexivity].
        destruct (String.eqb c' c); reflexivity. }
    rewrite list_sum_map_add. simpl. unfold uncategorized at 1.
    destruct (t_category t) as [c0|] eqn:Ec.
    + rewrite (list_sum_indicator c0 cats N (H t c0 (or_introl eq_refl) Ec)).
      simpl. lia.
    + rewrite (list_sum_map_zero (fun _ => 0%nat)); [|reflexivity]. simpl. lia.
Qed.

(** X4: after a build that finds image files, every thumbnail is in exactly
    one group: the uncategorized ones and the thumbnails of each listed
    category add up to the thumbnail count. *)
Theorem categories_partition_after_build
    (rglob : path -> list path) (is_file : path -> bool)
    (encode_image : path -> option embedding) (f : finder) (d : disk) :
  image_files rglob is_file (thumbnails_dir f) <> [] ->
  categories_partition (built rglob is_file encode_image f d).
Proof.
  intros Hne.
  destruct (listed_of_sorted_set _ (built_categories rglob is_file encode_image f d Hne))
    as [S L].
  unfold categories_partition, get_thumbnails_by_category, get_thumbnail_count.
  apply partition_by_category.
  - apply sorted_NoDup, S.
  - intros t c Ht Hc. apply L. eauto.
Qed.


Lemma categories_partition_after_build_example :
  categories_partition
    (built Examples.tree Examples.tree_is_file Examples.unit_image
       (init Examples.no_disk Examples.root default_index_file) Examples.no_disk).
Proof.
  apply categories_partition_after_build. discriminate.
Defined.

(** X5: [index_thumbnails] is idempotent on an unchanged directory: a second
    run leaves the same instance and the same files on disk as the first;
    entries are replaced, never added to those of the run before. *)
Theorem index_thumbnails_idempotent
    (rglob : path -> list path) (is_file : path -> bool)
    (encode_image : path -> option embedding) (f : finder) (d : disk) :
  rebuild_changes_nothing rglob is_file encode_image f d.
Proof.
  unfold rebuild_changes_nothing, index_thumbnails. cbv zeta.
  destruct (image_files rglob is_file (thumbnails_dir f)) as [|p rest] eqn:E.
  - simpl. rewrite E. split; reflexivity.
  - destruct (index_loop encode_image (thumbnails_dir f) (p :: rest) [] [] [])
      as [[thumbs embs] cats] eqn:El.
    cbn [fst snd thumbnails_dir index_file]. rewrite E, El.
    cbn [fst snd]. split; [reflexivity|].
    intros file. unfold disk_write. destruct (String.eqb file (index_file f)); reflexivity.
Qed.

(** X6: once a build has indexed at least one file, a query with
    [top_k >= 1] cannot fail: it returns [min(top_k, n)] results, [n] being
    the number of files that loaded. *)
Theorem find_similar_after_build
    (rglob : path -> list path) (is_file : path -> bool)
    (encode_image : path -> option embedding)
    (encode_text : string -> embedding) (cos_sim : embedding -> embedding -> Q)
    (f : finder) (d : disk) (topic : string) (pov : option string) (top_k : Z) :
  indexed rglob is_file encode_image (thumbnails_dir f) <> [] ->
  (1 <= top_k)%Z ->
  exists results,
    find_similar encode_text cos_sim (built rglob is_file encode_image f d)
      topic pov top_k = Ok results /\
    length results
    = Nat.min (Z.to_nat top_k)
              (length (indexed rglob is_file encode_image (thumbnails_dir f))).
Proof.
  intros Hi Hk.
  assert (Hne : image_files rglob is_file (thumbnails_dir f) <> []).
  { intros E. apply Hi. unfold indexed. rewrite E. reflexivity. }
  destruct (built_entries rglob is_file encode_image f d Hne) as (Ht & He).
  assert (Hlen : length (embeddings (index_data (built rglob is_file encode_image f d)))
                 = length (thumbnails (index_data (built rglob is_file encode_image f d)))).
  { rewrite <- (length_map Some), He, Ht, !length_map. reflexivity. }
  destruct (FinderFacts.find_similar_ok encode_text cos_sim
              (built rglob is_file encode_image f d) topic pov top_k)
    as (top & results & E & L & _); [|exact Hlen|exact Hk|].
  - rewrite Ht. intros Hm. apply map_eq_nil in Hm. exact (Hi Hm).
  - exists results. split; [exact E|]. rewrite L, Ht, length_map. reflexivity.
Qed.

Lemma find_similar_after_build_example :
  exists results,
    find_similar Examples.unit_text Examples.dot
      (built Examples.tree Examples.tree_is_file Examples.unit_image
         (init Examples.no_disk Examples.root default_index_file) Examples.no_disk)
      "AI" None 2 = Ok results /\
    length results
    = Nat.min (Z.to_nat 2)
              (length (indexed Examples.tree Examples.tree_is_file Examples.unit_image
                         (thumbnails_dir
                            (init Examples.no_disk Examples.root default_index_file)))).
Proof.
  apply find_similar_after_build; [discriminate|lia].
Defined.

(** X7: [init_finder] of [web_app.py] in a new process serves the snapshot
    an earlier build left under the default file name as it is: when that
    build indexed at least one file, the index is neither rebuilt nor
    written, whatever the directory holds by now. *)
Theorem init_finder_serves_the_snapshot
    (rglob0 rglob : path -> list path) (is_file0 is_file : path -> bool)
    (encode_image0 encode_image : path -> option embedding)
    (f0 : finder) (d0 : disk) :
  index_file f0 = default_index_file ->
  indexed rglob0 is_file0 encode_image0 (thumbnails_dir f0) <> [] ->
  let r := index_thumbnails rglob0 is_file0 encode_image0 f0 d0 in
  init_finder rglob is_file encode_image None (snd r)
  = (mkFinder ["thumbnails"] default_index_file (index_data (fst r)), snd r).
Proof.
  intros Hf Hi r.
  assert (Hne : image_files rglob0 is_file0 (thumbnails_dir f0) <> []).
  { intros E. apply Hi. unfold indexed. rewrite E. reflexivity. }
  destruct (built_entries rglob0 is_file0 encode_image0 f0 d0 Hne) as (Ht & _).
  fold r in Ht. unfold built in Ht. fold r in Ht.
  assert (Hd : snd r default_index_file = Some (index_data (fst r))).
  { unfold r, index_thumbnails.
    destruct (image_files rglob0 is_file0 (thumbnails_dir f0)) as [|p rest];
      [congruence|].
    destruct (index_loop encode_image0 (thumbnails_dir f0) (p :: rest) [] [] [])
      as [[thumbs embs] cats].
    cbn [fst snd index_data]. unfold disk_write. rewrite Hf, String.eqb_refl.
    reflexivity. }
  unfold init_finder, init, _load_or_create_index, get_thumbnail_count.
  rewrite Hd. cbn [index_data]. rewrite Ht.
  destruct (indexed rglob0 is_file0 encode_image0 (thumbnails_dir f0)) as [|q qs];
    [congruence|]. reflexivity.
Qed.

Lemma init_finder_serves_the_snapshot_example :
  let r := index_thumbnails Examples.tree Examples.tree_is_file Examples.unit_image
             (init Examples.no_disk Examples.root default_index_file)
             Examples.no_disk in
  init_finder Examples.empty_tree Examples.tree_is_file Examples.no_image None (snd r)
  = (mkFinder ["thumbnails"] default_index_file (index_data (fst r)), snd r).
Proof.
  apply init_finder_serves_the_snapshot; [reflexivity|discriminate].
Defined.

End IndexFacts.

(** ** Properties of a call of [generate] *)

Module CallFacts.

Import Generator GeneratorNotions CallNotions.
Local Open Scope py_scope.

(** *** The output file and the pauses *)

Section Lands.

Variable w : env.
Variable out : string.

Lemma written_after pre added : written w out added -> written w out (pre ++ added)%list.
Proof.
  intros (p & d & -> & H). exists (pre ++ p)%list, d.
  rewrite app_assoc. split; [reflexivity|exact H].
Qed.

Lemma lands_emits {A} (value : A -> option string) (m : M A) :
  lands w out value m -> emits (tidy out) m.
Proof.
  intros H t. destruct (H t) as (added & E & F & _). exists added. auto.
Qed.

Lemma lands_ret {A} (value : A -> option string) (a : A) :
  value a = None -> lands w out value (ret a).
Proof.
  intros H t. exists []. rewrite app_nil_r. split; [reflexivity|].
  split; [constructor|]. simpl. intros a' p E. injection E as <-. congruence.
Qed.

Lemma lands_raise {A} (value : A -> option string) (e : exc) :
  lands w out value (@raise A e).
Proof.
  intros t. exists []. rewrite app_nil_r. split; [reflexivity|].
  split; [constructor|]. simpl. discriminate.
Qed.

(** A computation whose results stand for no path. *)
Lemma lands_quiet {A} (value : A -> option string) (m : M A) :
  emits (tidy out) m -> (forall a, value a = None) -> lands w out value m.
Proof.
  intros H V t. destruct (H t) as (added & E & F). exists added.
  split; [exact E|]. split; [exact F|]. intros a p _ Hv. rewrite V in Hv. discriminate.
Qed.

Lemma lands_bind {A B} (value : B -> option string) (m : M A) (k : A -> M B) :
  emits (tidy out) m -> (forall a, lands w out value (k a)) ->
  lands w out value (bind m k).
Proof.
  intros Hm Hk t. destruct (Hm t) as (a1 & E1 & F1). unfold bind.
  destruct (m t) as [[a|e] t1]; simpl in E1; subst t1.
  - destruct (Hk a (t ++ a1)%list) as (a2 & E2 & F2 & P2).
    exists (a1 ++ a2)%list. rewrite E2, app_assoc.
    split; [reflexivity|]. split; [apply Forall_app; split; assumption|].
    intros b p Hb Hv. destruct (P2 b p Hb Hv) as [-> Hw].
    split; [reflexivity|apply written_after, Hw].
  - exists a1. split; [reflexivity|]. split; [exact F1|]. simpl. discriminate.
Qed.

(** The continuation hands on the path of the first part, or goes on when
    there is none. *)
Lemma lands_bind_case {A B} (va : A -> option string) (vb : B -> option string)
    (m : M A) (k : A -> M B) :
  lands w out va m ->
  (forall a, match va a with
             | Some p => exists b, k a = ret b /\ (vb b = Some p \/ vb b = None)
             | None => lands w out vb (k a)
             end) ->
  lands w out vb (bind m k).
Proof.
  intros Hm Hk t. destruct (Hm t) as (a1 & E1 & F1 & P1). unfold bind.
  destruct (m t) as [[a|e] t1]; simpl in E1; subst t1.
  - specialize (Hk a). destruct (va a) as [p|] eqn:Va.
    + destruct Hk as (b & -> & Hb). exists a1. unfold ret. simpl.
      split; [reflexivity|]. split; [exact F1|].
      intros b' p' E Hv. injection E as <-.
      destruct Hb as [Hb|Hb]; [|congruence].
      assert (p' = p) by congruence. subst p'. apply (P1 a p eq_refl Va).
    + destruct (Hk (t ++ a1)%list) as (a2 & E2 & F2 & P2).
      exists (a1 ++ a2)%list. rewrite E2, app_assoc.
      split; [reflexivity|]. split; [apply Forall_app; split; assumption|].
      intros b p Hb Hv. destruct (P2 b p Hb Hv) as [-> Hw].
      split; [reflexivity|apply written_after, Hw].
  - exists a1. split; [reflexivity|]. split; [exact F1|]. simpl. discriminate.
Qed.

Lemma lands_try {A} (value : A -> option string) (m : M A)
    (catches : exc -> bool) (h : exc -> M A) :
  lands w out value m -> (forall e, lands w out value (h e)) ->
  lands w out value (try_except m catches h).
Proof.
  intros Hm Hh t. destruct (Hm t) as (a1 & E1 & F1 & P1). unfold try_except.
  destruct (m t) as [[a|e] t1] eqn:Em; simpl in E1; subst t1.
  - exists a1. split; [reflexivity|]. split; [exact F1|]. exact P1.
  - destruct (catches e).
    + destruct (Hh e (t ++ a1)%list) as (a2 & E2 & F2 & P2).
      exists (a1 ++ a2)%list. rewrite E2, app_assoc.
      split; [reflexivity|]. split; [apply Forall_app; split; assumption|].
      intros b p Hb Hv. destruct (P2 b p Hb Hv) as [-> Hw].
      split; [reflexivity|apply written_after, Hw].
    + exists a1. split; [reflexivity|]. split; [exact F1|]. simpl. discriminate.
Qed.

(** The write of the output file, followed by the [return]. *)
Lemma lands_save_ret {A} (value : A -> option string) (data : string) (a : A) :
  (forall p, value a = Some p -> p = out) ->
  lands w out value (save w out data ;;; ret a).
Proof.
  intros V t. exists [EvWrite out data]. unfold bind, save, emit, ret.
  destruct (write_file w out data) as [[]|e] eqn:Ew; simpl.
  - split; [reflexivity|]. split; [repeat constructor|].
    intros a' p E Hv. injection E as <-. split; [apply V, Hv|].
    exists [], data. split; [reflexivity|exact Ew].
  - split; [reflexivity|]. split; [repeat constructor|]. discriminate.
Qed.

End Lands.

#[local] Hint Constants Opaque : emits.
#[local] Hint Extern 1 (tidy _ _) => exact I : emits.
#[local] Hint Extern 1 (tidy _ (EvWrite _ _)) => reflexivity : emits.
#[local] Hint Extern 1 (tidy _ (EvSleep _)) => reflexivity : emits.

Create HintDb lands discriminated.
#[local] Hint Constants Opaque : lands.

Ltac quiet := GeneratorFacts.emits_auto.

(** The continuation of a part that may hand on a path. *)
Ltac hand_on :=
  let a := fresh "a" in
  intros a; try destruct a; cbn [returned];
  try (eexists; split; [reflexivity|first [left; reflexivity|right; reflexivity]]).

Ltac lands_step :=
  lazymatch goal with
  | |- lands _ _ _ (ret _) => apply lands_ret; reflexivity
  | |- lands _ _ _ (raise _) => apply lands_raise
  | |- lands _ _ _ (bind (save _ _ _) (fun _ => ret _)) =>
      apply lands_save_ret; intros ? E; injection E; auto
  | |- lands _ _ _ (bind ?m _) =>
      lazymatch type of m with
      | M (option string) =>
          eapply (lands_bind_case _ _ (fun x : option string => x)); [|hand_on]
      | M (step string) => eapply (lands_bind_case _ _ returned); [|hand_on]
      | M string =>
          first [ eapply (lands_bind_case _ _ (@Some string));
                  [solve [auto with lands]|hand_on]
                | apply lands_bind; [solve [quiet]|intro] ]
      | _ => apply lands_bind; [solve [quiet]|intro]
      end
  | |- lands _ _ _ (try_except _ _ _) => apply lands_try; [|intro]
  | |- lands _ _ _ (if ?b then _ else _) => destruct b
  | |- lands _ _ _ (match ?x with _ => _ end) => destruct x
  | |- lands _ _ _ _ => solve [auto with lands]
  end.

Ltac lands_auto := repeat lands_step; auto with lands.

Section Providers.

Variable w : env.
Variable out : string.

Lemma quiet_get url : emits (tidy out) (get w url).
Proof. unfold get. quiet. Qed.

Lemma quiet_post url payload : emits (tidy out) (post w url payload).
Proof. unfold post. quiet. Qed.

Lemma quiet_sleep : emits (tidy out) (sleep 2).
Proof. unfold sleep. quiet. Qed.

Lemma quiet_save data : emits (tidy out) (save w out data).
Proof. unfold save. quiet. Qed.

Hint Resolve quiet_get quiet_post quiet_sleep quiet_save : emits.

Lemma lands_download url : lands w out (@Some string) (download w url out).
Proof. unfold download. lands_auto. Qed.

Lemma lands_decode_to v : lands w out (@Some string) (decode_to w v out).
Proof. unfold decode_to. lands_auto. Qed.

Hint Resolve lands_download lands_decode_to : lands.

Lemma lands_extract result :
  lands w out (@Some string) (_extract_freepik_image w result out).
Proof. unfold _extract_freepik_image. lands_auto. Qed.

Hint Resolve lands_extract : lands.

Lemma lands_poll_job_attempt url :
  lands w out (fun x : option string => x) (poll_job_attempt w url out).
Proof. unfold poll_job_attempt. lands_auto. Qed.

Lemma lands_poll_task_attempt url :
  lands w out (fun x : option string => x) (poll_task_attempt w url out).
Proof. unfold poll_task_attempt. lands_auto. Qed.

Lemma lands_replicate_poll_attempt url :
  lands w out (fun x : option string => x) (replicate_poll_attempt w url out).
Proof. unfold replicate_poll_attempt. lands_auto. Qed.

Hint Resolve lands_poll_job_attempt lands_poll_task_attempt
  lands_replicate_poll_attempt : lands.

Lemma lands_poll_job_loop url : forall remaining attempt,
  lands w out (@Some string) (poll_job_loop w remaining attempt url out).
Proof.
  induction remaining as [|n IH]; intros attempt; simpl; lands_auto.
Qed.

Lemma lands_poll_task_loop url : forall remaining attempt,
  lands w out (@Some string) (poll_task_loop w remaining attempt url out).
Proof.
  induction remaining as [|n IH]; intros attempt; simpl; lands_auto.
Qed.

Lemma lands_replicate_poll_loop url : forall remaining,
  lands w out (@Some string) (replicate_poll_loop w remaining url out).
Proof.
  induction remaining as [|n IH]; simpl; lands_auto.
Qed.

Hint Resolve lands_poll_job_loop lands_poll_task_loop lands_replicate_poll_loop
  : lands.

Lemma lands_poll_job job_id :
  lands w out (@Some string) (_poll_freepik_job w job_id out).
Proof. unfold _poll_freepik_job. lands_auto. Qed.

Lemma lands_poll_task task_id :
  lands w out (@Some string) (_poll_freepik_task w task_id out).
Proof. unfold _poll_freepik_task. lands_auto. Qed.

Hint Resolve lands_poll_job lands_poll_task : lands.

Lemma lands_freepik_alternative result :
  lands w out (@Some string) (freepik_alternative w result out).
Proof. unfold freepik_alternative. lands_auto. Qed.

Hint Resolve lands_freepik_alternative : lands.

Lemma lands_freepik_text prompt :
  lands w out (@Some string) (freepik_text_to_image w prompt out).
Proof. unfold freepik_text_to_image. lands_auto. Qed.

Lemma lands_freepik_reference_loop : forall endpoints,
  lands w out (@Some string) (freepik_reference_loop w endpoints out).
Proof.
  induction endpoints as [|[url payload] rest IH]; simpl; lands_auto.
Qed.

Hint Resolve lands_freepik_text lands_freepik_reference_loop : lands.

Lemma lands_freepik_with_reference prompt ref :
  lands w out (@Some string) (_freepik_with_reference w prompt out ref).
Proof. unfold _freepik_with_reference. lands_auto. Qed.

Lemma lands_style_transfer prompt ref :
  lands w out (@Some string) (_generate_freepik_style_transfer w prompt out ref).
Proof. unfold _generate_freepik_style_transfer. lands_auto. Qed.

Hint Resolve lands_freepik_with_reference : lands.

Lemma lands_generate_freepik prompt ref :
  lands w out (@Some string) (generate_freepik w prompt out ref).
Proof. unfold generate_freepik. lands_auto. Qed.

Lemma lands_replicate_attempt model_config :
  lands w out (@Some string) (replicate_attempt w model_config out).
Proof. unfold replicate_attempt. lands_auto. Qed.

Hint Resolve lands_replicate_attempt : lands.

Lemma lands_replicate_loop : forall models last_error,
  lands w out (@Some string) (replicate_loop w models out last_error).
Proof.
  induction models as [|m rest IH]; intros last_error; simpl; lands_auto.
Qed.

Hint Resolve lands_replicate_loop : lands.

Lemma lands_generate_replicate prompt ref :
  lands w out (@Some string) (generate_replicate w prompt out ref).
Proof.
  unfold generate_replicate. apply lands_bind; [quiet|intro; lands_auto].
Qed.

Lemma quiet_dalle_prompt prompt ref :
  emits (tidy out) (dalle_enhanced_prompt w prompt ref).
Proof. unfold dalle_enhanced_prompt. quiet. Qed.

Hint Resolve quiet_dalle_prompt : emits.

Lemma lands_generate_dalle prompt ref :
  lands w out (@Some string) (generate_dalle w prompt out ref).
Proof.
  unfold generate_dalle. apply lands_bind; [quiet|intro].
  apply lands_bind; [quiet|intro]. lands_auto.
Qed.

Lemma lands_generate_fal prompt ref :
  lands w out (@Some string) (generate_fal w prompt out ref).
Proof.
  unfold generate_fal. apply lands_try; [|intro; lands_auto].
  apply lands_bind; [quiet|intros _].
  apply lands_bind; [quiet|intro]. lands_auto.
Qed.

Variable key : string.

Lemma quiet_sdk_request m e ref : emits (tidy out) (sdk_request w m e ref).
Proof. unfold sdk_request, sdk_call. quiet. Qed.

Hint Resolve quiet_sdk_request : emits.

Lemma lands_sdk_attempt m e ref :
  lands w out (fun x : option string => x) (sdk_attempt w m e out ref).
Proof. unfold sdk_attempt. lands_auto. Qed.

Hint Resolve lands_sdk_attempt : lands.

Lemma lands_sdk_loop e ref : forall models,
  lands w out (fun x : option string => x) (sdk_loop w models e out ref).
Proof.
  induction models as [|m rest IH]; simpl; lands_auto.
Qed.

Lemma lands_rest_attempt endpoint e ref :
  lands w out returned (rest_attempt w key endpoint e out ref).
Proof. unfold rest_attempt. destruct endpoint as [ep_name ep_model]. lands_auto. Qed.

Hint Resolve lands_sdk_loop lands_rest_attempt : lands.

Lemma lands_rest_loop e ref : forall endpoints last_error,
  lands w out returned (rest_loop w key endpoints e out ref last_error).
Proof.
  induction endpoints as [|ep rest IH]; intros last_error; simpl; lands_auto.
Qed.

Hint Resolve lands_rest_loop : lands.

Lemma lands_gemini_candidates e ref :
  lands w out returned (gemini_candidates w key e out ref).
Proof. unfold gemini_candidates. lands_auto. Qed.

Hint Resolve lands_gemini_candidates : lands.

Lemma lands_generate_gemini_fuel : forall fuel prompt ref,
  lands w out (@Some string) (generate_gemini_fuel w key fuel prompt out ref).
Proof.
  induction fuel as [|n IH]; intros prompt ref; simpl; [lands_auto|].
  unfold generate_gemini_body. lands_auto.
Qed.

Lemma lands_generate_gemini prompt ref :
  lands w out (@Some string) (generate_gemini w key prompt out ref).
Proof. apply lands_generate_gemini_fuel. Qed.

End Providers.

(** *** Counting the events of a call *)

Section Counting.

Variable sel : event -> bool.

Lemma count_app (a b : trace) : count sel (a ++ b)%list = (count sel a + count sel b)%nat.
Proof. unfold count. rewrite filter_app, length_app. reflexivity. Qed.

Lemma at_most_weaken {A} n n' (m : M A) :
  at_most sel n m -> (n <= n')%nat -> at_most sel n' m.
Proof.
  intros H Hn t. destruct (H t) as (added & E & C). exists added. split; [exact E|lia].
Qed.

Lemma at_most_ret {A} n (a : A) : at_most sel n (ret a).
Proof. intros t. exists []. rewrite app_nil_r. split; [reflexivity|apply Nat.le_0_l]. Qed.

Lemma at_most_raise {A} n (e : exc) : at_most sel n (@raise A e).
Proof. intros t. exists []. rewrite app_nil_r. split; [reflexivity|apply Nat.le_0_l]. Qed.

Lemma at_most_lift {A} n (r : res A) : at_most sel n (lift r).
Proof. intros t. exists []. rewrite app_nil_r. split; [reflexivity|apply Nat.le_0_l]. Qed.

Lemma at_most_emit {A} n (ev : event) (reply : nat -> res A) :
  ((if sel ev then 1 else 0) <= n)%nat -> at_most sel n (emit ev reply).
Proof.
  intros H t. exists [ev]. split; [reflexivity|].
  unfold count. simpl. destruct (sel ev); simpl; lia.
Qed.

Lemma at_most_bind {A B} n1 n2 n (m : M A) (k : A -> M B) :
  at_most sel n1 m -> (forall a, at_most sel n2 (k a)) -> (n1 + n2 <= n)%nat ->
  at_most sel n (bind m k).
Proof.
  intros Hm Hk Hn t. destruct (Hm t) as (a1 & E1 & C1). unfold bind.
  destruct (m t) as [[a|e] t1]; simpl in E1; subst t1.
  - destruct (Hk a (t ++ a1)%list) as (a2 & E2 & C2).
    exists (a1 ++ a2)%list. rewrite E2, app_assoc, count_app.
    split; [reflexivity|lia].
  - exists a1. split; [reflexivity|lia].
Qed.

Lemma at_most_try {A} n1 n2 n (m : M A) (catches : exc -> bool) (h : exc -> M A) :
  at_most sel n1 m -> (forall e, at_most sel n2 (h e)) -> (n1 + n2 <= n)%nat ->
  at_most sel n (try_except m catches h).
Proof.
  intros Hm Hh Hn t. destruct (Hm t) as (a1 & E1 & C1). unfold try_except.
  destruct (m t) as [[a|e] t1]; simpl in E1; subst t1.
  - exists a1. split; [reflexivity|lia].
  - destruct (catches e).
    + destruct (Hh e (t ++ a1)%list) as (a2 & E2 & C2).
      exists (a1 ++ a2)%list. rewrite E2, app_assoc, count_app.
      split; [reflexivity|lia].
    + exists a1. split; [reflexivity|lia].
Qed.

(** A part that adds none, then the rest. *)
Lemma at_most_then {A B} n (m : M A) (k : A -> M B) :
  at_most sel 0 m -> (forall a, at_most sel n (k a)) -> at_most sel n (bind m k).
Proof. intros Hm Hk. apply (at_most_bind 0 n n); auto. Qed.

(** A guarded part and a handler, neither above the bound, the part adding
    none when the handler runs. *)
Lemma at_most_guard {A} n (m : M A) (catches : exc -> bool) (h : exc -> M A) :
  at_most sel 0 m -> (forall e, at_most sel n (h e)) ->
  at_most sel n (try_except m catches h).
Proof. intros Hm Hh. apply (at_most_try 0 n n); auto. Qed.

End Counting.

Create HintDb counts discriminated.
#[local] Hint Constants Opaque : counts.

Ltac counts_step :=
  lazymatch goal with
  | |- at_most _ _ (ret _) => apply at_most_ret
  | |- at_most _ _ (raise _) => apply at_most_raise
  | |- at_most _ _ (lift _) => apply at_most_lift
  | |- at_most _ _ (emit _ _) => apply at_most_emit; cbn; lia
  | |- at_most _ _ (bind _ _) => apply at_most_then; [|intro]
  | |- at_most _ _ (try_except _ _ _) => apply at_most_guard; [|intro]
  | |- at_most _ _ (if ?b then _ else _) => destruct b
  | |- at_most _ _ (match ?x with _ => _ end) => destruct x
  | |- at_most _ _ _ =>
      solve [auto with counts
            | eapply at_most_weaken; [solve [auto with counts]|cbn; lia]]
  end.

Ltac counts_auto := repeat counts_step; auto with counts.

Section Pauses.

Variable w : env.

Lemma count_pauses t : count is_sleep t = length (pauses t).
Proof.
  unfold count, pauses. induction t as [|ev t IH]; [reflexivity|].
  simpl. destruct ev; simpl; auto.
Qed.

Lemma naps_get url : at_most is_sleep 0 (get w url).
Proof. unfold get. counts_auto. Qed.

Lemma naps_post url payload : at_most is_sleep 0 (post w url payload).
Proof. unfold post. counts_auto. Qed.

Lemma naps_save path data : at_most is_sleep 0 (save w path data).
Proof. unfold save. counts_auto. Qed.

Hint Resolve naps_get naps_post naps_save : counts.

Lemma naps_download url out : at_most is_sleep 0 (download w url out).
Proof. unfold download. counts_auto. Qed.

Lemma naps_decode_to v out : at_most is_sleep 0 (decode_to w v out).
Proof. unfold decode_to. counts_auto. Qed.

Hint Resolve naps_download naps_decode_to : counts.

Lemma naps_extract result out : at_most is_sleep 0 (_extract_freepik_image w result out).
Proof. unfold _extract_freepik_image. counts_auto. Qed.

Hint Resolve naps_extract : counts.

Lemma naps_poll_job_loop url out n a :
  at_most is_sleep n (poll_job_loop w n a url out).
Proof.
  intros t. destruct (GeneratorFacts.poll_job_loop_polled w url out n a t)
    as (added & E & P).
  exists added. split; [exact E|]. rewrite count_pauses.
  apply (GeneratorFacts.polled_pauses _ _ _ _ P).
Qed.

Lemma naps_poll_task_loop url out n a :
  at_most is_sleep n (poll_task_loop w n a url out).
Proof.
  intros t. destruct (GeneratorFacts.poll_task_loop_polled w url out n a t)
    as (added & E & P).
  exists added. split; [exact E|]. rewrite count_pauses.
  apply (GeneratorFacts.polled_pauses _ _ _ _ P).
Qed.

Lemma naps_replicate_poll_loop url out n :
  at_most is_sleep n (replicate_poll_loop w n url out).
Proof.
  intros t. destruct (GeneratorFacts.replicate_poll_loop_polled w url out n t)
    as (added & E & P).
  exists added. split; [exact E|]. rewrite count_pauses.
  apply (GeneratorFacts.polled_pauses _ _ _ _ P).
Qed.

Lemma naps_poll_job job_id out : at_most is_sleep 60 (_poll_freepik_job w job_id out).
Proof. unfold _poll_freepik_job. apply naps_poll_job_loop. Qed.

Hint Resolve naps_poll_job : counts.

Lemma naps_freepik_alternative result out :
  at_most is_sleep 60 (freepik_alternative w result out).
Proof. unfold freepik_alternative. counts_auto. Qed.

Hint Resolve naps_freepik_alternative : counts.

Lemma naps_freepik_text prompt out :
  at_most is_sleep 60 (freepik_text_to_image w prompt out).
Proof. unfold freepik_text_to_image. counts_auto. Qed.

Lemma naps_freepik_reference_loop out : forall endpoints,
  at_most is_sleep 0 (freepik_reference_loop w endpoints out).
Proof.
  induction endpoints as [|[url payload] rest IH]; simpl; counts_auto.
Qed.

Hint Resolve naps_freepik_text naps_freepik_reference_loop : counts.

Lemma naps_generate_freepik prompt out ref :
  at_most is_sleep 60 (generate_freepik w prompt out ref).
Proof.
  unfold generate_freepik, _freepik_with_reference. counts_auto.
Qed.

Lemma naps_replicate_attempt model_config out :
  at_most is_sleep 60 (replicate_attempt w model_config out).
Proof.
  unfold replicate_attempt. counts_auto. apply naps_replicate_poll_loop.
Qed.

Lemma naps_generate_replicate prompt out ref :
  at_most is_sleep 120 (generate_replicate w prompt out ref).
Proof.
  unfold generate_replicate. apply at_most_then; [counts_auto|intros image_input].
  unfold replicate_models, replicate_loop.
  apply (at_most_try is_sleep 60 60); [apply naps_replicate_attempt| |lia].
  intros e. apply (at_most_try is_sleep 60 0); [apply naps_replicate_attempt| |lia].
  intros e'. apply at_most_raise.
Qed.

Lemma naps_generate_dalle prompt out ref :
  at_most is_sleep 0 (generate_dalle w prompt out ref).
Proof. unfold generate_dalle, dalle_enhanced_prompt. counts_auto. Qed.

Lemma naps_generate_fal prompt out ref :
  at_most is_sleep 0 (generate_fal w prompt out ref).
Proof. unfold generate_fal. counts_auto. Qed.

Variable key : string.

Lemma naps_sdk_loop e out ref : forall models,
  at_most is_sleep 0 (sdk_loop w models e out ref).
Proof.
  induction models as [|m rest IH]; simpl; [counts_auto|].
  unfold sdk_attempt, sdk_request, sdk_call. counts_auto.
Qed.

Lemma naps_rest_loop e out ref : forall endpoints last_error,
  at_most is_sleep 0 (rest_loop w key endpoints e out ref last_error).
Proof.
  induction endpoints as [|[ep_name ep_model] rest IH]; intros last_error; simpl;
    [counts_auto|].
  unfold rest_attempt. counts_auto.
Qed.

Hint Resolve naps_sdk_loop naps_rest_loop : counts.

Lemma naps_generate_gemini_fuel out : forall fuel prompt ref,
  at_most is_sleep 0 (generate_gemini_fuel w key fuel prompt out ref).
Proof.
  induction fuel as [|n IH]; intros prompt ref; simpl; [counts_auto|].
  unfold generate_gemini_body, gemini_candidates. counts_auto.
Qed.

End Pauses.

Lemma naps_generate w self prompt out ref :
  at_most is_sleep (pause_limit (service self)) (generate w self prompt out ref).
Proof.
  unfold generate, pause_limit.
  destruct (String.eqb_spec (service self) "freepik") as [E|_];
    [rewrite E; apply naps_generate_freepik|].
  destruct (String.eqb_spec (service self) "dalle") as [E|_];
    [rewrite E; apply naps_generate_dalle|].
  destruct (String.eqb_spec (service self) "gemini") as [E|_];
    [rewrite E; apply naps_generate_gemini_fuel|].
  destruct (String.eqb_spec (service self) "replicate") as [E|_];
    [apply naps_generate_replicate|].
  destruct (String.eqb_spec (service self) "fal") as [E|_];
    [apply naps_generate_fal|].
  apply at_most_raise.
Qed.

Lemma lands_generate w self prompt out ref :
  lands w out (@Some string) (generate w self prompt out ref).
Proof.
  unfold generate.
  repeat match goal with
         | |- lands _ _ _ (if ?b then _ else _) => destruct b
         end;
    auto using lands_generate_freepik, lands_generate_dalle, lands_generate_gemini,
               lands_generate_replicate, lands_generate_fal, lands_raise.
Qed.


Lemma tidy_pauses out added :
  Forall (tidy out) added -> Forall (fun s => s = 2%Z) (pauses added).
Proof.
  induction 1 as [|ev added H _ IH]; [constructor|].
  unfold pauses in *. simpl. destruct ev; try exact IH.
  constructor; [exact H|exact IH].
Qed.

(** X8: whatever the service, the prompt and the reference, and however the
    providers answer, a call of [generate] writes to no file other than
    [output_path] and makes no pause other than of two seconds. *)
Theorem generate_touches_only_the_output
    (w : env) (self : generator) (prompt output_path : string) (ref : pyref)
    (t : trace) :
  exists added,
    snd (generate w self prompt output_path ref t) = (t ++ added)%list /\
    (forall path data, In (EvWrite path data) added -> path = output_path) /\
    (forall seconds, In (EvSleep seconds) added -> seconds = 2%Z).
Proof.
  destruct (lands_generate w self prompt output_path ref t) as (added & E & F & _).
  exists added. split; [exact E|]. rewrite Forall_forall in F.
  split; intros; match goal with H : In _ added |- _ => apply F in H; exact H end.
Qed.

(** X9: when [generate] returns, what it returns is [output_path] itself,
    and the last thing it did was to write that file, with success. *)
Theorem generate_returns_the_file_it_wrote
    (w : env) (self : generator) (prompt output_path : string) (ref : pyref)
    (t : trace) (p : string) :
  fst (generate w self prompt output_path ref t) = Ok p ->
  p = output_path /\
  exists before data,
    snd (generate w self prompt output_path ref t)
    = (t ++ before ++ [EvWrite output_path data])%list /\
    write_file w output_path data = Ok tt.
Proof.
  intros H.
  destruct (lands_generate w self prompt output_path ref t) as (added & E & _ & P).
  destruct (P p p H eq_refl) as (-> & pre & data & -> & Hw).
  split; [reflexivity|]. exists pre, data. split; [exact E|exact Hw].
Qed.

Lemma generate_returns_the_file_it_wrote_example :
  "out.png" = "out.png" /\
  exists before data,
    snd (generate Stubs.working Stubs.freepik "a red fox" "out.png" RNone [])
    = ([] ++ before ++ [EvWrite "out.png" data])%list /\
    write_file Stubs.working "out.png" data = Ok tt.
Proof.
  apply (generate_returns_the_file_it_wrote Stubs.working Stubs.freepik
           "a red fox" "out.png" RNone [] "out.png").
  reflexivity.
Defined.

(** X10: a call of [generate] pauses at most 120 times with Replicate, 60
    times with Freepik and never with Gemini, DALL-E and FAL, two seconds
    each time: it sleeps for no more than four minutes in all. *)
Theorem generate_pauses_are_bounded
    (w : env) (self : generator) (prompt output_path : string) (ref : pyref)
    (t : trace) :
  exists added,
    snd (generate w self prompt output_path ref t) = (t ++ added)%list /\
    (length (pauses added) <= pause_limit (service self))%nat /\
    (pause_limit (service self) <= 120)%nat /\
    Forall (fun seconds => seconds = 2%Z) (pauses added).
Proof.
  destruct (naps_generate w self prompt output_path ref t) as (added & E & C).
  destruct (lands_generate w self prompt output_path ref t) as (added' & E' & F & _).
  assert (added' = added).
  { rewrite E in E'. apply app_inv_head in E'. congruence. }
  subst added'. exists added. split; [exact E|].
  split; [rewrite <- count_pauses; exact C|].
  split; [|apply (tidy_pauses output_path), F].
  unfold pause_limit. destruct (String.eqb _ "replicate"); [lia|].
  destruct (String.eqb _ "freepik"); lia.
Qed.

(** X11: [generate_gemini] fails in one way only.  An exception of the SDK,
    a time-out, a reply that says the API key is not valid or that
    permission is denied: none of them reaches the caller; the method
    goes on with the next candidate and, when all are used up, raises the
    exception whose message begins "Gemini image generation failed with all
    models" and carries the last error text. *)
Theorem generate_gemini_fails_in_one_way
    (w : env) (key prompt output_path : string) (ref : pyref) (t : trace)
    (e : exc) :
  fst (generate_gemini w key prompt output_path ref t) = Raise e ->
  exists last_error, e = gemini_failure last_error.
Proof.
  unfold generate_gemini. simpl.
  rewrite GeneratorFacts.generate_gemini_body_eq.
  destruct (GeneratorFacts.gemini_candidates_returns w key
              (gemini_enhanced_prompt prompt) output_path
              (validate_reference w ref) t) as (r & t1 & E1).
  rewrite E1. destruct r as [p|last]; [discriminate|].
  destruct (ref_truthy (validate_reference w ref)).
  - rewrite GeneratorFacts.generate_gemini_body_eq.
    destruct (GeneratorFacts.gemini_candidates_returns w key
                (gemini_enhanced_prompt (gemini_enhanced_prompt prompt)) output_path
                (validate_reference w RNone) t1) as (r2 & t2 & E2).
    rewrite E2. destruct r2 as [p|last2]; [discriminate|].
    simpl. intros H. injection H as <-. eauto.
  - simpl. intros H. injection H as <-. eauto.
Qed.

Lemma generate_gemini_fails_in_one_way_example :
  exists last_error,
    mkExc Exception_
      "Gemini image generation failed with all models. Last error: Gemini Exp 1206 failed: Internal error. Try DALL-E 3 or check your API key permissions."
    = gemini_failure last_error.
Proof.
  apply (generate_gemini_fails_in_one_way Stubs.failing "KEY" "a red fox" "out.png"
           RNone []).
  vm_compute. reflexivity.
Defined.


(** *** The requests of [generate_gemini] *)

Section Chain.

Variable w : env.
Variable key : string.

Lemma sdk_calls_of_call m c : at_most is_sdk 1 (sdk_call w m c).
Proof. unfold sdk_call. counts_auto. Qed.

Lemma sdk_calls_of_request m e ref :
  at_most is_sdk (sdk_calls ref) (sdk_request w m e ref).
Proof.
  unfold sdk_request, sdk_calls. destruct (ref_usable ref) as [p|];
    [|apply sdk_calls_of_call].
  destruct (negb (path_exists w p)).
  - apply (at_most_weaken is_sdk 1); [apply sdk_calls_of_call|lia].
  - apply (at_most_try is_sdk 1 1); [|intro; apply sdk_calls_of_call|lia].
    apply at_most_then; [counts_auto|intro; apply sdk_calls_of_call].
Qed.

Lemma sdk_calls_of_save path data : at_most is_sdk 0 (save w path data).
Proof. unfold save. counts_auto. Qed.

Hint Resolve sdk_calls_of_save : counts.

Lemma sdk_calls_of_attempt m e out ref :
  at_most is_sdk (sdk_calls ref) (sdk_attempt w m e out ref).
Proof.
  unfold sdk_attempt.
  apply (at_most_bind is_sdk (sdk_calls ref) 0);
    [apply sdk_calls_of_request| |lia].
  intros response. counts_auto.
Qed.

Lemma sdk_calls_of_loop e out ref : forall models,
  at_most is_sdk (length models * sdk_calls ref) (sdk_loop w models e out ref).
Proof.
  induction models as [|m rest IH]; simpl; [counts_auto|].
  apply (at_most_bind is_sdk (sdk_calls ref) (length rest * sdk_calls ref));
    [| |lia].
  - apply (at_most_try is_sdk (sdk_calls ref) 0);
      [apply sdk_calls_of_attempt|intro; counts_auto|lia].
  - intros [p|]; [counts_auto|exact IH].
Qed.

Lemma sdk_calls_of_rest_loop e out ref : forall endpoints last_error,
  at_most is_sdk 0 (rest_loop w key endpoints e out ref last_error).
Proof.
  induction endpoints as [|[ep_name ep_model] rest IH]; intros last_error; simpl;
    [counts_auto|].
  unfold rest_attempt, post, save. counts_auto.
Qed.

Lemma posts_of_sdk_loop e out ref : forall models,
  at_most is_post 0 (sdk_loop w models e out ref).
Proof.
  induction models as [|m rest IH]; simpl; [counts_auto|].
  unfold sdk_attempt, sdk_request, sdk_call, save. counts_auto.
Qed.

Lemma posts_of_rest_attempt endpoint e out ref :
  at_most is_post 1 (rest_attempt w key endpoint e out ref).
Proof.
  unfold rest_attempt. destruct endpoint as [ep_name ep_model].
  apply (at_most_bind is_post 1 0); [unfold post; counts_auto| |lia].
  intros response. unfold save. counts_auto.
Qed.

Lemma posts_of_rest_loop e out ref : forall endpoints last_error,
  at_most is_post (length endpoints) (rest_loop w key endpoints e out ref last_error).
Proof.
  induction endpoints as [|ep rest IH]; intros last_error; simpl; [counts_auto|].
  apply (at_most_bind is_post 1 (length rest)); [| |lia].
  - apply (at_most_try is_post 1 0); [|intro; counts_auto|lia].
    apply (at_most_try is_post 1 0);
      [apply posts_of_rest_attempt|intro; counts_auto|lia].
  - intros [p|last]; [counts_auto|apply IH].
Qed.

(** One pass over the candidates. *)
Lemma requests_of_candidates e out ref t :
  exists added,
    snd (gemini_candidates w key e out ref t) = (t ++ added)%list /\
    (count is_sdk added <= 3 * sdk_calls ref)%nat /\
    (count is_post added <= 4)%nat.
Proof.
  assert (Hs : at_most is_sdk (3 * sdk_calls ref) (gemini_candidates w key e out ref)).
  { unfold gemini_candidates.
    apply (at_most_bind is_sdk (3 * sdk_calls ref) 0);
      [apply (sdk_calls_of_loop e out ref models_to_try)| |lia].
    intros [p|]; [counts_auto|apply sdk_calls_of_rest_loop]. }
  assert (Hp : at_most is_post 4 (gemini_candidates w key e out ref)).
  { unfold gemini_candidates.
    apply (at_most_bind is_post 0 4); [apply posts_of_sdk_loop| |lia].
    intros [p|]; [counts_auto|apply (posts_of_rest_loop e out ref endpoints_to_try)]. }
  destruct (Hs t) as (a1 & E1 & C1). destruct (Hp t) as (a2 & E2 & C2).
  assert (a2 = a1). { rewrite E1 in E2. apply app_inv_head in E2. congruence. }
  subst a2. exists a1. auto.
Qed.

End Chain.

(** X12: one call of [generate_gemini] asks the SDK at most nine times and
    the REST endpoints at most eight times; when no reference passes
    validation there is no second pass, and it asks each of the three SDK
    models and of the four endpoints at most once. *)
Theorem generate_gemini_requests_are_bounded
    (w : env) (key prompt output_path : string) (ref : pyref) (t : trace) :
  exists added,
    snd (generate_gemini w key prompt output_path ref t) = (t ++ added)%list /\
    (count is_sdk added <= 9)%nat /\ (count is_post added <= 8)%nat /\
    (ref_truthy (validate_reference w ref) = false ->
     (count is_sdk added <= 3)%nat /\ (count is_post added <= 4)%nat).
Proof.
  unfold generate_gemini. simpl.
  rewrite GeneratorFacts.generate_gemini_body_eq.
  destruct (requests_of_candidates w key (gemini_enhanced_prompt prompt) output_path
              (validate_reference w ref) t) as (a1 & E1 & S1 & P1).
  destruct (gemini_candidates w key (gemini_enhanced_prompt prompt) output_path
              (validate_reference w ref) t) as [[r|e] t1]; simpl in E1; subst t1.
  - assert (Hu : ref_truthy (validate_reference w ref) = false ->
                 sdk_calls (validate_reference w ref) = 1%nat).
    { unfold sdk_calls, ref_usable, ref_truthy.
      destruct (validate_reference w ref) as [|s|b]; try reflexivity.
      intros H. rewrite H. reflexivity. }
    assert (Hb : (sdk_calls (validate_reference w ref) <= 2)%nat).
    { unfold sdk_calls. destruct (ref_usable _); lia. }
    destruct r as [p|last].
    + exists a1. simpl. split; [reflexivity|]. split; [lia|]. split; [lia|].
      intros H. rewrite (Hu H) in S1. lia.
    + destruct (ref_truthy (validate_reference w ref)) eqn:Et.
      * rewrite GeneratorFacts.generate_gemini_body_eq.
        destruct (requests_of_candidates w key
                    (gemini_enhanced_prompt (gemini_enhanced_prompt prompt))
                    output_path (validate_reference w RNone) (t ++ a1)%list)
          as (a2 & E2 & S2 & P2).
        destruct (gemini_candidates w key _ output_path (validate_reference w RNone)
                    (t ++ a1)%list) as [[r2|e2] t2]; simpl in E2; subst t2.
        -- exists (a1 ++ a2)%list. rewrite !count_app, app_assoc.
           simpl in S2. destruct r2; simpl;
             (split; [reflexivity|]); (split; [lia|]); (split; [lia|discriminate]).
        -- exists (a1 ++ a2)%list. rewrite !count_app, app_assoc.
           split; [reflexivity|]. simpl in S2. split; [lia|]. split; [lia|discriminate].
      * exists a1. simpl. split; [reflexivity|]. split; [lia|]. split; [lia|].
        intros _. rewrite (Hu eq_refl) in S1. lia.
  - exists a1. simpl. split; [reflexivity|].
    assert (Hb : (sdk_calls (validate_reference w ref) <= 2)%nat).
    { unfold sdk_calls. destruct (ref_usable _); lia. }
    split; [lia|]. split; [lia|].
    intros H. assert (sdk_calls (validate_reference w ref) = 1%nat) as Hu.
    { unfold sdk_calls, ref_usable. revert H. unfold ref_truthy.
      destruct (validate_reference w ref) as [|s|b]; try reflexivity.
      intros H. rewrite H. reflexivity. }
    rewrite Hu in S1. lia.
Qed.


(** *** One provider for each instance *)

#[local] Hint Extern 1 (own_request _ _) => exact I : emits.
#[local] Hint Extern 1 (own_request _ _) => reflexivity : emits.

Section Gemini.

Variable w : env.
Variable key : string.

Lemma own_save path data : emits (own_request "gemini") (save w path data).
Proof. unfold save. GeneratorFacts.emits_auto. Qed.

Hint Resolve own_save : emits.

Lemma own_sdk_loop e out ref : forall models, emits (own_request "gemini") (sdk_loop w models e out ref).
Proof.
  induction models as [|m rest IH]; simpl; [GeneratorFacts.emits_auto|].
  unfold sdk_attempt, sdk_request, sdk_call. GeneratorFacts.emits_auto.
Qed.

Lemma own_rest_loop e out ref : forall endpoints last_error,
  emits (own_request "gemini") (rest_loop w key endpoints e out ref last_error).
Proof.
  induction endpoints as [|[ep_name ep_model] rest IH]; intros last_error; simpl;
    [GeneratorFacts.emits_auto|].
  unfold rest_attempt, post. GeneratorFacts.emits_auto.
Qed.

Hint Resolve own_sdk_loop own_rest_loop : emits.

Lemma own_generate_gemini_fuel out : forall fuel prompt ref,
  emits (own_request "gemini") (generate_gemini_fuel w key fuel prompt out ref).
Proof.
  induction fuel as [|n IH]; intros prompt ref; simpl; [GeneratorFacts.emits_auto|].
  unfold generate_gemini_body, gemini_candidates. GeneratorFacts.emits_auto.
Qed.

End Gemini.

(** X13: the requests of a call of [generate] go to the provider the
    instance was made for and to no other: the Gemini SDK and the Google
    address with "gemini", the Freepik addresses with "freepik", the
    Replicate address with "replicate", the OpenAI client with "dalle", the
    FAL client with "fal". *)
Theorem generate_asks_its_own_provider
    (w : env) (self : generator) (prompt output_path : string) (ref : pyref)
    (t : trace) :
  exists added,
    snd (generate w self prompt output_path ref t) = (t ++ added)%list /\
    Forall (own_request (service self)) added.
Proof.
  revert t. change (emits (own_request (service self))
                      (generate w self prompt output_path ref)).
  unfold generate.
  destruct (String.eqb_spec (service self) "freepik") as [E|_].
  { rewrite E. apply GeneratorFacts.emits_generate_freepik; intros;
      try exact I; try reflexivity.
    unfold freepik_reference_endpoints. repeat constructor. }
  destruct (String.eqb_spec (service self) "dalle") as [E|_].
  { rewrite E. apply GeneratorFacts.emits_generate_dalle; intros;
      try exact I; reflexivity. }
  destruct (String.eqb_spec (service self) "gemini") as [E|_].
  { rewrite E. apply own_generate_gemini_fuel. }
  destruct (String.eqb_spec (service self) "replicate") as [E|_].
  { rewrite E. apply GeneratorFacts.emits_generate_replicate; intros;
      try exact I.
    unfold replicate_models. repeat constructor. }
  destruct (String.eqb_spec (service self) "fal") as [E|_].
  { rewrite E. apply GeneratorFacts.emits_generate_fal; intros;
      try exact I; reflexivity. }
  apply GeneratorFacts.emits_raise.
Qed.


(** *** Polling a status address that fails *)

Section Unreachable.

Variable w : env.
Variable url out : string.

Lemma status_error_class reply e :
  status_error reply = Some e -> is_request_exception e = true.
Proof.
  unfold status_error, raise_for_status. destruct reply as [r|e'].
  - destruct (_ && _); [|discriminate]. intros H. injection H as <-. reflexivity.
  - destruct (is_request_exception e') eqn:E; [|discriminate].
    intros H. injection H as <-. exact E.
Qed.

Lemma poll_job_attempt_unreachable t e :
  status_error (requests_get w (length t) url) = Some e ->
  poll_job_attempt w url out t = (Raise e, (t ++ [EvGet url])%list).
Proof.
  unfold status_error, poll_job_attempt, get, emit, bind, lift.
  destruct (requests_get w (length t) url) as [r|e'].
  - destruct (raise_for_status r); [discriminate|]. intros H. injection H as <-.
    reflexivity.
  - destruct (is_request_exception e'); [|discriminate]. intros H. injection H as <-.
    reflexivity.
Qed.

Lemma poll_task_attempt_unreachable t e :
  status_error (requests_get w (length t) url) = Some e ->
  poll_task_attempt w url out t = (Raise e, (t ++ [EvGet url])%list).
Proof.
  unfold status_error, poll_task_attempt, get, emit, bind, lift.
  destruct (requests_get w (length t) url) as [r|e'].
  - destruct (raise_for_status r); [discriminate|]. intros H. injection H as <-.
    reflexivity.
  - destruct (is_request_exception e'); [|discriminate]. intros H. injection H as <-.
    reflexivity.
Qed.

Lemma replicate_poll_attempt_unreachable t e :
  status_error (requests_get w (length t) url) = Some e ->
  replicate_poll_attempt w url out t = (Raise e, (t ++ [EvGet url])%list).
Proof.
  unfold status_error, replicate_poll_attempt, get, emit, bind, lift.
  destruct (requests_get w (length t) url) as [r|e'].
  - destruct (raise_for_status r); [discriminate|]. intros H. injection H as <-.
    reflexivity.
  - destruct (is_request_exception e'); [|discriminate]. intros H. injection H as <-.
    reflexivity.
Qed.

Hypothesis unreachable : status_unreachable w url.

Lemma poll_job_loop_unreachable : forall k a t,
  (a + k = 59)%nat ->
  exists e,
    status_error
      (requests_get w (length (t ++ concat (repeat (paused_request url) k))%list) url)
    = Some e /\
    poll_job_loop w (S k) a url out t
    = (Raise e, (t ++ concat (repeat (paused_request url) k) ++ [EvGet url])%list).
Proof.
  induction k as [|k IH]; intros a t Ha.
  - cbn [repeat concat]. rewrite app_nil_r.
    destruct (unreachable (length t)) as (e & He). exists e.
    split; [exact He|].
    rewrite GeneratorFacts.poll_job_loop_step, (poll_job_attempt_unreachable t e He),
      (status_error_class _ e He).
    replace a with 59%nat by lia. reflexivity.
  - destruct (unreachable (length t)) as (e0 & He0).
    destruct (IH (S a) ((t ++ [EvGet url]) ++ [EvSleep 2])%list) as (e & He & El);
      [lia|].
    exists e.
    assert (Ht : (((t ++ [EvGet url]) ++ [EvSleep 2])
                  ++ concat (repeat (paused_request url) k))%list
                 = (t ++ concat (repeat (paused_request url) (S k)))%list).
    { simpl. rewrite <- !app_assoc. reflexivity. }
    split; [rewrite <- Ht; exact He|].
    rewrite GeneratorFacts.poll_job_loop_step, (poll_job_attempt_unreachable t e0 He0),
      (status_error_class _ e0 He0).
    assert (Hn : (a =? max_attempts - 1)%nat = false).
    { apply Nat.eqb_neq. unfold max_attempts. lia. }
    rewrite Hn, El. f_equal. rewrite app_assoc, Ht, <- app_assoc. reflexivity.
Qed.

Lemma poll_task_loop_unreachable : forall k a t,
  (a + k = 59)%nat ->
  exists e,
    status_error
      (requests_get w (length (t ++ concat (repeat (paused_request url) k))%list) url)
    = Some e /\
    poll_task_loop w (S k) a url out t
    = (Raise e, (t ++ concat (repeat (paused_request url) k) ++ [EvGet url])%list).
Proof.
  induction k as [|k IH]; intros a t Ha.
  - cbn [repeat concat]. rewrite app_nil_r.
    destruct (unreachable (length t)) as (e & He). exists e.
    split; [exact He|].
    rewrite GeneratorFacts.poll_task_loop_step, (poll_task_attempt_unreachable t e He),
      (status_error_class _ e He).
    replace a with 59%nat by lia. reflexivity.
  - destruct (unreachable (length t)) as (e0 & He0).
    destruct (IH (S a) ((t ++ [EvGet url]) ++ [EvSleep 2])%list) as (e & He & El);
      [lia|].
    exists e.
    assert (Ht : (((t ++ [EvGet url]) ++ [EvSleep 2])
                  ++ concat (repeat (paused_request url) k))%list
                 = (t ++ concat (repeat (paused_request url) (S k)))%list).
    { simpl. rewrite <- !app_assoc. reflexivity. }
    split; [rewrite <- Ht; exact He|].
    rewrite GeneratorFacts.poll_task_loop_step, (poll_task_attempt_unreachable t e0 He0),
      (status_error_class _ e0 He0).
    assert (Hn : (a =? max_attempts - 1)%nat = false).
    { apply Nat.eqb_neq. unfold max_attempts. lia. }
    rewrite Hn, El. f_equal. rewrite app_assoc, Ht, <- app_assoc. reflexivity.
Qed.

End Unreachable.

(** X14: the two polling loops of Freepik put up with request errors: when
    every status request ends in a request exception, they ask 60 times,
    pausing two seconds after each of the first 59, and raise the exception
    of the last request, not the time-out.  The loop of
    [generate_replicate] gives up at the first such error. *)
Theorem freepik_polling_retries_request_errors
    (w : env) (url output_path : string) (t : trace) :
  status_unreachable w url ->
  exists e first,
    is_request_exception e = true /\
    e <> timed_out /\
    poll_job_loop w max_attempts 0 url output_path t
    = (Raise e, (t ++ concat (repeat (paused_request url) 59) ++ [EvGet url])%list) /\
    poll_task_loop w max_attempts 0 url output_path t
    = (Raise e, (t ++ concat (repeat (paused_request url) 59) ++ [EvGet url])%list) /\
    replicate_poll_loop w max_attempts url output_path t
    = (Raise first, (t ++ [EvGet url])%list).
Proof.
  intros H.
  destruct (poll_job_loop_unreachable w url output_path H 59 0 t eq_refl)
    as (e & He & Ej).
  destruct (poll_task_loop_unreachable w url output_path H 59 0 t eq_refl)
    as (e' & He' & Et).
  assert (e' = e) by congruence. subst e'.
  destruct (H (length t)) as (e0 & He0).
  pose proof (status_error_class _ e He) as Hc.
  exists e, e0. split; [exact Hc|]. split.
  - intros ->. discriminate Hc.
  - split; [exact Ej|]. split; [exact Et|].
    unfold max_attempts. rewrite GeneratorFacts.replicate_poll_loop_step,
      (replicate_poll_attempt_unreachable w url output_path t e0 He0).
    reflexivity.
Qed.

Lemma freepik_polling_retries_request_errors_example :
  let url := "https://api.freepik.com/v1/ai/text-to-image/job-1" in
  exists e first,
    is_request_exception e = true /\
    e <> timed_out /\
    poll_job_loop Stubs.failing max_attempts 0 url "out.png" []
    = (Raise e, ([] ++ concat (repeat (paused_request url) 59) ++ [EvGet url])%list) /\
    poll_task_loop Stubs.failing max_attempts 0 url "out.png" []
    = (Raise e, ([] ++ concat (repeat (paused_request url) 59) ++ [EvGet url])%list) /\
    replicate_poll_loop Stubs.failing max_attempts url "out.png" []
    = (Raise first, ([] ++ [EvGet url])%list).
Proof.
  apply freepik_polling_retries_request_errors.
  intros n. eexists. reflexivity.
Defined.

(** *** [generate_dalle], [generate_freepik] and [__init__] *)

(** X15: the analysis of the reference image cannot fail a call of
    [generate_dalle].  With a reference that passes validation, when the
    file cannot be read the call goes on exactly as a call without
    reference, and when the vision request raises it goes on, after that
    request, with the image request of a call without reference. *)
Theorem dalle_falls_back_to_the_text_prompt
    (w : env) (prompt output_path p : string) (t : trace) :
  all_space p = false -> path_exists w p = true ->
  generate_dalle w prompt output_path RNone t
  = dalle_request w (dalle_text_prompt prompt) output_path t /\
  match read_file w p with
  | Raise _ =>
      generate_dalle w prompt output_path (RStr p) t
      = generate_dalle w prompt output_path RNone t
  | Ok bytes =>
      let image := data_url (b64encode w bytes) in
      forall e,
        chat_completions w (length t) "gpt-4o" vision_instruction image = Raise e ->
        generate_dalle w prompt output_path (RStr p) t
        = dalle_request w (dalle_text_prompt prompt) output_path
            (t ++ [EvChat "gpt-4o" vision_instruction image])%list
  end.
Proof.
  intros Ha Hp. split; [reflexivity|].
  destruct (GeneratorFacts.validate_valid w p Ha Hp) as (Hv & Ht & _).
  unfold generate_dalle, dalle_enhanced_prompt. rewrite Hv, Ht.
  unfold open_rb, try_except, bind, lift, emit, ret, any_exception.
  destruct (read_file w p) as [bytes|e0]; [|reflexivity].
  intros e He. rewrite He. reflexivity.
Qed.

Lemma dalle_falls_back_to_the_text_prompt_example :
  generate_dalle Stubs.failing "a red fox" "out.png" RNone []
  = dalle_request Stubs.failing (dalle_text_prompt "a red fox") "out.png" [] /\
  match read_file Stubs.failing Stubs.reference with
  | Raise _ =>
      generate_dalle Stubs.failing "a red fox" "out.png" (RStr Stubs.reference) []
      = generate_dalle Stubs.failing "a red fox" "out.png" RNone []
  | Ok bytes =>
      let image := data_url (b64encode Stubs.failing bytes) in
      forall e,
        chat_completions Stubs.failing (length (@nil event)) "gpt-4o"
          vision_instruction image = Raise e ->
        generate_dalle Stubs.failing "a red fox" "out.png" (RStr Stubs.reference) []
        = dalle_request Stubs.failing (dalle_text_prompt "a red fox") "out.png"
            ([] ++ [EvChat "gpt-4o" vision_instruction image])%list
  end.
Proof.
  apply dalle_falls_back_to_the_text_prompt; reflexivity.
Defined.

Lemma char_length_take : forall s n, (char_length (take n s) <= n)%nat.
Proof.
  induction s as [|c s IH]; intros n; simpl; [lia|].
  destruct (is_continuation c) eqn:E; simpl.
  - rewrite E. apply IH.
  - destruct n as [|n]; simpl; [lia|]. rewrite E. specialize (IH n). lia.
Qed.

(** X16: whatever the prompt and the description of the reference, the
    prompt [generate_dalle] sends with its image request has at most 4000
    characters. *)
Theorem dalle_prompt_fits
    (w : env) (prompt output_path : string) (ref : pyref) (t : trace) :
  exists added,
    snd (generate_dalle w prompt output_path ref t) = (t ++ added)%list /\
    forall model sent, In (EvImages model sent) added ->
                       (char_length sent <= 4000)%nat.
Proof.
  destruct (GeneratorFacts.emits_generate_dalle w prompt_fits
              (fun _ => I) (fun _ _ => I) prompt output_path ref
              (fun _ _ _ => I) (char_length_take _ _) (fun _ => char_length_take _ _) t)
    as (added & E & F).
  exists added. split; [exact E|]. rewrite Forall_forall in F.
  intros model sent Hin. apply (F _ Hin).
Qed.

(** X17: with a reference that passes validation [generate_freepik] asks
    the two endpoints that take an image and nothing else: it never falls
    back on the text-to-image address and never polls, and whatever goes
    wrong reaches the caller as the one exception that names the provider's
    limit. *)
Theorem freepik_with_reference_never_falls_back
    (w : env) (prompt output_path p : string) (t : trace) :
  all_space p = false -> path_exists w p = true ->
  exists added,
    snd (generate_freepik w prompt output_path (RStr p) t) = (t ++ added)%list /\
    Forall reference_request added /\
    forall e, fst (generate_freepik w prompt output_path (RStr p) t) = Raise e ->
              exists msg, e = freepik_reference_failure msg.
Proof.
  intros Ha Hp.
  destruct (GeneratorFacts.validate_valid w p Ha Hp) as (Hv & Ht & _).
  unfold generate_freepik. rewrite Hv, Ht.
  destruct (GeneratorFacts.emits_freepik_with_reference w reference_request
              (fun _ => I) (fun _ _ => I) prompt output_path (RStr p)) with (t := t)
    as (added & E & F).
  { intros image. unfold freepik_reference_endpoints.
    constructor; [left; reflexivity|]. constructor; [right; reflexivity|constructor]. }
  exists added. unfold try_except, any_exception.
  destruct (_freepik_with_reference w prompt output_path (RStr p) t) as [[r|e0] t1];
    simpl in *; subst t1.
  - split; [reflexivity|]. split; [exact F|]. discriminate.
  - unfold raise. simpl. split; [reflexivity|]. split; [exact F|].
    intros e H. injection H as <-. exists (exc_msg e0). reflexivity.
Qed.

Lemma freepik_with_reference_never_falls_back_example :
  exists added,
    snd (generate_freepik Stubs.failing "a red fox" "out.png" (RStr Stubs.reference) [])
    = ([] ++ added)%list /\
    Forall reference_request added /\
    forall e,
      fst (generate_freepik Stubs.failing "a red fox" "out.png"
             (RStr Stubs.reference) []) = Raise e ->
      exists msg, e = freepik_reference_failure msg.
Proof.
  apply freepik_with_reference_never_falls_back; reflexivity.
Defined.

Lemma key_variable_known s var :
  key_variable s = Some var -> In s services.
Proof.
  unfold key_variable, services.
  repeat match goal with
         | |- context [String.eqb s ?x] =>
             destruct (String.eqb_spec s x) as [->|_]; [intros _; simpl; tauto|]
         end.
  discriminate.
Qed.

Lemma key_variable_unknown s :
  key_variable s = None -> ~ In s services.
Proof.
  unfold key_variable, services.
  repeat match goal with
         | |- context [String.eqb s ?x] =>
             destruct (String.eqb_spec s x) as [->|?]; [discriminate|]
         end.
  intros _ H. simpl in H. intuition congruence.
Qed.


(** *** The second pass of [generate_gemini] *)

Section TextOnly.

Variable w : env.
Variable key : string.
Variable e : string.

Lemma sends_only_quiet ev : prompts_of ev = [] -> sends_only e ev.
Proof. intros H s Hs. rewrite H in Hs. destruct Hs. Qed.

Lemma sends_only_text m : sends_only e (EvSdk m (SdkText e)).
Proof. intros s [<-|[]]. reflexivity. Qed.

Lemma sends_only_post url : sends_only e (EvPost url (rest_payload w e RNone)).
Proof. intros s [<-|[]]. reflexivity. Qed.

Hint Resolve sends_only_text sends_only_post : emits.
Hint Extern 1 (sends_only _ _) => apply sends_only_quiet; reflexivity : emits.

Lemma text_only_sdk_loop out : forall models,
  emits (sends_only e) (sdk_loop w models e out RNone).
Proof.
  induction models as [|m rest IH]; simpl; [GeneratorFacts.emits_auto|].
  unfold sdk_attempt, sdk_request, sdk_call, save. cbn [ref_usable].
  GeneratorFacts.emits_auto.
Qed.

Lemma text_only_rest_loop out : forall endpoints last_error,
  emits (sends_only e) (rest_loop w key endpoints e out RNone last_error).
Proof.
  induction endpoints as [|[ep_name ep_model] rest IH]; intros last_error; simpl;
    [GeneratorFacts.emits_auto|].
  unfold rest_attempt, post, save. GeneratorFacts.emits_auto.
Qed.

Hint Resolve text_only_sdk_loop text_only_rest_loop : emits.

Lemma text_only_candidates out :
  emits (sends_only e) (gemini_candidates w key e out RNone).
Proof. unfold gemini_candidates. GeneratorFacts.emits_auto. Qed.

End TextOnly.

(** X19: the second pass of [generate_gemini] does not send the prompt of
    the first.  When a reference passed validation and every candidate
    failed, the method calls itself with the prompt it had already put into
    the style template, so that each request of the second pass, from the
    first SDK call on, carries the template applied twice. *)
Theorem gemini_retry_sends_the_template_twice
    (w : env) (key prompt output_path p : string) (t t1 : trace)
    (last : option string) :
  all_space p = false -> path_exists w p = true ->
  gemini_candidates w key (gemini_enhanced_prompt prompt) output_path (RStr p) t
  = (Ok (Continue last), t1) ->
  let twice := gemini_enhanced_prompt (gemini_enhanced_prompt prompt) in
  exists rest,
    snd (generate_gemini w key prompt output_path (RStr p) t)
    = (t1 ++ EvSdk "gemini-2.5-flash-image" (SdkText twice) :: rest)%list /\
    Forall (sends_only twice) rest.
Proof.
  intros Ha Hp Hc twice.
  pose proof (GeneratorFacts.generate_gemini_retry w key prompt output_path p t t1
                last Ha Hp Hc) as Hr.
  assert (Hs : snd (generate_gemini w key prompt output_path (RStr p) t)
               = snd (gemini_candidates w key twice output_path RNone t1)).
  { rewrite Hr. fold twice.
    destruct (gemini_candidates w key twice output_path RNone t1) as [[[q|l]|e] t2];
      reflexivity. }
  assert (Hg : snd (generate_gemini w key (gemini_enhanced_prompt prompt)
                      output_path RNone t1)
               = snd (gemini_candidates w key twice output_path RNone t1)).
  { unfold generate_gemini. simpl.
    rewrite GeneratorFacts.generate_gemini_body_eq. fold twice.
    change (validate_reference w RNone) with RNone.
    destruct (gemini_candidates w key twice output_path RNone t1) as [[[q|l]|e] t2];
      reflexivity. }
  destruct (GeneratorFacts.gemini_starts w key (gemini_enhanced_prompt prompt)
              output_path t1) as (rest & Er).
  destruct (text_only_candidates w key twice output_path t1) as (added & Ea & Fa).
  rewrite Hs. rewrite Hg in Er. exists rest. split; [exact Er|].
  rewrite Er in Ea. apply app_inv_head in Ea. subst added.
  inversion Fa. assumption.
Qed.

Lemma gemini_retry_sends_the_template_twice_example :
  let twice := gemini_enhanced_prompt (gemini_enhanced_prompt "a red fox") in
  exists rest,
    snd (generate_gemini Stubs.failing "KEY" "a red fox" "out.png"
           (RStr Stubs.reference) [])
    = (snd (gemini_candidates Stubs.failing "KEY" (gemini_enhanced_prompt "a red fox")
              "out.png" (RStr Stubs.reference) [])
       ++ EvSdk "gemini-2.5-flash-image" (SdkText twice) :: rest)%list /\
    Forall (sends_only twice) rest.
Proof.
  apply (gemini_retry_sends_the_template_twice Stubs.failing "KEY" "a red fox"
           "out.png" Stubs.reference []
           (snd (gemini_candidates Stubs.failing "KEY"
                   (gemini_enhanced_prompt "a red fox") "out.png"
                   (RStr Stubs.reference) []))
           (Some "Gemini Exp 1206 failed: Internal error"));
    [reflexivity|reflexivity|vm_compute; reflexivity].
Defined.

End CallFacts.

(** ** Properties of the handler of [/api/generate] *)

Module WebFacts.

Import Generator GeneratorNotions CallNotions WebApp WebNotions.
Local Open Scope py_scope.

Section Handler.

Variable w : env.
Variable getenv : string -> option string.
Variable mkdir : string -> res unit.
Variable exists_after : trace -> string -> bool.
Variable fields : list (string * json).

(** What the handler answers to a body with a prompt: the failure of one
    of its steps, or the file [generate] wrote. *)
Lemma generate_thumbnail_outcome (t : trace) :
  py_truthy (prompt_of_request fields) = true ->
  exists t',
    (exists e,
       generate_thumbnail w getenv mkdir exists_after (JObj fields) t
       = (Ok (failed e), t'))
    \/
    (exists self name pre data,
       let path := "generated_thumbnails/" ++ name in
       output_name (topic_of_request fields) = Ok name /\
       generate_thumbnail w getenv mkdir exists_after (JObj fields) t
       = (Ok (generated path name), t') /\
       generate w self (py_str w (prompt_of_request fields)) path
         (reference_of w (reference_of_request fields)) t
       = (Ok path, t') /\
       t' = (t ++ pre ++ [EvWrite path data])%list /\
       write_file w path data = Ok tt /\
       exists_after t' path = true).
Proof.
  intros Ep.
  unfold generate_thumbnail, bind, lift, py_get.
  fold (prompt_of_request fields) (topic_of_request fields)
    (reference_of_request fields).
  rewrite Ep. cbn [negb]. unfold try_except, any_exception, bind, lift, ret, raise.
  destruct (mkdir "generated_thumbnails") as [[]|e]; [|eauto].
  destruct (new_generator getenv _) as [self|e]; [|eauto].
  destruct (output_name _) as [name|e] eqn:En; [|eauto].
  pose proof (CallFacts.lands_generate w self
                (py_str w (prompt_of_request fields))
                ("generated_thumbnails/" ++ name)
                (reference_of w (reference_of_request fields)) t) as (added & E & _ & P).
  destruct (generate w self _ _ _ t) as [[p|e] t1] eqn:Eg; [|eauto].
  simpl in E. subst t1.
  destruct (P p p eq_refl eq_refl) as (-> & pre & data & -> & Hw).
  cbn [String.eqb append]. unfold so_far.
  destruct (exists_after _ _) eqn:Ex; cbn [negb]; [|eauto].
  exists (t ++ pre ++ [EvWrite ("generated_thumbnails/" ++ name) data])%list.
  right. exists self, name, pre, data. cbv zeta.
  repeat (split; [solve [auto]|]). exact Ex.
Qed.

End Handler.

(** X20: for a request body that is a JSON object the handler of
    [/api/generate] always answers, with status 200, 400 or 500; it answers
    400 exactly when the prompt is missing or false (empty, null, zero), and
    then nothing else has happened: no directory made, no key read, no
    provider asked. *)
Theorem generate_thumbnail_requires_a_prompt
    (w : env) (getenv : string -> option string) (mkdir : string -> res unit)
    (exists_after : trace -> string -> bool)
    (fields : list (string * json)) (t : trace) :
  exists r t',
    generate_thumbnail w getenv mkdir exists_after (JObj fields) t = (Ok r, t') /\
    (status r = 200 \/ status r = 400 \/ status r = 500)%Z /\
    (py_truthy (prompt_of_request fields) = false <-> status r = 400%Z) /\
    (py_truthy (prompt_of_request fields) = false -> r = prompt_required /\ t' = t).
Proof.
  destruct (py_truthy (prompt_of_request fields)) eqn:Ep.
  - destruct (generate_thumbnail_outcome w getenv mkdir exists_after fields t Ep)
      as (t' & [(e & E)|(self & name & pre & data & _ & E & _)]);
      rewrite E; do 2 eexists; (split; [reflexivity|]); simpl;
      (split; [auto|]); (split; [split; discriminate|discriminate]).
  - unfold generate_thumbnail, bind, lift, py_get. fold (prompt_of_request fields).
    rewrite Ep. do 2 eexists. split; [reflexivity|]. simpl. split; [auto|].
    split; [split; reflexivity|auto].
Qed.



End WebFacts.
